(** * OracleNet identity and provenance verification

    A shallow embedding of the verification core of the OracleNet
    repository and the properties its specification states about it:

    - the allow-list matcher of [migrations/1706745616_add_settings.go];
    - the wallet sign-in worker of [siwer/src/index.ts] ([POST /nonce]
      and [POST /verify]);
    - the birth-issue verification routes of the Go hooks
      ([BindGitHubRoutes], [checkCommentsForCode]);
    - the Merkle membership engine of the specification, and the Merkle
      explorer page of [src/pages] that draws its trees and proof paths.

    Strings are byte strings ([string] of the Standard Library), the two
    keyed stores ([NONCES], [verificationCodes]) are [gmap]s, and the
    services the handlers call (viem, PocketBase, the GitHub REST API) are
    interfaces given as type classes. *)

From Stdlib Require Import ZArith Ascii String List Lia Bool DecimalString Sorted.
From stdpp Require Import gmap strings list fin_maps.
From Equations Require Import Equations.

Local Open Scope Z_scope.

(* ===================================================================== *)
(** * Part I: the program *)
(* ===================================================================== *)

(** ** Byte-string primitives of the host languages *)

Module Str.

Definition lower_ascii (c : ascii) : ascii :=
  let n := nat_of_ascii c in
  if (65 <=? n)%nat && (n <=? 90)%nat then ascii_of_nat (n + 32) else c.

(** JavaScript [s.toLowerCase()], on ASCII text: there the method folds
    the letters A-Z and nothing else.  On text with a code point from 128
    on JavaScript folds further letters, which this function does not;
    statements that name the result are made for [isASCII] text. *)
Fixpoint toLowerCase (s : string) : string :=
  match s with
  | EmptyString => EmptyString
  | String c s' => String (lower_ascii c) (toLowerCase s')
  end.

(** Text made of code points below 128 only. *)
Definition isASCII (s : string) : bool :=
  forallb (fun c => (nat_of_ascii c <? 128)%nat) (list_ascii_of_string s).

(** Go [strings.EqualFold], on ASCII text (GitHub logins are made of
    ASCII letters, digits and hyphens). *)
Fixpoint EqualFold (s t : string) : bool :=
  match s, t with
  | EmptyString, EmptyString => true
  | String a s', String b t' =>
      Ascii.eqb (lower_ascii a) (lower_ascii b) && EqualFold s' t'
  | _, _ => false
  end.

(** Go [strings.HasPrefix s p]. *)
Fixpoint HasPrefix (s p : string) {struct p} : bool :=
  match p, s with
  | EmptyString, _ => true
  | String a p', String b s' => Ascii.eqb a b && HasPrefix s' p'
  | String _ _, EmptyString => false
  end.

(** Go [strings.Contains s substr]. *)
Fixpoint Contains (s substr : string) : bool :=
  HasPrefix s substr ||
  match s with
  | EmptyString => false
  | String _ s' => Contains s' substr
  end.

(** Go [len(s)], as an integer. *)
Definition len (s : string) : Z := Z.of_nat (String.length s).

(** Go [s[i]]: [None] is the index-out-of-range panic. *)
Definition at_ (s : string) (i : Z) : option ascii :=
  if (0 <=? i) && (i <? len s) then String.get (Z.to_nat i) s else None.

(** Go [s[a:b]]: [None] is the slice-bounds panic. *)
Definition slice (s : string) (a b : Z) : option string :=
  if (0 <=? a) && (a <=? b) && (b <=? len s)
  then Some (String.substring (Z.to_nat a) (Z.to_nat (b - a)) s)
  else None.

(** JavaScript [s.slice(0, n)] for [0 <= n]: clamps at the end of [s]. *)
Definition jsSlice0 (n : nat) (s : string) : string := String.substring 0 n s.

(** JavaScript truthiness of an optional string: absent and empty are
    falsy. *)
Definition truthy (s : option string) : option string :=
  match s with
  | Some (String c s') => Some (String c s')
  | _ => None
  end.

(** The decimal text of an integer (a JavaScript template literal on an
    integral number, Go's [%d]). *)
Definition show_Z (z : Z) : string := NilZero.string_of_int (Z.to_int z).

End Str.

(** ** The allow-list matcher ([migrations/1706745616_add_settings.go]) *)

Module Settings.

(** A record of the [settings] collection; the collection has a unique
    index on [key], so it is a map from keys. *)
Record Setting := mkSetting {
  value : string;
  enabled : bool;
  description : string
}.

Abbreviation App := (gmap string Setting).

(** [GetSetting]: the record, or the not-found error. *)
Definition GetSetting (app : App) (key : string) : option Setting := app !! key.

Definition IsSettingEnabled (app : App) (key : string) : bool :=
  match GetSetting app key with
  | None => false
  | Some record => enabled record
  end.

Definition GetSettingValue (app : App) (key : string) : string :=
  match GetSetting app key with
  | None => EmptyString
  | Some record => value record
  end.

(** The loop of [split]: [i] runs from its current value to [len s];
    [n] counts the iterations left.  [None] is a slice-bounds panic. *)
Fixpoint split_loop (s sep : string) (n : nat) (i start : Z)
         (result : list string) : option (list string) :=
  match n with
  | O =>
      match Str.slice s start (Str.len s) with
      | Some tl => Some (result ++ [tl])
      | None => None
      end
  | S n' =>
      if (i + Str.len sep <=? Str.len s)
         && bool_decide (Str.slice s i (i + Str.len sep) = Some sep)
      then
        match Str.slice s start i with
        | Some piece =>
            split_loop s sep n' (i + 1) (i + Str.len sep) (result ++ [piece])
        | None => None
        end
      else split_loop s sep n' (i + 1) start result
  end.

Definition split (s sep : string) : option (list string) :=
  split_loop s sep (String.length s) 0 0 [].

Definition is_blank (c : ascii) : bool :=
  Ascii.eqb c " " || Ascii.eqb c "009".

Fixpoint trim_left (s : string) : string :=
  match s with
  | String c s' => if is_blank c then trim_left s' else s
  | EmptyString => EmptyString
  end.

(** The second loop of [trim] drops blanks from the end; on a string it
    is the same walk on the reversed text. *)
Definition trim_right (s : string) : string :=
  String.rev (trim_left (String.rev s)).

Definition trim (s : string) : string := trim_right (trim_left s).

Definition splitAndTrim (s : string) : option (list string) :=
  match split s "," with
  | None => None
  | Some parts =>
      Some (filter (fun p => p <> EmptyString) (map trim parts))
  end.

Definition last_byte (s : string) : option ascii :=
  Str.at_ s (Str.len s - 1).

Definition matchPattern (repo pattern : string) : bool :=
  if (0 <? Str.len pattern) && bool_decide (last_byte pattern = Some "*"%char)
  then
    match Str.slice pattern 0 (Str.len pattern - 1) with
    | Some prefix =>
        (Str.len prefix <=? Str.len repo)
        && bool_decide (Str.slice repo 0 (Str.len prefix) = Some prefix)
    | None => false
    end
  else bool_decide (repo = pattern).

Fixpoint matchesAnyPattern (repo : string) (patterns : list string) : bool :=
  match patterns with
  | [] => false
  | pattern :: rest =>
      if matchPattern repo pattern then true else matchesAnyPattern repo rest
  end.

Definition IsRepoWhitelisted (app : App) (repoFullName : string) : bool :=
  let value := GetSettingValue app "whitelisted_repos" in
  if bool_decide (value = EmptyString) then false
  else
    match splitAndTrim value with
    | Some patterns => matchesAnyPattern repoFullName patterns
    | None => false
    end.

End Settings.

(** ** The wallet sign-in worker ([siwer/src/index.ts]) *)

Module Siwer.

(** *** [Date.prototype.toISOString] *)

Definition digit (d : Z) : ascii := ascii_of_nat (48 + Z.to_nat d).

(** The last [w] decimal digits of [n], zero padded. *)
Fixpoint fixed (w : nat) (n : Z) (acc : string) : string :=
  match w with
  | O => acc
  | S w' => fixed w' (n / 10) (String (digit (n mod 10)) acc)
  end.

(** Year, month and day of the proleptic Gregorian calendar for a day
    number counted from 1970-01-01. *)
Definition civil (days : Z) : Z * Z * Z :=
  let z := days + 719468 in
  let era := z / 146097 in
  let doe := z - era * 146097 in
  let yoe := (doe - doe / 1460 + doe / 36524 - doe / 146096) / 365 in
  let doy := doe - (365 * yoe + yoe / 4 - yoe / 100) in
  let mp := (5 * doy + 2) / 153 in
  let d := doy - (153 * mp + 2) / 5 + 1 in
  let m := if mp <? 10 then mp + 3 else mp - 9 in
  let y := yoe + era * 400 + (if m <=? 2 then 1 else 0) in
  (y, m, d).

(** [new Date(t).toISOString()] for a time value [t] in milliseconds.
    [Date.now()] always yields a valid time value, for which the
    JavaScript method does not throw. *)
Definition toISOString (t : Z) : string :=
  let days := t / 86400000 in
  let ms := t mod 86400000 in
  let '(y, m, d) := civil days in
  let year :=
    if (0 <=? y) && (y <=? 9999) then fixed 4 y EmptyString
    else String (if y <? 0 then "-"%char else "+"%char)
                (fixed 6 (Z.abs y) EmptyString) in
  year +:+ "-" +:+ fixed 2 m EmptyString +:+ "-" +:+ fixed 2 d EmptyString
    +:+ "T" +:+ fixed 2 (ms / 3600000) EmptyString
    +:+ ":" +:+ fixed 2 (ms / 60000 mod 60) EmptyString
    +:+ ":" +:+ fixed 2 (ms / 1000 mod 60) EmptyString
    +:+ "." +:+ fixed 3 (ms mod 1000) EmptyString +:+ "Z".

(** *** The [NONCES] key-value namespace *)

(** The value stored by [/nonce]: [JSON.stringify({nonce, timestamp})],
    read back by [JSON.parse]. *)
Record NonceData := mkNonceData {
  nonce : string;
  timestamp : Z
}.

(** A stored pair with the instant (in milliseconds) at which the
    namespace stops returning it. *)
Record KVEntry := mkKVEntry {
  kv_value : NonceData;
  kv_expiration : Z
}.

Abbreviation KV := (gmap string KVEntry).

Definition kv_get (now : Z) (kv : KV) (key : string) : option NonceData :=
  match kv !! key with
  | Some e => if now <? kv_expiration e then Some (kv_value e) else None
  | None => None
  end.

(** [put(key, value, { expirationTtl })], the TTL in seconds. *)
Definition kv_put (now : Z) (key : string) (v : NonceData) (expirationTtl : Z)
           (kv : KV) : KV :=
  <[ key := mkKVEntry v (now + expirationTtl * 1000) ]> kv.

Definition kv_delete (key : string) (kv : KV) : KV := delete key kv.

(** *** Requests and responses *)

(** A record of the [oracles] collection, as the worker reads it. *)
Record Oracle := mkOracle {
  id : string;
  name : string;
  wallet_address : string;
  approved : bool;
  karma : Z
}.

(** The object passed to [pb.collection('oracles').create]. *)
Record OracleCreate := mkOracleCreate {
  c_name : string;
  c_wallet_address : string;
  c_password : string;
  c_passwordConfirm : string;
  c_approved : bool;
  c_karma : Z
}.

Inductive Body :=
| Failure (error : string)
| NonceIssued (nonce message : string)
| Verified (created : bool) (oracle : Oracle) (token : string).

Record Response := mkResponse {
  body : Body;
  status : Z
}.

Definition json_error (error : string) (status : Z) : Response :=
  mkResponse (Failure error) status.

(** The answer of [/verify] and [/link] when the namespace holds no
    challenge for the address (never issued, consumed or expired). *)
Definition no_nonce : Response :=
  json_error "No nonce found. Call /nonce first" 400.

Definition is_verified (r : Response) : bool :=
  match body r with
  | Verified _ _ _ => true
  | _ => false
  end.

(** The well-formed account identifier of the specification's data model,
    the text [0x] and 40 hexadecimal digits.  The worker has no such
    check; the definition states what [/nonce] is compared with. *)
Definition is_hex (c : ascii) : bool :=
  let n := nat_of_ascii c in
  ((48 <=? n) && (n <=? 57) || (65 <=? n) && (n <=? 70)
   || (97 <=? n) && (n <=? 102))%nat.

Definition wellFormedAddress (s : string) : bool :=
  match s with
  | String "0" (String "x" digits) =>
      (String.length digits =? 40)%nat
      && forallb is_hex (list_ascii_of_string digits)
  | _ => false
  end.

Definition nl : string := String "010" EmptyString.
Definition dquote : ascii := "034".

(** The template literal of [/nonce], [/verify] and [/link]. *)
Definition signInMessage (nonce : string) (timestamp : Z) : string :=
  "Sign in to OracleNet" +:+ nl +:+ nl
    +:+ "Nonce: " +:+ nonce +:+ nl
    +:+ "Timestamp: " +:+ toISOString timestamp.

(** *** [POST /nonce]

    [now] is [Date.now()], [uuid] the value of [crypto.randomUUID()]. *)
Definition nonce_handler (now : Z) (uuid : string) (address : option string)
           (kv : KV) : Response * KV :=
  match Str.truthy address with
  | None => (json_error "address required" 400, kv)
  | Some address =>
      let nonce := Str.jsSlice0 8 uuid in
      let timestamp := now in
      let kv := kv_put now (Str.toLowerCase address)
                       (mkNonceData nonce timestamp) 300 kv in
      let message := signInMessage nonce timestamp in
      (mkResponse (NonceIssued nonce message) 200, kv)
  end.

(** *** The services [/verify] calls *)

(** viem's [verifyMessage({address, message, signature})]: [inl] is a
    thrown error with its message. *)
Class Viem := {
  verifyMessage : string -> string -> string -> string + bool
}.

(** The PocketBase client over a remote database state [PB]; [inl] and
    [None] are rejected promises. *)
Class PocketBase (PB : Type) := {
  getFirstListItem : PB -> string -> option Oracle;
  create : PB -> OracleCreate -> string + (Oracle * PB);
  authWithPassword : PB -> string -> string -> string + string;
  update : PB -> string -> string -> string -> string + PB
}.

Record VerifyRequest := mkVerifyRequest {
  r_address : option string;
  r_signature : option string;
  r_name : option string
}.

Section Verify.
Context `{Viem} {PB : Type} `{PocketBase PB}.

Record World := mkWorld {
  NONCES : KV;
  pb : PB
}.

(** "Auth and get token", with its update-and-retry fallback: the token
    or the message of the last error, and the database as the calls
    leave it. *)
Definition auth_token (address : string) (oracle : Oracle) (db : PB)
  : (string + string) * PB :=
  match authWithPassword db (wallet_address oracle) (Str.toLowerCase address) with
  | inr token => (inr token, db)
  | inl _ =>
      match update db (id oracle) (Str.toLowerCase address)
                   (Str.toLowerCase address) with
      | inl msg => (inl msg, db)
      | inr db' =>
          (authWithPassword db' (wallet_address oracle) (Str.toLowerCase address),
           db')
      end
  end.

Definition respond (address : string) (created : bool) (oracle : Oracle)
           (kv : KV) (db : PB) : Response * World :=
  match auth_token address oracle db with
  | (inl msg, db') => (json_error ("Auth failed: " +:+ msg) 500, mkWorld kv db')
  | (inr token, db') =>
      (mkResponse (Verified created oracle token) 200, mkWorld kv db')
  end.

Definition verify_handler (now : Z) (req : VerifyRequest) (w : World)
  : Response * World :=
  match Str.truthy (r_address req), Str.truthy (r_signature req) with
  | Some address, Some signature =>
      match kv_get now (NONCES w) (Str.toLowerCase address) with
      | None => (json_error "No nonce found. Call /nonce first" 400, w)
      | Some nonceData =>
          let message :=
            signInMessage (nonce nonceData) (timestamp nonceData) in
          match verifyMessage address message signature with
          | inl msg => (json_error ("Verification failed: " +:+ msg) 400, w)
          | inr false => (json_error "Invalid signature" 400, w)
          | inr true =>
              let kv := kv_delete (Str.toLowerCase address) (NONCES w) in
              let filter_ :=
                "wallet_address = " +:+ String dquote (Str.toLowerCase address)
                  +:+ String dquote EmptyString in
              match getFirstListItem (pb w) filter_ with
              | Some oracle => respond address false oracle kv (pb w)
              | None =>
                  let oracleName :=
                    match Str.truthy (r_name req) with
                    | Some n => n
                    | None => "Oracle-" +:+ Str.jsSlice0 6 address
                    end in
                  match create (pb w)
                          (mkOracleCreate oracleName
                             (Str.toLowerCase address)
                             (Str.toLowerCase address)
                             (Str.toLowerCase address)
                             true 0) with
                  | inl msg =>
                      (json_error ("Create failed: " +:+ msg) 500,
                       mkWorld kv (pb w))
                  | inr (oracle, db') => respond address true oracle kv db'
                  end
              end
          end
      end
  | _, _ => (json_error "address and signature required" 400, w)
  end.

End Verify.

(** *** [POST /link] *)

(** The two calls only [/link] makes, both on the same client: the
    sign-in to the [_superusers] collection and the update of an
    [oracles] record that sets its wallet and password ([inl] is the
    rejected promise with its message). *)
Class PocketBaseAdmin (PB : Type) := {
  superusersAuthWithPassword : PB -> string -> string -> string + string;
  updateWallet : PB -> string -> string -> string -> string -> string + PB
}.

(** The bindings [PB_ADMIN_EMAIL] and [PB_ADMIN_PASSWORD]. *)
Record Env := mkEnv {
  PB_ADMIN_EMAIL : string;
  PB_ADMIN_PASSWORD : string
}.

Record LinkRequest := mkLinkRequest {
  l_address : option string;
  l_signature : option string;
  l_oracleName : option string
}.

Inductive LinkBody :=
| LinkFailure (error : string)
| Linked (id name wallet_address : string) (approved : bool) (token : string).

Record LinkResponse := mkLinkResponse {
  link_body : LinkBody;
  link_status : Z
}.

Definition link_error (error : string) (status : Z) : LinkResponse :=
  mkLinkResponse (LinkFailure error) status.

Definition is_linked (r : LinkResponse) : bool :=
  match link_body r with
  | Linked _ _ _ _ _ => true
  | _ => false
  end.

Section Link.
Context `{Viem} {PB : Type} `{PocketBase PB} `{PocketBaseAdmin PB}.

Definition link_handler (env : Env) (now : Z) (req : LinkRequest) (w : @World PB)
  : LinkResponse * @World PB :=
  match Str.truthy (l_address req), Str.truthy (l_signature req),
        Str.truthy (l_oracleName req) with
  | Some address, Some signature, Some oracleName =>
      match kv_get now (NONCES w) (Str.toLowerCase address) with
      | None => (link_error "No nonce found. Call /nonce first" 400, w)
      | Some nonceData =>
          let message :=
            signInMessage (nonce nonceData) (timestamp nonceData) in
          match verifyMessage address message signature with
          | inl msg => (link_error ("Verification failed: " +:+ msg) 400, w)
          | inr false => (link_error "Invalid signature" 400, w)
          | inr true =>
              let kv := kv_delete (Str.toLowerCase address) (NONCES w) in
              let filter_ :=
                "name = " +:+ String dquote oracleName
                  +:+ String dquote EmptyString in
              match getFirstListItem (pb w) filter_ with
              | None =>
                  (link_error ("Oracle " +:+ String dquote oracleName
                                 +:+ String dquote " not found") 404,
                   mkWorld kv (pb w))
              | Some oracle =>
                  if match Str.truthy (Some (wallet_address oracle)) with
                     | Some _ => true
                     | None => false
                     end
                     && negb (bool_decide
                                (wallet_address oracle = Str.toLowerCase address))
                  then (link_error "Oracle already linked to different wallet" 400,
                        mkWorld kv (pb w))
                  else
                    match superusersAuthWithPassword (pb w) (PB_ADMIN_EMAIL env)
                            (PB_ADMIN_PASSWORD env) with
                    | inl msg =>
                        (link_error ("Update failed: " +:+ msg) 500,
                         mkWorld kv (pb w))
                    | inr _ =>
                        match updateWallet (pb w) (id oracle)
                                (Str.toLowerCase address)
                                (Str.toLowerCase address)
                                (Str.toLowerCase address) with
                        | inl msg =>
                            (link_error ("Update failed: " +:+ msg) 500,
                             mkWorld kv (pb w))
                        | inr db' =>
                            match authWithPassword db' (Str.toLowerCase address)
                                    (Str.toLowerCase address) with
                            | inl msg =>
                                (link_error ("Auth failed: " +:+ msg) 500,
                                 mkWorld kv db')
                            | inr token =>
                                (mkLinkResponse
                                   (Linked (id oracle) (name oracle)
                                      (Str.toLowerCase address) (approved oracle)
                                      token) 200,
                                 mkWorld kv db')
                            end
                        end
                    end
              end
          end
      end
  | _, _, _ =>
      (link_error "address, signature, and oracleName required" 400, w)
  end.

End Link.

End Siwer.

(** ** Birth-issue verification (the Go hook [BindGitHubRoutes]) *)

Module GitHub.

(** *** [parseIssueURL]

    The regular expression is
    [github\.com/([^/]+)/([^/]+)/issues/(\d+)].  A run matched by
    [[^/]+] has to be followed by a slash, so from a given start the
    match is unique; [FindStringSubmatch] returns the leftmost one. *)

Fixpoint span (p : ascii -> bool) (s : string) : string * string :=
  match s with
  | EmptyString => (EmptyString, EmptyString)
  | String c s' =>
      if p c then let '(a, b) := span p s' in (String c a, b)
      else (EmptyString, s)
  end.

Definition not_slash (c : ascii) : bool := negb (Ascii.eqb c "/").

Definition is_digit (c : ascii) : bool :=
  let n := nat_of_ascii c in (48 <=? n)%nat && (n <=? 57)%nat.

Fixpoint drop (n : nat) (s : string) : string :=
  match n, s with
  | O, _ => s
  | S n', String _ s' => drop n' s'
  | S _, EmptyString => EmptyString
  end.

(** The rest of the pattern, right after [github.com/]. *)
Definition match_after_host (s : string) : option (string * string * string) :=
  let '(owner, r1) := span not_slash s in
  if bool_decide (owner = EmptyString) then None
  else
    match r1 with
    | String c r2 =>
        if Ascii.eqb c "/" then
          let '(repo, r3) := span not_slash r2 in
          if bool_decide (repo = EmptyString) then None
          else if Str.HasPrefix r3 "/issues/" then
            let '(num, _) := span is_digit (drop 8 r3) in
            if bool_decide (num = EmptyString) then None
            else Some (owner, repo, num)
          else None
        else None
    | EmptyString => None
    end.

Fixpoint find_match (url : string) : option (string * string * string) :=
  let later :=
    match url with
    | EmptyString => None
    | String _ url' => find_match url'
    end in
  if Str.HasPrefix url "github.com/" then
    match match_after_host (drop 11 url) with
    | Some m => Some m
    | None => later
    end
  else later.

(** [inl] is the returned [error]. *)
Definition parseIssueURL (url : string) : string + (string * string * string) :=
  match find_match url with
  | Some m => inr m
  | None => inl "invalid GitHub issue URL"
  end.

(** *** The in-memory code store *)

Record StoredCode := mkStoredCode {
  Code : string;
  ExpiresAt : Z
}.

Abbreviation Codes := (gmap string StoredCode).

(** [10 * time.Minute], in milliseconds. *)
Definition tenMinutes : Z := 600000.

Definition storeVerificationCode (now : Z) (repoKey code : string)
           (verificationCodes : Codes) : Codes :=
  <[ repoKey := mkStoredCode code (now + tenMinutes) ]> verificationCodes.

Definition verifyStoredCode (now : Z) (repoKey code : string)
           (verificationCodes : Codes) : bool * Codes :=
  match verificationCodes !! repoKey with
  | None => (false, verificationCodes)
  | Some stored =>
      if ExpiresAt stored <? now
      then (false, delete repoKey verificationCodes)
      else (bool_decide (Code stored = code), verificationCodes)
  end.

Definition clearVerificationCode (repoKey : string)
           (verificationCodes : Codes) : Codes :=
  delete repoKey verificationCodes.

(** *** The GitHub REST API and the record store *)

(** The JSON the two endpoints answer with, as [json.Decode] fills the
    anonymous structs (zero values where the body does not decode). *)
Record IssueJSON := mkIssueJSON {
  Title : string;
  IssueBody : string;
  IssueLogin : string;
  Labels : list string
}.

Record CommentJSON := mkCommentJSON {
  Body : string;
  Login : string
}.

(** [http.Get] on an issue URL and on a comments URL: [inl] is the
    transport error.  [extractOracleName] (three case-insensitive
    regular expressions over body and title) only feeds the display
    name and is not interpreted. *)
Class Api := {
  get_issue : string -> string + (Z * IssueJSON);
  get_comments : string -> string + list CommentJSON;
  extractOracleName : string -> string -> string
}.

Record IssueInfo := mkIssueInfo {
  Author : string;
  OracleName : string;
  HasBirthPropsLabel : bool
}.

(** A record of the [oracles] collection, as the hook writes it. *)
Record OracleRecord := mkOracleRecord {
  Id : string;
  name : string;
  email : string;
  github_username : string;
  github_repo : string;
  approved : bool;
  karma : Z
}.

(** The part of [core.App] the hook uses over a database state [App]:
    [FindRecordsByFilter] on [github_username] (limit 1), [Save], which
    returns the record as persisted, and [NewAuthToken]. *)
Class Store (App : Type) := {
  FindRecordsByGithubUsername : App -> string -> list OracleRecord;
  Save : App -> OracleRecord -> string + (OracleRecord * App);
  NewAuthToken : OracleRecord -> string + string
}.

Section Routes.
Context `{Api} {App : Type} `{Store App}.

Definition fetchIssue (owner repo num : string) : string + IssueInfo :=
  let url := "https://api.github.com/repos/" +:+ owner +:+ "/" +:+ repo
               +:+ "/issues/" +:+ num in
  match get_issue url with
  | inl err => inl err
  | inr (StatusCode, issue) =>
      if negb (StatusCode =? 200)
      then inl ("issue not found (status " +:+ Str.show_Z StatusCode +:+ ")")
      else
        inr (mkIssueInfo (IssueLogin issue)
               (extractOracleName (Title issue) (IssueBody issue))
               (existsb (fun l => bool_decide (l = "birth-props"))
                        (Labels issue)))
  end.

(** The [for _, c := range comments] loop. *)
Fixpoint scan_comments (comments : list CommentJSON)
         (verifyPattern expectedAuthor : string) : bool :=
  match comments with
  | [] => false
  | c :: rest =>
      if Str.EqualFold (Login c) expectedAuthor
         && Str.Contains (Body c) verifyPattern
      then true
      else scan_comments rest verifyPattern expectedAuthor
  end.

Definition checkCommentsForCode (owner repo issueNum code expectedAuthor : string)
  : string + bool :=
  let url := "https://api.github.com/repos/" +:+ owner +:+ "/" +:+ repo
               +:+ "/issues/" +:+ issueNum +:+ "/comments" in
  match get_comments url with
  | inl err => inl err
  | inr comments =>
      let verifyPattern := "verify:" +:+ code in
      inr (scan_comments comments verifyPattern expectedAuthor)
  end.

Definition findOrCreateOracleByGitHub (app : App)
           (username repo oracleName : string)
  : string + (OracleRecord * bool * App) :=
  match FindRecordsByGithubUsername app username with
  | r :: _ =>
      let r := mkOracleRecord (Id r) (name r) (email r) (github_username r)
                              repo true (karma r) in
      match Save app r with
      | inr (r', app') => inr (r', false, app')
      | inl _ => inr (r, false, app)
      end
  | [] =>
      let name := if bool_decide (oracleName = EmptyString)
                  then username else oracleName in
      let oracle := mkOracleRecord EmptyString name
                      (username +:+ "@github.oracle") username repo true 0 in
      match Save app oracle with
      | inl err => inl err
      | inr (oracle', app') => inr (oracle', true, app')
      end
  end.

(** *** [POST /api/auth/github/verify] *)

Record VerifyBody := mkVerifyBody {
  IssueURL : string;
  VCode : string
}.

Inductive Reply :=
| BadRequest (message : string)
| Started (code message issueUrl oracleName expiresIn : string)
| Rejected (error : string) (hint : option string)
| Accepted (token : string) (created : bool) (record : OracleRecord).

Record State := mkState {
  verificationCodes : Codes;
  app : App
}.

(** *** [POST /api/auth/github/start]

    [body] is [None] when [e.BindBody] fails; [now] is [time.Now()] and
    [code] the value of [generateCode()], four random bytes in
    hexadecimal. *)
Definition start_route (now : Z) (code : string) (body : option string)
           (st : State) : Reply * State :=
  match body with
  | None => (BadRequest "Invalid request", st)
  | Some issueUrl =>
      match parseIssueURL issueUrl with
      | inl err => (BadRequest err, st)
      | inr (owner, repo, issueNum) =>
          if negb (bool_decide (issueNum = "1"))
          then (BadRequest "Must be Issue #1 (birth issue)", st)
          else
            match fetchIssue owner repo issueNum with
            | inl err => (BadRequest ("Issue not found: " +:+ err), st)
            | inr issue =>
                if negb (HasBirthPropsLabel issue)
                then (BadRequest "Issue #1 must have 'birth-props' label", st)
                else
                  (Started code
                     ("Post this comment on your issue:" +:+ Siwer.nl +:+ Siwer.nl
                        +:+ "verify:" +:+ code)
                     issueUrl (OracleName issue) "10 minutes",
                   mkState
                     (storeVerificationCode now (owner +:+ "/" +:+ repo) code
                        (verificationCodes st))
                     (app st))
            end
      end
  end.

Definition is_started (r : Reply) : bool :=
  match r with
  | Started _ _ _ _ _ => true
  | _ => false
  end.

Definition is_accepted (r : Reply) : bool :=
  match r with
  | Accepted _ _ _ => true
  | _ => false
  end.

(** [body] is [None] when [e.BindBody] fails; [now] is [time.Now()]. *)
Definition verify_route (now : Z) (body : option VerifyBody) (st : State)
  : Reply * State :=
  match body with
  | None => (BadRequest "Invalid request", st)
  | Some body =>
      match parseIssueURL (IssueURL body) with
      | inl err => (BadRequest err, st)
      | inr (owner, repo, issueNum) =>
          let repoKey := owner +:+ "/" +:+ repo in
          let '(ok, codes) :=
            verifyStoredCode now repoKey (VCode body) (verificationCodes st) in
          let st := mkState codes (app st) in
          if negb ok
          then (Rejected "Invalid or expired code. Start again." None, st)
          else
            match fetchIssue owner repo issueNum with
            | inl _ => (BadRequest "Failed to fetch issue", st)
            | inr issue =>
                match checkCommentsForCode owner repo issueNum (VCode body)
                                           (Author issue) with
                | inl err =>
                    (Rejected ("Failed to check comments: " +:+ err) None, st)
                | inr false =>
                    (Rejected
                       ("Comment with 'verify:" +:+ VCode body
                          +:+ "' not found from @" +:+ Author issue)
                       (Some ("Post a comment on your issue with: verify:"
                                +:+ VCode body)),
                     st)
                | inr true =>
                    match findOrCreateOracleByGitHub (app st) (Author issue)
                            repoKey (OracleName issue) with
                    | inl _ => (BadRequest "Failed to create oracle", st)
                    | inr (oracle, created, app') =>
                        let st := mkState codes app' in
                        match NewAuthToken oracle with
                        | inl _ => (BadRequest "Failed to generate token", st)
                        | inr token =>
                            (Accepted token created oracle,
                             mkState (clearVerificationCode repoKey codes) app')
                        end
                    end
                end
            end
      end
  end.

End Routes.

End GitHub.

(** ** The Merkle membership engine

    The sources hold no tree builder and no proof service: the explorer
    page (module [Explorer] below) draws a tree that the
    [StandardMerkleTree] package builds and a proof that the
    [/api/merkle/proof] route returns.  The builder and the proof service
    are modelled from the specification (sections 4.5 and 4.6). *)

Module Merkle.

(** Hashes are byte strings. *)
Abbreviation Hash := string.

(** Modelled from the spec: the cryptographic primitives, missing from
    the sources: [hash] over a byte string and the [domainHash] of the
    canonical tuple (an address, a string, an unsigned integer). *)
Class Hashing := {
  hash : string -> Hash;
  domainHash : string -> string -> N -> Hash
}.

(** Modelled from the spec: the MerkleLeaf of the data model, the input
    of the missing builder. *)
Record MerkleLeaf := mkLeaf {
  walletAddress : string;
  birthIssueURL : string;
  issueNumber : N
}.

(** Modelled from the spec: the output of the missing builder, the root
    (none for an empty leaf set), the layers from the leaf hashes up, and
    the map from a leaf hash to its index. *)
Record MerkleTree := mkTree {
  root : option Hash;
  layers : list (list Hash);
  leafIndex : gmap Hash nat
}.

(** Modelled from the spec: [build] orders leaves by issueNumber
    ascending (the sort of the missing builder; ties keep their input
    order). *)
Fixpoint insertLeaf (x : MerkleLeaf) (l : list MerkleLeaf) : list MerkleLeaf :=
  match l with
  | [] => [x]
  | y :: l' =>
      if (issueNumber x <=? issueNumber y)%N then x :: y :: l'
      else y :: insertLeaf x l'
  end.

(** Modelled from the spec: the ordered leaf list of the missing
    builder, an insertion sort on issueNumber. *)
Definition orderLeaves (leaves : list MerkleLeaf) : list MerkleLeaf :=
  foldr insertLeaf [] leaves.

Section Engine.
Context `{Hashing}.

(** Modelled from the spec: [leafHash(leaf) =
    domainHash(walletAddressCanonical, birthIssueURL, issueNumber)] of
    the missing builder. *)
Definition leafHash (leaf : MerkleLeaf) : Hash :=
  domainHash (Str.toLowerCase (walletAddress leaf)) (birthIssueURL leaf)
             (issueNumber leaf).

(** Modelled from the spec: the sorted concatenation inside
    [internalHash] of the missing builder. *)
Definition sortedConcat (a b : Hash) : string :=
  if String.leb a b then a +:+ b else b +:+ a.

(** Modelled from the spec: [internalHash(a, b) =
    hash(sortedConcat(a, b))] of the missing builder. *)
Definition internalHash (a b : Hash) : Hash := hash (sortedConcat a b).

(** Modelled from the spec: one step of the missing builder, from a
    layer to its parent layer; the last unpaired node of an odd layer
    is carried up unchanged. *)
Fixpoint nextLayer (layer : list Hash) : list Hash :=
  match layer with
  | a :: b :: rest => internalHash a b :: nextLayer rest
  | _ => layer
  end.

(** Modelled from the spec: the successive parent layers of the
    missing builder, from the leaf-hash layer up to the single root. *)
Equations? layersFrom (layer : list Hash) : list (list Hash)
  by wf (length layer) lt :=
  layersFrom [] := [];
  layersFrom [r] := [[r]];
  layersFrom (a :: b :: rest) :=
    (a :: b :: rest) :: layersFrom (nextLayer (a :: b :: rest)).
Proof.
  assert (Hle : forall l : list Hash, (length (nextLayer l) <= length l)%nat).
  { fix IH 1. intros [|x [|y l]]; simpl; try lia. specialize (IH l). lia. }
  simpl. specialize (Hle rest). lia.
Qed.

(** Modelled from the spec: [build(leaves) -> MerkleTree] of the
    missing builder: the root, the full set of layers and a
    leaf-to-index map. *)
Definition build (leaves : list MerkleLeaf) : MerkleTree :=
  let leafLayer := map leafHash (orderLeaves leaves) in
  let ls := layersFrom leafLayer in
  mkTree
    (match last ls with
     | Some [r] => Some r
     | _ => None
     end)
    ls
    (list_to_map (zip leafLayer (seq 0 (length leafLayer)))).

(** Modelled from the spec: the position of the sibling in a layer of
    the missing proof service, the other node of the pair. *)
Definition siblingIndex (idx : nat) : nat :=
  if Nat.even idx then S idx else pred idx.

(** Modelled from the spec: the walk of the missing
    [proveMembership], from the leaf's position to the root,
    collecting the sibling hash at each layer and skipping the layers
    where the node has no sibling. *)
Fixpoint provePath (layers : list (list Hash)) (idx : nat) : list Hash :=
  match layers with
  | [] => []
  | layer :: upper =>
      match layer !! siblingIndex idx with
      | Some sibling => sibling :: provePath upper (idx / 2)
      | None => provePath upper (idx / 2)
      end
  end.

(** Modelled from the spec: [proveMembership(leafIndex) ->
    orderedSiblingHashes] of the missing proof service. *)
Definition proveMembership (tree : MerkleTree) (leafIndex : nat) : list Hash :=
  provePath (layers tree) leafIndex.

(** Modelled from the spec: [verifyMembership(leaf, proof, root) ->
    bool] of the missing proof service: fold the proof through
    [internalHash] from [leafHash(leaf)] and compare with [root]. *)
Definition verifyMembership (leaf : MerkleLeaf) (proof : list Hash)
           (root : Hash) : bool :=
  bool_decide (fold_left internalHash proof (leafHash leaf) = root).

End Engine.

End Merkle.

(** ** The Merkle explorer page ([src/pages], the [MerkleExplorer] part)

    The page rebuilds the tree with the [StandardMerkleTree] class of the
    [@openzeppelin/merkle-tree] package and lays out its flat node array;
    the package is an interface here. *)

Module Explorer.

Record LeafData := mkLeafData {
  bot_wallet : string;
  birth_issue : string;
  issue_number : Z;
  oracle_name : string
}.

(** An entry of [dump.values]: the tuple and the position of its leaf in
    the flat array. *)
Record DumpValue := mkDumpValue {
  value : string * string * Z;
  treeIndex : nat
}.

Record Dump := mkDump {
  tree : list string;
  values : list DumpValue
}.

(** [StandardMerkleTree.of(tuples, ['address', 'string', 'uint256']).dump()]. *)
Class StandardMerkleTree := {
  of_dump : list (string * string * Z) -> Dump
}.

Record TreeResult := mkTreeResult {
  layers : list (list string);
  leafNames : gmap string string;
  leafIndexMap : gmap string nat;
  flatTree : list string;
  valueMap : list nat
}.

Inductive Role := leaf | sibling | computed | root.

Record ProofPathNode := mkNode {
  layer : nat;
  position : nat;
  role : Role;
  step : nat
}.

Definition emptyTree : TreeResult := mkTreeResult [] ∅ ∅ [] [].

(** [Array.prototype.findIndex]: [None] is the answer -1. *)
Fixpoint findIndex {A : Type} (p : A -> bool) (l : list A) : option nat :=
  match l with
  | [] => None
  | x :: l' => if p x then Some 0%nat else S <$> findIndex p l'
  end.

(** The body of [for (const v of dump.values)]: the names and indices
    recorded so far, and those after the entry [v]. *)
Definition record_leaf (leaves : list LeafData) (dumpTree : list string)
           (acc : gmap string string * gmap string nat) (v : DumpValue)
  : gmap string string * gmap string nat :=
  let hash := dumpTree !! treeIndex v in
  let leafIdx :=
    findIndex
      (fun l => bool_decide (Str.toLowerCase (bot_wallet l)
                             = Str.toLowerCase (fst (fst (value v))))
                && bool_decide (issue_number l = snd (value v)))
      leaves in
  match Str.truthy hash, leafIdx with
  | Some hash, Some leafIdx =>
      match leaves !! leafIdx with
      | Some l =>
          let name :=
            match Str.truthy (Some (oracle_name l)) with
            | Some n => n
            | None => "#" +:+ Str.show_Z (issue_number l)
            end in
          (<[ hash := name ]> (fst acc), <[ hash := leafIdx ]> (snd acc))
      | None => acc
      end
  | _, _ => acc
  end.

(** The [while (remaining > 0)] loop that computes the layer widths 1, 2,
    4, ... until the flat array is used up; [fuel] bounds the number of
    iterations, and [remaining] itself is enough. *)
Fixpoint widths_loop (fuel remaining w : nat) : list nat :=
  match fuel with
  | O => []
  | S fuel' =>
      if (0 <? remaining)%nat then
        let layerSize := Nat.min w remaining in
        layerSize :: widths_loop fuel' (remaining - layerSize) (w * 2)
      else []
  end.

(** The [for (const size of widths)] loop: [treeValues.slice(idx, idx +
    size)] for each width. *)
Fixpoint slice_layers (treeValues : list string) (idx : nat) (widths : list nat)
  : list (list string) :=
  match widths with
  | [] => []
  | size :: widths' =>
      take size (drop idx treeValues) :: slice_layers treeValues (idx + size) widths'
  end.

Section Page.
Context `{StandardMerkleTree}.

Definition computeTreeLayers (leaves : list LeafData) : TreeResult :=
  match leaves with
  | [] => emptyTree
  | _ =>
      let tuples :=
        map (fun l => (Str.toLowerCase (bot_wallet l), birth_issue l, issue_number l))
            leaves in
      let dump := of_dump tuples in
      let '(leafNames, leafIndexMap) :=
        foldl (record_leaf leaves (tree dump)) (∅, ∅) (values dump) in
      let treeValues := tree dump in
      let widths := widths_loop (length treeValues) (length treeValues) 1 in
      mkTreeResult (slice_layers treeValues 0 widths) leafNames leafIndexMap
                   treeValues (map treeIndex (values dump))
  end.

End Page.

(** The lookup from a flat index to its layer and position: the two
    nested [for] loops over [treeLayers], with the running [offset]. *)
Fixpoint index_layers (treeLayers : list (list string)) (layer offset : nat)
         (indexToLayerPos : gmap nat (nat * nat)) : gmap nat (nat * nat) :=
  match treeLayers with
  | [] => indexToLayerPos
  | l :: rest =>
      index_layers rest (S layer) (offset + length l)
        (foldl (fun m pos => <[ (offset + pos)%nat := (layer, pos) ]> m)
               indexToLayerPos (seq 0 (length l)))
  end.

(** "Find sibling (odd index = left child, even = right child)": the
    node pushed for the sibling of [current], if any, and the next step
    number. *)
Definition sibling_node (flatLen : nat) (indexToLayerPos : gmap nat (nat * nat))
           (current step : nat) : list ProofPathNode * nat :=
  let isLeftChild := (current mod 2 =? 1)%nat in
  let siblingIndex := if isLeftChild then (current + 1)%nat else (current - 1)%nat in
  if (0 <? siblingIndex)%nat && (siblingIndex <? flatLen)%nat then
    match indexToLayerPos !! siblingIndex with
    | Some sibPos => ([mkNode (fst sibPos) (snd sibPos) sibling step], S step)
    | None => ([], step)
    end
  else ([], step).

(** "Move to parent": the node pushed for the parent of [current], if
    any, and the next step number. *)
Definition parent_node (indexToLayerPos : gmap nat (nat * nat))
           (current step : nat) : list ProofPathNode * nat :=
  let parentIndex := ((current - 1) / 2)%nat in
  match indexToLayerPos !! parentIndex with
  | Some parentPos =>
      let isRoot := (parentIndex =? 0)%nat in
      ([mkNode (fst parentPos) (snd parentPos) (if isRoot then root else computed)
               step], S step)
  | None => ([], step)
  end.

(** The [while (current > 0)] loop: the nodes it appends to [path]. *)
Equations? climb (flatLen : nat) (indexToLayerPos : gmap nat (nat * nat))
          (current step : nat) : list ProofPathNode by wf current lt :=
  climb flatLen indexToLayerPos 0 step := [];
  climb flatLen indexToLayerPos (S c) step :=
    fst (sibling_node flatLen indexToLayerPos (S c) step)
    ++ fst (parent_node indexToLayerPos (S c)
              (snd (sibling_node flatLen indexToLayerPos (S c) step)))
    ++ climb flatLen indexToLayerPos ((S c - 1) / 2)
         (snd (parent_node indexToLayerPos (S c)
                 (snd (sibling_node flatLen indexToLayerPos (S c) step)))).
Proof.
  change ((c - 0) / 2 < S c)%nat.
  apply Nat.Div0.div_lt_upper_bound. lia.
Qed.

Definition computeProofPath (flatTree : list string) (valueMap : list nat)
           (leafIndex : nat) (treeLayers : list (list string))
  : list ProofPathNode :=
  if (length valueMap <=? leafIndex)%nat || (length treeLayers =? 0)%nat then []
  else
    match valueMap !! leafIndex with
    | None => []
    | Some treeIndex =>
        let indexToLayerPos := index_layers treeLayers 0 0 ∅ in
        if (treeIndex =? 0)%nat then [mkNode 0 0 root 0]
        else
          match indexToLayerPos !! treeIndex with
          | None => []
          | Some leafPos =>
              mkNode (fst leafPos) (snd leafPos) leaf 0
              :: climb (length flatTree) indexToLayerPos treeIndex 1
          end
    end.

(** The hash the page draws at a node, [treeLayers[layer][position]], and
    the hashes at the sibling nodes of a path, in path order. *)
Definition nodeHash (treeLayers : list (list string)) (n : ProofPathNode)
  : option string :=
  treeLayers !! layer n ≫= (fun l => l !! position n).

Definition siblingHashes (treeLayers : list (list string))
           (path : list ProofPathNode) : list string :=
  omap (fun n => match role n with
                 | sibling => nodeHash treeLayers n
                 | _ => None
                 end) path.

(** A flat array as the package keeps it: an odd number of nodes, each
    node with two children being the hash of the sorted pair. *)
Definition well_formed `{Merkle.Hashing} (flatTree : list string) : Prop :=
  Nat.odd (length flatTree) = true
  /\ forall i a b,
      flatTree !! (2 * i + 1)%nat = Some a ->
      flatTree !! (2 * i + 2)%nat = Some b ->
      flatTree !! i = Some (Merkle.internalHash a b).

(** The invariant of the package's flat array for any pair hash
    [combine]: an odd number of nodes, each node with two children being
    [combine] of them. *)
Definition hashed_pairs (combine : string -> string -> string)
           (flatTree : list string) : Prop :=
  Nat.odd (length flatTree) = true
  /\ forall i a b,
      flatTree !! (2 * i + 1)%nat = Some a ->
      flatTree !! (2 * i + 2)%nat = Some b ->
      flatTree !! i = Some (combine a b).

(** [shortHash]: hashes of twelve characters or more are cut to their
    first six and last four characters. *)
Definition shortHash (hash : string) : string :=
  if (String.length hash <? 12)%nat then hash
  else String.substring 0 6 hash +:+ "..."
         +:+ String.substring (String.length hash - 4) 4 hash.

(** The [switch (node.role)] of [getStepDescription]. *)
Definition describe (r : Role) : string :=
  match r with
  | leaf => "Hashing the selected oracle's leaf data"
  | sibling => "Sibling hash provided by the proof"
  | computed => "Combining the pair below into a parent hash"
  | root => "Root reached — membership verified!"
  end.

Definition getStepDescription (proofPath : list ProofPathNode) (step_ : nat)
  : string :=
  match List.find (fun n => (step n =? step_)%nat) proofPath with
  | None => EmptyString
  | Some node => describe (role node)
  end.

End Explorer.

(** ** In-memory stand-ins for the external services

    Small executable instances of the service interfaces, used to run the
    handlers on concrete requests. *)

Module Fixtures.

(** A verifier that accepts one fixed signature and fails to recover a
    signer from the bare prefix. *)
Definition viem : Siwer.Viem := {|
  Siwer.verifyMessage address message signature :=
    if bool_decide (signature = "0x") then inl "invalid signature length"
    else inr (bool_decide (signature = "0xsigned"))
|}.

(** A PocketBase collection kept as a list of records with their
    passwords. *)
Definition pocketbase : Siwer.PocketBase (list (Siwer.Oracle * string)) := {|
  Siwer.getFirstListItem db filter_ :=
    fst <$> List.find
      (fun r => bool_decide
         (filter_ = "wallet_address = " +:+ String Siwer.dquote
                      (Siwer.wallet_address (fst r))
                      +:+ String Siwer.dquote EmptyString))
      db;
  Siwer.create db p :=
    if bool_decide (Siwer.c_password p = Siwer.c_passwordConfirm p) then
      let o := Siwer.mkOracle ("rec" +:+ Str.show_Z (Z.of_nat (length db)))
                 (Siwer.c_name p) (Siwer.c_wallet_address p)
                 (Siwer.c_approved p) (Siwer.c_karma p) in
      inr (o, db ++ [(o, Siwer.c_password p)])
    else inl "passwords differ";
  Siwer.authWithPassword db identity password :=
    match List.find
            (fun r => bool_decide (Siwer.wallet_address (fst r) = identity)
                      && bool_decide (snd r = password)) db with
    | Some r => inr ("token-" +:+ Siwer.id (fst r))
    | None => inl "Failed to authenticate."
    end;
  Siwer.update db id password passwordConfirm :=
    inr (map (fun r => if bool_decide (Siwer.id (fst r) = id)
                       then (fst r, password) else r) db)
|}.

Definition address0 : string := "0x52908400098527886E0F7030069857D2E4169EE7".
Definition uuid0 : string := "3b241101-e2bb-4255-8caf-4136c566a962".
Definition now0 : Z := 1770000000000.

(** The store after [POST /nonce] for [address0] on an empty namespace. *)
Definition issued : Siwer.KV :=
  snd (Siwer.nonce_handler now0 uuid0 (Some address0) ∅).

Definition world0 : @Siwer.World (list (Siwer.Oracle * string)) :=
  Siwer.mkWorld issued [].

Definition request0 : Siwer.VerifyRequest :=
  Siwer.mkVerifyRequest (Some address0) (Some "0xsigned") None.

(** The [settings] collection as the migration seeds it. *)
Definition seeded : Settings.App :=
  {[ "allow_agent_registration" :=
       Settings.mkSetting EmptyString false
         "Allow Oracle agents to self-register with their own wallet and birth issue";
     "whitelisted_repos" :=
       Settings.mkSetting "Soul-Brews-Studio/*" true
         "Comma-separated list of repo patterns allowed for agent registration (e.g., 'owner/repo' or 'org/*')" ]}.

(** The GitHub API of one repository: issue 1 of [alice/oracle], opened
    by [Alice], with two comments that quote the same code. *)
Definition github : GitHub.Api := {|
  GitHub.get_issue url :=
    if bool_decide (url = "https://api.github.com/repos/alice/oracle/issues/1")
    then inr (200, GitHub.mkIssueJSON "Birth of Iris Oracle" "Name: Iris" "Alice"
                     ["birth-props"])
    else inr (404, GitHub.mkIssueJSON EmptyString EmptyString EmptyString []);
  GitHub.get_comments url :=
    if bool_decide
         (url = "https://api.github.com/repos/alice/oracle/issues/1/comments")
    then inr [GitHub.mkCommentJSON "verify:deadbeef" "mallory";
              GitHub.mkCommentJSON "here it is: verify:deadbeef, thanks" "alice"]
    else inr [];
  GitHub.extractOracleName title body := "Iris"
|}.

(** The same repository when only another account has posted the code. *)
Definition github_other : GitHub.Api := {|
  GitHub.get_issue := @GitHub.get_issue github;
  GitHub.get_comments url :=
    if bool_decide
         (url = "https://api.github.com/repos/alice/oracle/issues/1/comments")
    then inr [GitHub.mkCommentJSON "verify:deadbeef" "mallory"]
    else inr [];
  GitHub.extractOracleName := @GitHub.extractOracleName github
|}.

(** The [oracles] collection kept as a list. *)
Definition store : GitHub.Store (list GitHub.OracleRecord) := {|
  GitHub.FindRecordsByGithubUsername app u :=
    take 1 (List.filter (fun r => bool_decide (GitHub.github_username r = u)) app);
  GitHub.Save app r :=
    if bool_decide (GitHub.Id r = EmptyString) then
      let r' := GitHub.mkOracleRecord
                  ("rec" +:+ Str.show_Z (Z.of_nat (length app)))
                  (GitHub.name r) (GitHub.email r) (GitHub.github_username r)
                  (GitHub.github_repo r) (GitHub.approved r) (GitHub.karma r) in
      inr (r', app ++ [r'])
    else
      inr (r, map (fun x => if bool_decide (GitHub.Id x = GitHub.Id r)
                            then r else x) app);
  GitHub.NewAuthToken r := inr ("token-" +:+ GitHub.Id r)
|}.

(** A toy hash that keeps its input readable. *)
Definition hashing : Merkle.Hashing := {|
  Merkle.hash s := "H(" +:+ s +:+ ")";
  Merkle.domainHash address url n :=
    "L(" +:+ address +:+ "," +:+ url +:+ "," +:+ Str.show_Z (Z.of_N n) +:+ ")"
|}.

(** A stand-in for the package on three leaves, in its flat layout: the
    root, its two children, and the two children of the first of them. *)
Definition package : Explorer.StandardMerkleTree := {|
  Explorer.of_dump tuples :=
    let h := fun t : string * string * Z =>
               @Merkle.domainHash hashing (fst (fst t)) (snd (fst t))
                                  (Z.to_N (snd t)) in
    match tuples with
    | [a; b; c] =>
        let n1 := @Merkle.internalHash hashing (h b) (h a) in
        Explorer.mkDump
          [@Merkle.internalHash hashing n1 (h c); n1; h c; h b; h a]
          [Explorer.mkDumpValue a 4; Explorer.mkDumpValue b 3;
           Explorer.mkDumpValue c 2]
    | _ => Explorer.mkDump [] []
    end
|}.

Definition page_leaves : list Explorer.LeafData :=
  [Explorer.mkLeafData "0xAA" "https://github.com/o/a/issues/1" 10 "Ada";
   Explorer.mkLeafData "0xBB" "https://github.com/o/b/issues/1" 20 EmptyString;
   Explorer.mkLeafData "0xCC" "https://github.com/o/c/issues/1" 30 "Cy"].

Definition leaves0 : list Merkle.MerkleLeaf :=
  [Merkle.mkLeaf "0xCC" "https://github.com/o/c/issues/1" 30;
   Merkle.mkLeaf "0xAA" "https://github.com/o/a/issues/1" 10;
   Merkle.mkLeaf "0xBB" "https://github.com/o/b/issues/1" 20].

(** The repository with a second issue, opened by [mallory], who is the
    only one to have posted the code, on that second issue. *)
Definition github_second_issue : GitHub.Api := {|
  GitHub.get_issue url :=
    if bool_decide (url = "https://api.github.com/repos/alice/oracle/issues/1")
    then inr (200, GitHub.mkIssueJSON "Birth of Iris Oracle" "Name: Iris" "Alice"
                     ["birth-props"])
    else if bool_decide
              (url = "https://api.github.com/repos/alice/oracle/issues/2")
    then inr (200, GitHub.mkIssueJSON "A question" "Name: Mallory" "mallory" [])
    else inr (404, GitHub.mkIssueJSON EmptyString EmptyString EmptyString []);
  GitHub.get_comments url :=
    if bool_decide
         (url = "https://api.github.com/repos/alice/oracle/issues/2/comments")
    then inr [GitHub.mkCommentJSON "verify:deadbeef" "mallory"]
    else inr [];
  GitHub.extractOracleName title body :=
    if bool_decide (body = "Name: Iris") then "Iris" else "Mallory"
|}.

(** The state after [start] on the birth issue of [alice/oracle]. *)
Definition pending : @GitHub.State (list GitHub.OracleRecord) :=
  snd (@GitHub.start_route github _ now0 "deadbeef"
         (Some "https://github.com/alice/oracle/issues/1")
         (GitHub.mkState ∅ [])).

Definition verify_body : GitHub.VerifyBody :=
  GitHub.mkVerifyBody "https://github.com/alice/oracle/issues/1" "deadbeef".

(** A PocketBase collection that also answers the filter on [name], with
    a superuser who may set the wallet of a record. *)
Definition pocketbase_named : Siwer.PocketBase (list (Siwer.Oracle * string)) := {|
  Siwer.getFirstListItem db filter_ :=
    fst <$> List.find
      (fun r => bool_decide
         (filter_ = "wallet_address = " +:+ String Siwer.dquote
                      (Siwer.wallet_address (fst r))
                      +:+ String Siwer.dquote EmptyString)
         || bool_decide
              (filter_ = "name = " +:+ String Siwer.dquote (Siwer.name (fst r))
                           +:+ String Siwer.dquote EmptyString))
      db;
  Siwer.create := @Siwer.create _ pocketbase;
  Siwer.authWithPassword := @Siwer.authWithPassword _ pocketbase;
  Siwer.update := @Siwer.update _ pocketbase
|}.

Definition pocketbase_admin : Siwer.PocketBaseAdmin (list (Siwer.Oracle * string)) := {|
  Siwer.superusersAuthWithPassword db email password :=
    if bool_decide (email = "admin@oracle.net") && bool_decide (password = "secret")
    then inr "token-superuser" else inl "Failed to authenticate.";
  Siwer.updateWallet db id wallet password passwordConfirm :=
    if bool_decide (password = passwordConfirm) then
      inr (map (fun r => if bool_decide (Siwer.id (fst r) = id)
                         then (Siwer.mkOracle (Siwer.id (fst r)) (Siwer.name (fst r))
                                 wallet (Siwer.approved (fst r))
                                 (Siwer.karma (fst r)),
                               password)
                         else r) db)
    else inl "passwords differ"
|}.

Definition env0 : Siwer.Env := Siwer.mkEnv "admin@oracle.net" "secret".

(** One record without a wallet, one bound to another wallet, and a
    pending challenge for [address0]. *)
Definition world_named : @Siwer.World (list (Siwer.Oracle * string)) :=
  Siwer.mkWorld issued
    [(Siwer.mkOracle "rec0" "Iris" EmptyString true 0, "pw0");
     (Siwer.mkOracle "rec1" "Nova" "0x00000000000000000000000000000000000000aa"
        true 0,
      "0x00000000000000000000000000000000000000aa")].

Definition link_request (oracleName : string) : Siwer.LinkRequest :=
  Siwer.mkLinkRequest (Some address0) (Some "0xsigned") (Some oracleName).

End Fixtures.

(* ===================================================================== *)
(** * Part II: properties *)
(* ===================================================================== *)

(** ** Byte strings *)

Local Arguments String.append !_ _ / : simpl nomatch.

Section StringFacts.

Lemma length_append (a b : string) :
  String.length (a +:+ b) = (String.length a + String.length b)%nat.
Proof. induction a as [|c a IH]; simpl; [reflexivity | now rewrite IH]. Qed.

Lemma append_assoc (a b c : string) : (a +:+ b) +:+ c = a +:+ (b +:+ c).
Proof. induction a as [|x a IH]; simpl; [reflexivity | now rewrite IH]. Qed.

Lemma append_nil_r (a : string) : a +:+ EmptyString = a.
Proof. induction a as [|x a IH]; simpl; [reflexivity | now rewrite IH]. Qed.

Lemma substring_append (p rest : string) :
  String.substring 0 (String.length p) (p +:+ rest) = p.
Proof.
  induction p as [|c p IH]; simpl.
  - now destruct rest.
  - now rewrite IH.
Qed.

Lemma substring_is_prefix (p s : string) :
  (String.length p <= String.length s)%nat ->
  String.substring 0 (String.length p) s = p ->
  exists rest, s = p +:+ rest.
Proof.
  revert s. induction p as [|c p IH]; intros s Hlen Hsub.
  - now exists s.
  - destruct s as [|d s]; simpl in *; [lia |].
    injection Hsub as -> Hsub.
    destruct (IH s) as [rest ->]; [lia | exact Hsub |].
    now exists rest.
Qed.

Lemma get_append_last (p : string) (c : ascii) :
  String.get (String.length p) (p +:+ String c EmptyString) = Some c.
Proof. induction p as [|x p IH]; simpl; [reflexivity | exact IH]. Qed.

Lemma HasPrefix_append (p rest : string) : Str.HasPrefix (p +:+ rest) p = true.
Proof.
  induction p as [|c p IH]; simpl; [reflexivity |].
  now rewrite Ascii.eqb_refl.
Qed.

Lemma HasPrefix_split (s p : string) :
  Str.HasPrefix s p = true -> exists rest, s = p +:+ rest.
Proof.
  revert s. induction p as [|c p IH]; intros s Hp.
  - now exists s.
  - destruct s as [|d s]; simpl in Hp; [discriminate |].
    apply andb_prop in Hp as [Hc Hp]. apply Ascii.eqb_eq in Hc as ->.
    destruct (IH _ Hp) as [rest ->]. now exists rest.
Qed.

Lemma Contains_HasPrefix (s p : string) :
  Str.HasPrefix s p = true -> Str.Contains s p = true.
Proof. intros Hp. destruct s; simpl; now rewrite Hp. Qed.

Lemma Contains_append (pre sub post : string) :
  Str.Contains (pre +:+ sub +:+ post) sub = true.
Proof.
  induction pre as [|c pre IH]; simpl.
  - apply Contains_HasPrefix, HasPrefix_append.
  - rewrite IH. apply orb_true_r.
Qed.

Lemma Contains_split (s sub : string) :
  Str.Contains s sub = true -> exists pre post, s = pre +:+ sub +:+ post.
Proof.
  induction s as [|c s IH]; simpl; intros Hc.
  - rewrite orb_false_r in Hc. destruct sub; [| discriminate].
    now exists EmptyString, EmptyString.
  - apply orb_prop in Hc as [Hp | Hc].
    + destruct (HasPrefix_split _ _ Hp) as [rest Hrest].
      exists EmptyString, rest. exact Hrest.
    + destruct (IH Hc) as (pre & post & ->).
      now exists (String c pre), post.
Qed.

Lemma Contains_intro (s sub pre post : string) :
  s = pre +:+ sub +:+ post -> Str.Contains s sub = true.
Proof. intros ->. apply Contains_append. Qed.

(** A text that contains [a +:+ b] contains [b]. *)
Lemma Contains_suffix (s a b : string) :
  Str.Contains s (a +:+ b) = true -> Str.Contains s b = true.
Proof.
  intros Hc. destruct (Contains_split _ _ Hc) as (pre & post & ->).
  rewrite (append_assoc a b post), <- (append_assoc pre a (b +:+ post)).
  apply Contains_append.
Qed.


End StringFacts.

(** ** The allow-list matcher *)

Section Matcher.
Import Settings.

Lemma slice_0_of_nat (s : string) (n : nat) :
  (n <= String.length s)%nat ->
  Str.slice s 0 (Z.of_nat n) = Some (String.substring 0 n s).
Proof.
  intros Hn. unfold Str.slice, Str.len.
  assert (E : (0 <=? 0) && (0 <=? Z.of_nat n)
              && (Z.of_nat n <=? Z.of_nat (String.length s)) = true).
  { repeat (apply andb_true_intro; split); apply Z.leb_le; lia. }
  rewrite E, Z.sub_0_r, Nat2Z.id. reflexivity.
Qed.

Lemma slice_prefix_iff (repo prefix : string) :
  (Str.len prefix <=? Str.len repo)
  && bool_decide (Str.slice repo 0 (Str.len prefix) = Some prefix) = true
  <-> exists rest, repo = prefix +:+ rest.
Proof.
  split.
  - intros Hm. apply andb_prop in Hm as [Hle Hs].
    apply Z.leb_le in Hle. apply bool_decide_eq_true_1 in Hs.
    unfold Str.len in Hle, Hs.
    rewrite slice_0_of_nat in Hs by lia.
    injection Hs as Hs. apply substring_is_prefix; [lia | exact Hs].
  - intros [rest ->]. apply andb_true_intro. split.
    + apply Z.leb_le. unfold Str.len. rewrite length_append. lia.
    + apply bool_decide_eq_true_2. unfold Str.len at 1.
      rewrite slice_0_of_nat by (rewrite length_append; lia).
      now rewrite substring_append.
Qed.

Lemma last_byte_append (p : string) (c : ascii) :
  last_byte (p +:+ String c EmptyString) = Some c.
Proof.
  unfold last_byte, Str.at_, Str.len. rewrite length_append. simpl.
  assert (E : (0 <=? Z.of_nat (String.length p + 1) - 1)
              && (Z.of_nat (String.length p + 1) - 1
                    <? Z.of_nat (String.length p + 1)) = true).
  { apply andb_true_intro; split; [apply Z.leb_le | apply Z.ltb_lt]; lia. }
  rewrite E.
  replace (Z.to_nat (Z.of_nat (String.length p + 1) - 1))
    with (String.length p) by lia.
  apply get_append_last.
Qed.

Lemma slice_init (p : string) (c : ascii) :
  Str.slice (p +:+ String c EmptyString) 0
            (Str.len (p +:+ String c EmptyString) - 1) = Some p.
Proof.
  unfold Str.len. rewrite length_append. simpl.
  replace (Z.of_nat (String.length p + 1) - 1)
    with (Z.of_nat (String.length p)) by lia.
  rewrite slice_0_of_nat by (rewrite length_append; lia).
  now rewrite substring_append.
Qed.

(** A pattern that ends in a star matches the repos that start with the
    text before the star. *)
Lemma matchPattern_wildcard (repo prefix : string) :
  matchPattern repo (prefix +:+ "*") = true <-> exists rest, repo = prefix +:+ rest.
Proof.
  unfold matchPattern.
  rewrite last_byte_append, slice_init.
  replace (0 <? Str.len (prefix +:+ "*")) with true
    by (symmetry; apply Z.ltb_lt; unfold Str.len; rewrite length_append; simpl; lia).
  rewrite bool_decide_eq_true_2 by reflexivity. simpl.
  apply slice_prefix_iff.
Qed.

(** A pattern that does not end in a star matches itself only. *)
Lemma matchPattern_exact (repo pattern : string) :
  last_byte pattern <> Some "*"%char ->
  (matchPattern repo pattern = true <-> repo = pattern).
Proof.
  intros Hlast. unfold matchPattern.
  rewrite (bool_decide_eq_false_2 _ Hlast), andb_false_r.
  apply bool_decide_eq_true.
Qed.

Lemma matchesAnyPattern_spec (repo : string) (patterns : list string) :
  matchesAnyPattern repo patterns = true
  <-> exists pattern, In pattern patterns /\ matchPattern repo pattern = true.
Proof.
  induction patterns as [|p ps IH]; simpl.
  - split; [discriminate | now intros (? & [] & _)].
  - destruct (matchPattern repo p) eqn:E.
    + split; [| reflexivity]. intros _. exists p. auto.
    + rewrite IH. split.
      * intros (q & Hin & Hq). exists q. auto.
      * intros (q & [<- | Hin] & Hq); [congruence |]. exists q. auto.
Qed.

(** C7: the wildcard pattern [org/*] matches exactly the repos that
    start with [org/], so it matches [org/repo-a] and [org/repo-b] and
    not [other/repo-a]; the exact pattern [org/repo-a] matches the
    identical string and no other, alone or in a pattern list. *)
Theorem allow_list_patterns :
  (forall repo, matchPattern repo "org/*" = true
                <-> exists rest, repo = "org/" +:+ rest)
  /\ matchPattern "org/repo-a" "org/*" = true
  /\ matchPattern "org/repo-b" "org/*" = true
  /\ matchPattern "other/repo-a" "org/*" = false
  /\ (forall repo, matchPattern repo "org/repo-a" = true <-> repo = "org/repo-a")
  /\ (forall repo, matchesAnyPattern repo ["org/*"] = true
                   <-> exists rest, repo = "org/" +:+ rest)
  /\ (forall repo, matchesAnyPattern repo ["org/repo-a"] = true
                   <-> repo = "org/repo-a").
Proof.
  assert (Hw : forall repo, matchPattern repo "org/*" = true
                            <-> exists rest, repo = "org/" +:+ rest)
    by (intros repo; apply (matchPattern_wildcard repo "org/")).
  assert (He : forall repo, matchPattern repo "org/repo-a" = true
                            <-> repo = "org/repo-a")
    by (intros repo; apply matchPattern_exact; vm_compute; discriminate).
  repeat split; try reflexivity; try apply Hw; try apply He.
  - simpl. destruct (matchPattern repo "org/*") eqn:E; [| discriminate].
    intros _. now apply Hw.
  - intros Hr. simpl. apply Hw in Hr. now rewrite Hr.
  - simpl. destruct (matchPattern repo "org/repo-a") eqn:E; [| discriminate].
    intros _. now apply He.
  - intros ->. reflexivity.
Qed.

End Matcher.

(** ** The primitives at work *)

Example split_on_commas : Settings.split "a, b ,c" "," = Some ["a"; " b "; "c"].
Proof. reflexivity. Qed.

Example splitAndTrim_drops_blanks :
  Settings.splitAndTrim " org/* , ,org/repo-a" = Some ["org/*"; "org/repo-a"].
Proof. reflexivity. Qed.

Example seeded_allow_list :
  Settings.IsRepoWhitelisted Fixtures.seeded "Soul-Brews-Studio/oracle-v2" = true.
Proof. reflexivity. Qed.

Example toISOString_epoch : Siwer.toISOString 0 = "1970-01-01T00:00:00.000Z".
Proof. reflexivity. Qed.

Example toISOString_2023 :
  Siwer.toISOString 1700000000123 = "2023-11-14T22:13:20.123Z".
Proof. reflexivity. Qed.

Example toISOString_leap_day :
  Siwer.toISOString 1709164800000 = "2024-02-29T00:00:00.000Z".
Proof. reflexivity. Qed.

Example toISOString_before_epoch :
  Siwer.toISOString (-1) = "1969-12-31T23:59:59.999Z".
Proof. reflexivity. Qed.

Example toISOString_extended_year :
  Siwer.toISOString 253402300800000 = "+010000-01-01T00:00:00.000Z".
Proof. reflexivity. Qed.

Example parseIssueURL_birth_issue :
  GitHub.parseIssueURL "https://github.com/owner/repo/issues/1"
  = inr ("owner", "repo", "1").
Proof. reflexivity. Qed.

Example parseIssueURL_leftmost :
  GitHub.parseIssueURL "github.com/github.com/a/issues/b github.com/a/b/issues/7"
  = inr ("a", "b", "7").
Proof. reflexivity. Qed.

Example parseIssueURL_pull :
  GitHub.parseIssueURL "https://github.com/owner/repo/pull/1"
  = inl "invalid GitHub issue URL".
Proof. reflexivity. Qed.

(** ** The wallet sign-in worker *)

Section Worker.
Import Siwer.
Context `{Viem} {PB : Type} `{PocketBase PB}.

Lemma respond_status address created oracle kv (db : PB) :
  let r := respond address created oracle kv db in
  NONCES (snd r) = kv /\ (status (fst r) = 200 \/ status (fst r) = 500).
Proof.
  unfold respond. destruct (auth_token address oracle db) as [[msg | token] db'];
    simpl; auto.
Qed.

(** What a call can do: either it answers 400 and changes nothing, or the
    signature was verified against the stored challenge and the challenge
    of the address is deleted. *)
Lemma verify_handler_cases (now : Z) (req : VerifyRequest) (w : @World PB) :
  let r := verify_handler now req w in
  (status (fst r) = 400 /\ is_verified (fst r) = false /\ snd r = w)
  \/ (exists address signature d,
        Str.truthy (r_address req) = Some address
        /\ Str.truthy (r_signature req) = Some signature
        /\ kv_get now (NONCES w) (Str.toLowerCase address) = Some d
        /\ verifyMessage address (signInMessage (nonce d) (timestamp d)) signature
             = inr true
        /\ NONCES (snd r) = kv_delete (Str.toLowerCase address) (NONCES w)
        /\ (status (fst r) = 200 \/ status (fst r) = 500)).
Proof.
  unfold verify_handler.
  destruct (Str.truthy (r_address req)) as [address|]; [| left; auto].
  destruct (Str.truthy (r_signature req)) as [signature|]; [| left; auto].
  destruct (kv_get now (NONCES w) (Str.toLowerCase address)) as [d|] eqn:Hget;
    [| left; auto].
  destruct (verifyMessage address _ signature) as [msg | []] eqn:Hv;
    try (left; auto; fail).
  right. exists address, signature, d.
  repeat (split; [first [reflexivity | assumption] |]).
  destruct (getFirstListItem (pb w) _) as [oracle|].
  - apply respond_status.
  - destruct (create (pb w) _) as [msg | [oracle db']].
    + simpl. auto.
    + apply respond_status.
Qed.

Lemma kv_get_delete (now : Z) (kv : KV) (key : string) :
  kv_get now (kv_delete key kv) key = None.
Proof. unfold kv_get, kv_delete. now rewrite lookup_delete_eq. Qed.

(** C1: a successful verify call deletes the stored challenge of its
    address, so a second verify call with the same address, whatever
    signature it presents and whenever it comes, is answered with the
    nonce-not-found error and changes nothing: a nonce is consumed at
    most once. *)
Theorem nonce_consumed_once (now : Z) (req : VerifyRequest) (w : @World PB) :
  is_verified (fst (verify_handler now req w)) = true ->
  exists address,
    Str.truthy (r_address req) = Some address
    /\ is_Some (kv_get now (NONCES w) (Str.toLowerCase address))
    /\ NONCES (snd (verify_handler now req w)) !! Str.toLowerCase address = None
    /\ (forall now', verify_handler now' req (snd (verify_handler now req w))
                     = (no_nonce, snd (verify_handler now req w)))
    /\ (forall now' signature' name',
          Str.truthy signature' <> None ->
          fst (verify_handler now'
                 (mkVerifyRequest (r_address req) signature' name')
                 (snd (verify_handler now req w)))
          = no_nonce).
Proof.
  intros Hok.
  destruct (verify_handler_cases now req w)
    as [(_ & Hno & _) | (address & signature & d & Ha & Hs & Hget & _ & Hkv & _)];
    [congruence |].
  exists address. split; [exact Ha |]. split; [now exists d |].
  set (w' := snd (verify_handler now req w)) in *.
  assert (Hgone : forall now', kv_get now' (NONCES w') (Str.toLowerCase address) = None)
    by (intros now'; rewrite Hkv; apply kv_get_delete).
  split; [rewrite Hkv; apply lookup_delete_eq |]. split.
  - intros now'. unfold verify_handler. now rewrite Ha, Hs, Hgone.
  - intros now' signature' name' Hsig. unfold verify_handler. simpl.
    rewrite Ha. destruct (Str.truthy signature'); [| congruence]. now rewrite Hgone.
Qed.

(** C6: a verify call that fails for its signature (a missing field, no
    stored challenge, a signature viem cannot recover a signer from, an
    invalid signature: the 400 answers) leaves the whole state as it
    was, so the same challenge is read again by a retry until it expires;
    the challenge store changes only by deleting the challenge of an
    address whose signature over the stored nonce was verified. *)
Theorem failed_verify_keeps_nonce (now : Z) (req : VerifyRequest) (w : @World PB) :
  (status (fst (verify_handler now req w)) = 400 ->
   snd (verify_handler now req w) = w
   /\ forall now' key,
        kv_get now' (NONCES (snd (verify_handler now req w))) key
        = kv_get now' (NONCES w) key)
  /\ (Str.truthy (r_signature req) = None -> snd (verify_handler now req w) = w)
  /\ (forall address signature d,
        Str.truthy (r_address req) = Some address ->
        Str.truthy (r_signature req) = Some signature ->
        kv_get now (NONCES w) (Str.toLowerCase address) = Some d ->
        verifyMessage address (signInMessage (nonce d) (timestamp d)) signature
          <> inr true ->
        snd (verify_handler now req w) = w)
  /\ (NONCES (snd (verify_handler now req w)) <> NONCES w ->
      exists address signature d,
        Str.truthy (r_address req) = Some address
        /\ Str.truthy (r_signature req) = Some signature
        /\ kv_get now (NONCES w) (Str.toLowerCase address) = Some d
        /\ verifyMessage address (signInMessage (nonce d) (timestamp d)) signature
             = inr true
        /\ NONCES (snd (verify_handler now req w))
             = kv_delete (Str.toLowerCase address) (NONCES w)).
Proof.
  destruct (verify_handler_cases now req w)
    as [(H400 & _ & Hsame)
       | (address & signature & d & Ha & Hs & Hget & Hv & Hkv & Hst)].
  - rewrite Hsame. repeat split; try reflexivity. congruence.
  - split; [intros H400; destruct Hst; congruence |].
    split; [congruence |]. split.
    + intros address' signature' d' Ha' Hs' Hget' Hv'.
      rewrite Ha in Ha'. rewrite Hs in Hs'.
      injection Ha' as <-. injection Hs' as <-.
      rewrite Hget in Hget'. injection Hget' as <-. contradiction.
    + intros _. exists address, signature, d. auto.
Qed.

End Worker.

(** C1 on the in-memory services: the call succeeds, the replay fails. *)
Lemma nonce_consumed_once_witness :
  exists address,
    Str.truthy (Siwer.r_address Fixtures.request0) = Some address
    /\ is_Some (Siwer.kv_get (Fixtures.now0 + 5)
                  (Siwer.NONCES Fixtures.world0) (Str.toLowerCase address))
    /\ Siwer.NONCES
         (snd (@Siwer.verify_handler Fixtures.viem _ Fixtures.pocketbase
                 (Fixtures.now0 + 5) Fixtures.request0 Fixtures.world0))
         !! Str.toLowerCase address = None
    /\ (forall now',
          @Siwer.verify_handler Fixtures.viem _ Fixtures.pocketbase now'
            Fixtures.request0
            (snd (@Siwer.verify_handler Fixtures.viem _ Fixtures.pocketbase
                    (Fixtures.now0 + 5) Fixtures.request0 Fixtures.world0))
          = (Siwer.no_nonce,
             snd (@Siwer.verify_handler Fixtures.viem _ Fixtures.pocketbase
                    (Fixtures.now0 + 5) Fixtures.request0 Fixtures.world0)))
    /\ (forall now' signature' name',
          Str.truthy signature' <> None ->
          fst (@Siwer.verify_handler Fixtures.viem _ Fixtures.pocketbase now'
                 (Siwer.mkVerifyRequest (Siwer.r_address Fixtures.request0)
                    signature' name')
                 (snd (@Siwer.verify_handler Fixtures.viem _ Fixtures.pocketbase
                         (Fixtures.now0 + 5) Fixtures.request0 Fixtures.world0)))
          = Siwer.no_nonce).
Proof.
  apply (@nonce_consumed_once Fixtures.viem _ Fixtures.pocketbase
           (Fixtures.now0 + 5) Fixtures.request0 Fixtures.world0).
  vm_compute. reflexivity.
Defined.

(** C6 on the in-memory services: an invalid signature is answered 400
    and the world, stored challenge included, is as before. *)
Lemma failed_verify_keeps_nonce_witness :
  Siwer.status
    (fst (@Siwer.verify_handler Fixtures.viem _ Fixtures.pocketbase
            (Fixtures.now0 + 5)
            (Siwer.mkVerifyRequest (Some Fixtures.address0) (Some "0xforged") None)
            Fixtures.world0)) = 400
  /\ snd (@Siwer.verify_handler Fixtures.viem _ Fixtures.pocketbase
            (Fixtures.now0 + 5)
            (Siwer.mkVerifyRequest (Some Fixtures.address0) (Some "0xforged") None)
            Fixtures.world0) = Fixtures.world0.
Proof.
  split; [reflexivity |].
  apply (proj1 (@failed_verify_keeps_nonce Fixtures.viem _ Fixtures.pocketbase
                  (Fixtures.now0 + 5)
                  (Siwer.mkVerifyRequest (Some Fixtures.address0)
                     (Some "0xforged") None)
                  Fixtures.world0)).
  reflexivity.
Defined.

Section Issue.
Import Siwer.

(** C8, as the worker has it: [/nonce] refuses a request only when the
    address is absent or empty, and then stores nothing; every non-empty
    address, well formed or not, is answered 200 with the nonce and the
    message, and one challenge is added to the store with a lifetime of
    300 seconds.  For an address in ASCII the key of that challenge is
    the address with the letters A-Z folded to a-z. *)
Theorem nonce_requires_only_an_address
        (now : Z) (uuid : string) (address : option string) (kv : KV) :
  (Str.truthy address = None ->
   nonce_handler now uuid address kv = (json_error "address required" 400, kv))
  /\ (forall a, Str.truthy address = Some a ->
      fst (nonce_handler now uuid address kv)
      = mkResponse
          (NonceIssued (Str.jsSlice0 8 uuid)
                       (signInMessage (Str.jsSlice0 8 uuid) now)) 200
      /\ exists key,
           snd (nonce_handler now uuid address kv)
           = <[ key :=
                  mkKVEntry (mkNonceData (Str.jsSlice0 8 uuid) now)
                            (now + 300000) ]> kv)
  /\ (forall a, Str.truthy address = Some a -> Str.isASCII a = true ->
      snd (nonce_handler now uuid address kv)
      = <[ Str.toLowerCase a :=
             mkKVEntry (mkNonceData (Str.jsSlice0 8 uuid) now) (now + 300000) ]>
          kv).
Proof.
  unfold nonce_handler. split; [| split].
  - now intros ->.
  - intros a ->. split; [reflexivity |]. now exists (Str.toLowerCase a).
  - intros a -> _. reflexivity.
Qed.

(** C9, as the worker has it: the message returned with an issued nonce
    is the statement [Sign in to OracleNet], the nonce and the issuance
    timestamp in ISO 8601 form, and nothing else: it embeds these three
    and is the same for every requesting address. *)
Theorem sign_in_message_contents
        (now : Z) (uuid : string) (address : option string) (kv : KV) (a : string) :
  Str.truthy address = Some a ->
  exists nonce message,
    fst (nonce_handler now uuid address kv) = mkResponse (NonceIssued nonce message) 200
    /\ nonce = Str.jsSlice0 8 uuid
    /\ message = "Sign in to OracleNet" +:+ nl +:+ nl +:+ "Nonce: " +:+ nonce
                  +:+ nl +:+ "Timestamp: " +:+ toISOString now
    /\ Str.Contains message "Sign in to OracleNet" = true
    /\ Str.Contains message nonce = true
    /\ Str.Contains message (toISOString now) = true
    /\ (forall address' kv' a', Str.truthy address' = Some a' ->
        fst (nonce_handler now uuid address' kv')
        = mkResponse (NonceIssued nonce message) 200).
Proof.
  intros Ha. exists (Str.jsSlice0 8 uuid), (signInMessage (Str.jsSlice0 8 uuid) now).
  split; [unfold nonce_handler; now rewrite Ha |].
  split; [reflexivity |]. split; [reflexivity |].
  unfold signInMessage. split; [| split; [| split]].
  - apply (Contains_intro _ _ EmptyString
             (nl +:+ nl +:+ "Nonce: " +:+ Str.jsSlice0 8 uuid +:+ nl
                +:+ "Timestamp: " +:+ toISOString now)).
    reflexivity.
  - apply (Contains_intro _ _ ("Sign in to OracleNet" +:+ nl +:+ nl +:+ "Nonce: ")
             (nl +:+ "Timestamp: " +:+ toISOString now)).
    reflexivity.
  - apply (Contains_intro _ _
             ("Sign in to OracleNet" +:+ nl +:+ nl +:+ "Nonce: "
                +:+ Str.jsSlice0 8 uuid +:+ nl +:+ "Timestamp: ")
             EmptyString).
    rewrite append_nil_r, !append_assoc. reflexivity.
  - intros address' kv' a' Ha'. unfold nonce_handler. now rewrite Ha'.
Qed.

End Issue.

(** The text [not-an-address] is no account identifier, and [/nonce]
    answers it 200 and stores a challenge under it. *)
Lemma nonce_issued_to_malformed_address :
  Siwer.wellFormedAddress "not-an-address" = false
  /\ fst (Siwer.nonce_handler Fixtures.now0 Fixtures.uuid0 (Some "not-an-address") ∅)
     = Siwer.mkResponse
         (Siwer.NonceIssued "3b241101"
            (Siwer.signInMessage "3b241101" Fixtures.now0)) 200
  /\ snd (Siwer.nonce_handler Fixtures.now0 Fixtures.uuid0 (Some "not-an-address") ∅)
       !! "not-an-address"
     = Some (Siwer.mkKVEntry (Siwer.mkNonceData "3b241101" Fixtures.now0)
                             (Fixtures.now0 + 300000)).
Proof. repeat split; vm_compute; reflexivity. Qed.

Lemma nonce_requires_only_an_address_witness :
  Siwer.nonce_handler Fixtures.now0 Fixtures.uuid0 None ∅
  = (Siwer.json_error "address required" 400, ∅)
  /\ fst (Siwer.nonce_handler Fixtures.now0 Fixtures.uuid0
            (Some "not-an-address") ∅)
     = Siwer.mkResponse
         (Siwer.NonceIssued (Str.jsSlice0 8 Fixtures.uuid0)
            (Siwer.signInMessage (Str.jsSlice0 8 Fixtures.uuid0) Fixtures.now0))
         200
  /\ snd (Siwer.nonce_handler Fixtures.now0 Fixtures.uuid0
            (Some "Not-An-Address") ∅)
     = <[ Str.toLowerCase "Not-An-Address" :=
            Siwer.mkKVEntry
              (Siwer.mkNonceData (Str.jsSlice0 8 Fixtures.uuid0) Fixtures.now0)
              (Fixtures.now0 + 300000) ]> ∅.
Proof.
  split; [| split].
  - apply (proj1 (nonce_requires_only_an_address
                    Fixtures.now0 Fixtures.uuid0 None ∅)).
    reflexivity.
  - apply (proj1 (proj2 (nonce_requires_only_an_address
                           Fixtures.now0 Fixtures.uuid0
                           (Some "not-an-address") ∅))
             "not-an-address").
    reflexivity.
  - apply (proj2 (proj2 (nonce_requires_only_an_address
                           Fixtures.now0 Fixtures.uuid0
                           (Some "Not-An-Address") ∅))
             "Not-An-Address").
    + reflexivity.
    + vm_compute. reflexivity.
Defined.

(** The message issued to [address0] is three lines of statement, nonce
    and timestamp; the address, in either letter case, is not in it. *)
Lemma sign_in_message_omits_address :
  fst (Siwer.nonce_handler Fixtures.now0 Fixtures.uuid0 (Some Fixtures.address0) ∅)
  = Siwer.mkResponse
      (Siwer.NonceIssued "3b241101"
         ("Sign in to OracleNet" +:+ Siwer.nl +:+ Siwer.nl
            +:+ "Nonce: 3b241101" +:+ Siwer.nl
            +:+ "Timestamp: 2026-02-02T02:40:00.000Z")) 200
  /\ Str.Contains
       ("Sign in to OracleNet" +:+ Siwer.nl +:+ Siwer.nl
          +:+ "Nonce: 3b241101" +:+ Siwer.nl
          +:+ "Timestamp: 2026-02-02T02:40:00.000Z")
       Fixtures.address0 = false
  /\ Str.Contains
       ("Sign in to OracleNet" +:+ Siwer.nl +:+ Siwer.nl
          +:+ "Nonce: 3b241101" +:+ Siwer.nl
          +:+ "Timestamp: 2026-02-02T02:40:00.000Z")
       (Str.toLowerCase Fixtures.address0) = false.
Proof. repeat split; vm_compute; reflexivity. Qed.

Lemma sign_in_message_contents_witness :
  exists nonce message,
    fst (Siwer.nonce_handler Fixtures.now0 Fixtures.uuid0 (Some Fixtures.address0) ∅)
    = Siwer.mkResponse (Siwer.NonceIssued nonce message) 200
    /\ nonce = Str.jsSlice0 8 Fixtures.uuid0
    /\ message = "Sign in to OracleNet" +:+ Siwer.nl +:+ Siwer.nl +:+ "Nonce: "
                  +:+ nonce +:+ Siwer.nl +:+ "Timestamp: "
                  +:+ Siwer.toISOString Fixtures.now0
    /\ Str.Contains message "Sign in to OracleNet" = true
    /\ Str.Contains message nonce = true
    /\ Str.Contains message (Siwer.toISOString Fixtures.now0) = true
    /\ (forall address' kv' a', Str.truthy address' = Some a' ->
        fst (Siwer.nonce_handler Fixtures.now0 Fixtures.uuid0 address' kv')
        = Siwer.mkResponse (Siwer.NonceIssued nonce message) 200).
Proof.
  apply (sign_in_message_contents Fixtures.now0 Fixtures.uuid0
           (Some Fixtures.address0) ∅ Fixtures.address0).
  reflexivity.
Defined.

(** ** Approval of a record created by wallet verify *)

Section Approval.
Import Siwer.
Context `{Viem} {PB : Type} `{PocketBase PB}.

Lemma respond_created address created oracle kv (db : PB) created' oracle' token :
  body (fst (respond address created oracle kv db)) = Verified created' oracle' token ->
  created' = created /\ oracle' = oracle.
Proof.
  unfold respond. destruct (auth_token address oracle db) as [[msg | tok] db'];
    simpl; [discriminate |].
  intros E. injection E as <- <- <-. auto.
Qed.

(** C5, as the code has it: a record that wallet verify creates on a
    lookup miss is created with [approved = true], whatever the
    allow-list holds: the answer reports [created] only after a lookup by
    the lower-cased address found nothing and [create] accepted a record
    for that address with [approved: true].  The allow-list matcher
    itself keeps no cache: [IsRepoWhitelisted] reads the stored setting at
    each call, so it answers from the value last written. *)
Theorem wallet_create_always_approved
        (now : Z) (req : VerifyRequest) (w : @World PB)
        (oracle : Oracle) (token : string) :
  body (fst (verify_handler now req w)) = Verified true oracle token ->
  (exists address payload db',
      Str.truthy (r_address req) = Some address
      /\ getFirstListItem (pb w)
           ("wallet_address = " +:+ String dquote (Str.toLowerCase address)
              +:+ String dquote EmptyString) = None
      /\ create (pb w) payload = inr (oracle, db')
      /\ c_wallet_address payload = Str.toLowerCase address
      /\ c_approved payload = true)
  /\ (forall (app : Settings.App) v e d repo,
        Settings.IsRepoWhitelisted
          (<[ "whitelisted_repos" := Settings.mkSetting v e d ]> app) repo
        = if bool_decide (v = EmptyString) then false
          else match Settings.splitAndTrim v with
               | Some patterns => Settings.matchesAnyPattern repo patterns
               | None => false
               end).
Proof.
  intros Hbody. split.
  - unfold verify_handler in Hbody.
    destruct (Str.truthy (r_address req)) as [address|]; [| discriminate].
    destruct (Str.truthy (r_signature req)) as [signature|]; [| discriminate].
    destruct (kv_get now (NONCES w) (Str.toLowerCase address)) as [d|];
      [| discriminate].
    destruct (verifyMessage address _ signature) as [msg | []];
      try discriminate.
    destruct (getFirstListItem (pb w) _) as [found|] eqn:Hfind.
    + apply respond_created in Hbody as [Hc _]. discriminate.
    + destruct (create (pb w) _) as [msg | [o db']] eqn:Hcreate;
        [discriminate |].
      apply respond_created in Hbody as [_ ->].
      eexists address, _, db'.
      split; [reflexivity |]. split; [exact Hfind |].
      split; [exact Hcreate |]. split; reflexivity.
  - intros app v e d repo. unfold Settings.IsRepoWhitelisted,
      Settings.GetSettingValue, Settings.GetSetting.
    rewrite lookup_insert_eq. reflexivity.
Qed.

End Approval.

(** With the seeded allow-list, which matches neither the address nor
    any repo of the new record (it has none), wallet verify creates the
    record of [address0] approved. *)
Lemma wallet_create_approved_off_allow_list :
  fst (@Siwer.verify_handler Fixtures.viem _ Fixtures.pocketbase
         (Fixtures.now0 + 5) Fixtures.request0 Fixtures.world0)
  = Siwer.mkResponse
      (Siwer.Verified true
         (Siwer.mkOracle "rec0" "Oracle-0x5290"
            "0x52908400098527886e0f7030069857d2e4169ee7" true 0)
         "token-rec0") 200
  /\ Settings.IsRepoWhitelisted Fixtures.seeded Fixtures.address0 = false
  /\ Settings.IsRepoWhitelisted Fixtures.seeded
       (Str.toLowerCase Fixtures.address0) = false.
Proof. repeat split; vm_compute; reflexivity. Qed.

Lemma wallet_create_always_approved_witness :
  exists address payload db',
    Str.truthy (Siwer.r_address Fixtures.request0) = Some address
    /\ @Siwer.getFirstListItem _ Fixtures.pocketbase (Siwer.pb Fixtures.world0)
         ("wallet_address = " +:+ String Siwer.dquote (Str.toLowerCase address)
            +:+ String Siwer.dquote EmptyString) = None
    /\ @Siwer.create _ Fixtures.pocketbase (Siwer.pb Fixtures.world0) payload
       = inr (Siwer.mkOracle "rec0" "Oracle-0x5290"
                "0x52908400098527886e0f7030069857d2e4169ee7" true 0, db')
    /\ Siwer.c_wallet_address payload = Str.toLowerCase address
    /\ Siwer.c_approved payload = true.
Proof.
  apply (proj1 (@wallet_create_always_approved Fixtures.viem _ Fixtures.pocketbase
                  (Fixtures.now0 + 5) Fixtures.request0 Fixtures.world0
                  (Siwer.mkOracle "rec0" "Oracle-0x5290"
                     "0x52908400098527886e0f7030069857d2e4169ee7" true 0)
                  "token-rec0" eq_refl)).
Defined.

(** ** Birth-issue verification *)

Section RepoChallenge.
Import GitHub.
Context `{Api} {App : Type} `{Store App}.

Lemma scan_comments_spec (comments : list CommentJSON) (pattern author : string) :
  scan_comments comments pattern author = true
  <-> exists c, In c comments
                /\ Str.EqualFold (Login c) author = true
                /\ Str.Contains (Body c) pattern = true.
Proof.
  induction comments as [|c rest IH]; simpl.
  - split; [discriminate | now intros (? & [] & _)].
  - destruct (Str.EqualFold (Login c) author && Str.Contains (Body c) pattern)
      eqn:E.
    + split; [| reflexivity]. intros _. apply andb_prop in E as [E1 E2].
      exists c. auto.
    + rewrite IH. split.
      * intros (c' & Hin & Hc'). exists c'. tauto.
      * intros (c' & [<- | Hin] & Ha & Hb).
        -- rewrite Ha, Hb in E. discriminate.
        -- exists c'. auto.
Qed.

Lemma verifyStoredCode_true (now : Z) (repoKey code : string) (codes : Codes) :
  fst (verifyStoredCode now repoKey code codes) = true
  <-> exists stored, codes !! repoKey = Some stored
                     /\ now <= ExpiresAt stored /\ Code stored = code.
Proof.
  unfold verifyStoredCode. destruct (codes !! repoKey) as [stored|].
  - destruct (ExpiresAt stored <? now) eqn:E; simpl.
    + apply Z.ltb_lt in E. split; [discriminate |].
      intros (s & Hs & Hle & _). injection Hs as <-. lia.
    + apply Z.ltb_ge in E. rewrite bool_decide_eq_true. split.
      * intros Hc. now exists stored.
      * intros (s & Hs & _ & Hc). now injection Hs as <-.
  - simpl. split; [discriminate | now intros (? & ? & _)].
Qed.

Lemma verifyStoredCode_keeps (now : Z) (repoKey code : string) (codes : Codes) :
  fst (verifyStoredCode now repoKey code codes) = true ->
  snd (verifyStoredCode now repoKey code codes) = codes.
Proof.
  unfold verifyStoredCode. destruct (codes !! repoKey) as [stored|];
    [| reflexivity].
  destruct (ExpiresAt stored <? now); [discriminate | reflexivity].
Qed.

(** What the route has checked when it answers with a token. *)
Lemma verify_route_accepted (now : Z) (body : option VerifyBody) (st : @State App) :
  is_accepted (fst (verify_route now body st)) = true ->
  exists b owner repo issueNum stored issue comments,
    body = Some b
    /\ parseIssueURL (IssueURL b) = inr (owner, repo, issueNum)
    /\ verificationCodes st !! (owner +:+ "/" +:+ repo) = Some stored
    /\ now <= ExpiresAt stored
    /\ Code stored = VCode b
    /\ fetchIssue owner repo issueNum = inr issue
    /\ get_comments ("https://api.github.com/repos/" +:+ owner +:+ "/" +:+ repo
                       +:+ "/issues/" +:+ issueNum +:+ "/comments")
       = inr comments
    /\ scan_comments comments ("verify:" +:+ VCode b) (Author issue) = true.
Proof.
  unfold verify_route. destruct body as [b|]; [| discriminate].
  destruct (parseIssueURL (IssueURL b)) as [err | [[owner repo] issueNum]]
    eqn:Hparse; [discriminate |].
  destruct (verifyStoredCode now (owner +:+ "/" +:+ repo) (VCode b)
              (verificationCodes st)) as [ok codes] eqn:Hcode.
  destruct ok; [| discriminate]. simpl.
  destruct (fetchIssue owner repo issueNum) as [err | issue] eqn:Hissue;
    [discriminate |].
  unfold checkCommentsForCode.
  destruct (get_comments _) as [err | comments] eqn:Hcomments; [discriminate |].
  destruct (scan_comments comments _ (Author issue)) eqn:Hscan; [| discriminate].
  intros _.
  assert (Hok : fst (verifyStoredCode now (owner +:+ "/" +:+ repo) (VCode b)
                       (verificationCodes st)) = true) by now rewrite Hcode.
  apply verifyStoredCode_true in Hok as (stored & Hs & Hle & Hc).
  exists b, owner, repo, issueNum, stored, issue, comments.
  repeat (split; [first [reflexivity | assumption] |]). assumption.
Qed.

(** The route reaches the record store as soon as a comment of the
    expected author quotes the code. *)
Lemma verify_route_passes (now : Z) (b : VerifyBody) (st : @State App)
      owner repo issueNum stored issue comments :
  parseIssueURL (IssueURL b) = inr (owner, repo, issueNum) ->
  verificationCodes st !! (owner +:+ "/" +:+ repo) = Some stored ->
  now <= ExpiresAt stored ->
  Code stored = VCode b ->
  fetchIssue owner repo issueNum = inr issue ->
  get_comments ("https://api.github.com/repos/" +:+ owner +:+ "/" +:+ repo
                  +:+ "/issues/" +:+ issueNum +:+ "/comments") = inr comments ->
  verify_route now (Some b) st
  = if scan_comments comments ("verify:" +:+ VCode b) (Author issue) then
      match findOrCreateOracleByGitHub (app st) (Author issue)
              (owner +:+ "/" +:+ repo) (OracleName issue) with
      | inl _ => (BadRequest "Failed to create oracle", st)
      | inr (oracle, created, app') =>
          match NewAuthToken oracle with
          | inl _ => (BadRequest "Failed to generate token",
                      mkState (verificationCodes st) app')
          | inr token =>
              (Accepted token created oracle,
               mkState (clearVerificationCode (owner +:+ "/" +:+ repo)
                          (verificationCodes st)) app')
          end
      end
    else
      (Rejected
         ("Comment with 'verify:" +:+ VCode b +:+ "' not found from @"
            +:+ Author issue)
         (Some ("Post a comment on your issue with: verify:" +:+ VCode b)),
       st).
Proof.
  intros Hparse Hs Hle Hc Hissue Hcomments.
  assert (Hok : fst (verifyStoredCode now (owner +:+ "/" +:+ repo) (VCode b)
                       (verificationCodes st)) = true)
    by (apply verifyStoredCode_true; now exists stored).
  pose proof (verifyStoredCode_keeps _ _ _ _ Hok) as Hkeep.
  unfold verify_route. rewrite Hparse.
  destruct (verifyStoredCode now (owner +:+ "/" +:+ repo) (VCode b)
              (verificationCodes st)) as [ok codes].
  simpl in Hok, Hkeep. subst ok codes. simpl.
  rewrite Hissue. unfold checkCommentsForCode. rewrite Hcomments.
  destruct st as [codes a]. simpl.
  destruct (scan_comments comments _ (Author issue)); reflexivity.
Qed.

(** What the verify route does guarantee: it answers with a token only
    for a pending, unexpired challenge of the repository whose code is
    quoted, as [verify:<code>], by a comment on the issue that the request
    names whose author is the author of that issue (GitHub logins compared
    without regard to letter case); when no comment of that author quotes
    it, the route does not succeed, whatever the other commenters of that
    issue have posted.  The number of the issue is not constrained. *)
Theorem repo_verify_needs_author_comment
        (now : Z) (body : option VerifyBody) (st : @State App) :
  (is_accepted (fst (verify_route now body st)) = true ->
   exists b owner repo issueNum stored issue comments c,
     body = Some b
     /\ parseIssueURL (IssueURL b) = inr (owner, repo, issueNum)
     /\ verificationCodes st !! (owner +:+ "/" +:+ repo) = Some stored
     /\ now <= ExpiresAt stored
     /\ Code stored = VCode b
     /\ fetchIssue owner repo issueNum = inr issue
     /\ get_comments ("https://api.github.com/repos/" +:+ owner +:+ "/" +:+ repo
                        +:+ "/issues/" +:+ issueNum +:+ "/comments")
        = inr comments
     /\ In c comments
     /\ Str.EqualFold (Login c) (Author issue) = true
     /\ Str.Contains (Body c) ("verify:" +:+ VCode b) = true
     /\ Str.Contains (Body c) (VCode b) = true)
  /\ (forall b owner repo issueNum issue comments,
        body = Some b ->
        parseIssueURL (IssueURL b) = inr (owner, repo, issueNum) ->
        fetchIssue owner repo issueNum = inr issue ->
        get_comments ("https://api.github.com/repos/" +:+ owner +:+ "/" +:+ repo
                        +:+ "/issues/" +:+ issueNum +:+ "/comments")
        = inr comments ->
        (forall c, In c comments ->
                   Str.EqualFold (Login c) (Author issue) = true ->
                   Str.Contains (Body c) ("verify:" +:+ VCode b) = false) ->
        is_accepted (fst (verify_route now body st)) = false).
Proof.
  split.
  - intros Hok.
    destruct (verify_route_accepted now body st Hok)
      as (b & owner & repo & issueNum & stored & issue & comments
          & -> & Hparse & Hs & Hle & Hc & Hissue & Hcomments & Hscan).
    apply scan_comments_spec in Hscan as (c & Hin & Hauthor & Hbody).
    exists b, owner, repo, issueNum, stored, issue, comments, c.
    repeat (split; [first [reflexivity | assumption] |]).
    eapply Contains_suffix. exact Hbody.
  - intros b owner repo issueNum issue comments -> Hparse Hissue Hcomments Hnone.
    destruct (is_accepted (fst (verify_route now (Some b) st))) eqn:Hok;
      [| reflexivity].
    destruct (verify_route_accepted now (Some b) st Hok)
      as (b' & owner' & repo' & issueNum' & stored & issue' & comments'
          & Hb & Hparse' & _ & _ & _ & Hissue' & Hcomments' & Hscan).
    injection Hb as <-. rewrite Hparse in Hparse'.
    injection Hparse' as <- <- <-.
    rewrite Hissue in Hissue'. injection Hissue' as <-.
    rewrite Hcomments in Hcomments'. injection Hcomments' as <-.
    apply scan_comments_spec in Hscan as (c & Hin & Hauthor & Hbody).
    rewrite (Hnone c Hin Hauthor) in Hbody. discriminate.
Qed.


End RepoChallenge.

(** On the in-memory services: the challenge of [alice/oracle] is
    verified through the comment of [alice], the author of the issue. *)
Lemma repo_verify_needs_author_comment_witness :
  exists b owner repo issueNum stored issue comments c,
    Some Fixtures.verify_body = Some b
    /\ GitHub.parseIssueURL (GitHub.IssueURL b) = inr (owner, repo, issueNum)
    /\ GitHub.verificationCodes Fixtures.pending !! (owner +:+ "/" +:+ repo)
       = Some stored
    /\ Fixtures.now0 + 1000 <= GitHub.ExpiresAt stored
    /\ GitHub.Code stored = GitHub.VCode b
    /\ @GitHub.fetchIssue Fixtures.github owner repo issueNum = inr issue
    /\ @GitHub.get_comments Fixtures.github
         ("https://api.github.com/repos/" +:+ owner +:+ "/" +:+ repo
            +:+ "/issues/" +:+ issueNum +:+ "/comments") = inr comments
    /\ In c comments
    /\ Str.EqualFold (GitHub.Login c) (GitHub.Author issue) = true
    /\ Str.Contains (GitHub.Body c) ("verify:" +:+ GitHub.VCode b) = true
    /\ Str.Contains (GitHub.Body c) (GitHub.VCode b) = true.
Proof.
  apply (proj1 (@repo_verify_needs_author_comment Fixtures.github _ Fixtures.store
                  (Fixtures.now0 + 1000) (Some Fixtures.verify_body)
                  Fixtures.pending)).
  vm_compute. reflexivity.
Defined.

(** C4: the challenge of [alice/oracle] is started on its birth issue,
    which nobody comments.  [start] refuses issue 2 of the repository,
    but [verify] takes the issue from its own request: named with issue 2,
    which [mallory] opened and where [mallory] posted the code, it answers
    with a token and an approved record of [mallory] for [alice/oracle]. *)
Lemma verify_route_accepts_other_issue :
  fst (@GitHub.start_route Fixtures.github_second_issue (list GitHub.OracleRecord)
         Fixtures.now0 "deadbeef"
         (Some "https://github.com/alice/oracle/issues/2")
         (GitHub.mkState ∅ []))
  = GitHub.BadRequest "Must be Issue #1 (birth issue)"
  /\ @GitHub.get_comments Fixtures.github_second_issue
       "https://api.github.com/repos/alice/oracle/issues/1/comments" = inr []
  /\ GitHub.verificationCodes Fixtures.pending !! "alice/oracle"
     = Some (GitHub.mkStoredCode "deadbeef" (Fixtures.now0 + 600000))
  /\ fst (@GitHub.verify_route Fixtures.github_second_issue _ Fixtures.store
            (Fixtures.now0 + 1000)
            (Some (GitHub.mkVerifyBody
                     "https://github.com/alice/oracle/issues/2" "deadbeef"))
            Fixtures.pending)
     = GitHub.Accepted "token-rec0" true
         (GitHub.mkOracleRecord "rec0" "Mallory" "mallory@github.oracle"
            "mallory" "alice/oracle" true 0).
Proof. repeat split; vm_compute; reflexivity. Qed.


(** ** The Merkle membership engine *)

Section MerkleFacts.
Import Merkle.
Context `{Hashing}.

Lemma nextLayer_length_le (layer : list Hash) :
  (length (nextLayer layer) <= length layer)%nat.
Proof.
  induction layer as [layer IH] using (induction_ltof1 _ (@length Hash)).
  unfold ltof in IH.
  destruct layer as [|a [|b rest]]; simpl; try lia.
  specialize (IH rest). simpl in IH. lia.
Qed.

Lemma internalHash_comm (a b : Hash) : internalHash a b = internalHash b a.
Proof.
  unfold internalHash, sortedConcat.
  destruct (String.leb a b) eqn:Eab, (String.leb b a) eqn:Eba; try reflexivity.
  - now rewrite (String.leb_antisym _ _ Eab Eba).
  - destruct (String.leb_total a b); congruence.
Qed.

Lemma pair_ind {A : Type} (P : list A -> Prop) :
  P [] -> (forall a, P [a]) -> (forall a b l, P l -> P (a :: b :: l)) ->
  forall l, P l.
Proof.
  intros Hnil Hone Hstep l.
  assert (Hboth : P l /\ forall a, P (a :: l)).
  { induction l as [|b l [IH1 IH2]]; [auto |]. split; [apply IH2 |].
    intros a. now apply Hstep. }
  apply Hboth.
Qed.

Lemma div2_SS (k : nat) : (S (S k) / 2 = S (k / 2))%nat.
Proof.
  replace (S (S k)) with (1 * 2 + k)%nat by lia.
  now rewrite Nat.div_add_l by lia.
Qed.

Lemma siblingIndex_SS (k : nat) : siblingIndex (S (S k)) = S (S (siblingIndex k)).
Proof.
  unfold siblingIndex. change (Nat.even (S (S k))) with (Nat.even k).
  destruct (Nat.even k) eqn:E; [reflexivity |].
  destruct k; [discriminate | reflexivity].
Qed.

(** The parent of a node: the hash of the node and its sibling, or the
    node itself when it has none. *)
Lemma nextLayer_lookup (layer : list Hash) (idx : nat) (h : Hash) :
  layer !! idx = Some h ->
  nextLayer layer !! (idx / 2)%nat
  = Some (match layer !! siblingIndex idx with
          | Some sibling => internalHash h sibling
          | None => h
          end).
Proof.
  revert idx. induction layer as [|a|a b rest IH] using pair_ind; intros idx Hidx.
  - discriminate.
  - destruct idx as [|idx]; [| destruct idx; discriminate].
    injection Hidx as <-. reflexivity.
  - destruct idx as [|[|k]].
    + injection Hidx as <-. reflexivity.
    + injection Hidx as <-. simpl. now rewrite internalHash_comm.
    + rewrite div2_SS, siblingIndex_SS. simpl. apply IH. exact Hidx.
Qed.

(** Folding the collected siblings from a node of the bottom layer
    reaches the single node of the top layer. *)
Lemma provePath_climbs (layer : list Hash) (idx : nat) (h : Hash) :
  layer !! idx = Some h ->
  exists r, last (layersFrom layer) = Some [r]
            /\ fold_left internalHash (provePath (layersFrom layer) idx) h = r.
Proof.
  revert idx h.
  induction layer as [layer IH] using (induction_ltof1 _ (@length Hash)).
  unfold ltof in IH. intros idx h Hidx.
  destruct layer as [|a [|b rest]].
  - discriminate.
  - destruct idx as [|idx]; [| destruct idx; discriminate].
    injection Hidx as <-. exists a. simp layersFrom. split; reflexivity.
  - simp layersFrom.
    pose proof (nextLayer_lookup _ _ _ Hidx) as Hup.
    assert (Hlt : (length (nextLayer (a :: b :: rest))
                   < length (a :: b :: rest))%nat).
    { simpl. pose proof (nextLayer_length_le rest). lia. }
    destruct (IH _ Hlt _ _ Hup) as (r & Hlast & Hfold).
    exists r. split.
    + rewrite last_cons, Hlast. reflexivity.
    + cbn [provePath].
      destruct ((a :: b :: rest) !! siblingIndex idx) as [sibling|]; exact Hfold.
Qed.

Lemma In_insertLeaf (x y : MerkleLeaf) (l : list MerkleLeaf) :
  In y (insertLeaf x l) <-> y = x \/ In y l.
Proof.
  induction l as [|z l IH]; simpl.
  - intuition.
  - destruct (issueNumber x <=? issueNumber z)%N; simpl; [intuition |].
    rewrite IH. intuition.
Qed.

Lemma In_orderLeaves (y : MerkleLeaf) (leaves : list MerkleLeaf) :
  In y (orderLeaves leaves) <-> In y leaves.
Proof.
  unfold orderLeaves. induction leaves as [|x l IH]; simpl; [tauto |].
  rewrite In_insertLeaf, IH. intuition.
Qed.

Lemma zip_seq_lookup {A : Type} (l : list A) (s : nat) (k : A) (i : nat) :
  (k, i) ∈ zip l (seq s (length l)) ->
  exists j, i = (s + j)%nat /\ l !! j = Some k.
Proof.
  revert s. induction l as [|x l IH]; intros s; simpl.
  - intros Hin. now apply elem_of_nil in Hin.
  - intros Hin. apply elem_of_cons in Hin as [E | Hin].
    + injection E as -> ->. exists 0%nat. split; [lia | reflexivity].
    + destruct (IH _ Hin) as (j & -> & Hj). exists (S j). split; [lia | exact Hj].
Qed.

(** The leaf-to-index map sends the hash of every leaf of the leaf layer
    to a position that holds this hash. *)
Lemma leafIndex_lookup (l : list Hash) (k : Hash) :
  k ∈ l ->
  exists i, (list_to_map (zip l (seq 0 (length l))) : gmap Hash nat) !! k = Some i
            /\ l !! i = Some k.
Proof.
  intros Hin.
  destruct ((list_to_map (zip l (seq 0 (length l))) : gmap Hash nat) !! k)
    as [i|] eqn:E.
  - exists i. split; [reflexivity |].
    apply elem_of_list_to_map_2, zip_seq_lookup in E as (j & -> & Hj). exact Hj.
  - apply not_elem_of_list_to_map_2 in E.
    rewrite fst_zip in E by (rewrite length_seq; lia). contradiction.
Qed.

(** C2: in the tree built from any leaves, the proof generated for a
    leaf index verifies against the root for the leaf at that index;
    every leaf given to the builder sits at such an index, and the index
    that the leaf-to-index map of the tree records for it is one. *)
Theorem membership_round_trip (leaves : list MerkleLeaf) :
  (forall i leaf,
      orderLeaves leaves !! i = Some leaf ->
      exists r, root (build leaves) = Some r
                /\ verifyMembership leaf (proveMembership (build leaves) i) r = true)
  /\ (forall leaf,
        In leaf leaves ->
        exists i r, orderLeaves leaves !! i = Some leaf
                    /\ root (build leaves) = Some r
                    /\ verifyMembership leaf (proveMembership (build leaves) i) r
                       = true)
  /\ (forall leaf,
        In leaf leaves ->
        exists i r, leafIndex (build leaves) !! leafHash leaf = Some i
                    /\ root (build leaves) = Some r
                    /\ verifyMembership leaf (proveMembership (build leaves) i) r
                       = true).
Proof.
  assert (Hhash : forall i leaf,
             map leafHash (orderLeaves leaves) !! i = Some (leafHash leaf) ->
             exists r, root (build leaves) = Some r
                       /\ verifyMembership leaf (proveMembership (build leaves) i) r
                          = true).
  { intros i leaf Hh.
    destruct (provePath_climbs _ _ _ Hh) as (r & Hlast & Hfold).
    exists r. unfold build, proveMembership, verifyMembership. simpl.
    rewrite Hlast. split; [reflexivity |].
    now apply bool_decide_eq_true_2. }
  assert (Hidx : forall i leaf,
             orderLeaves leaves !! i = Some leaf ->
             map leafHash (orderLeaves leaves) !! i = Some (leafHash leaf)).
  { intros i leaf Hi.
    change (map leafHash (orderLeaves leaves)) with (leafHash <$> orderLeaves leaves).
    now rewrite list_lookup_fmap, Hi. }
  split; [intros i leaf Hi; apply Hhash, Hidx, Hi |].
  split.
  - intros leaf Hin. apply In_orderLeaves in Hin.
    apply list_elem_of_In, list_elem_of_lookup in Hin as [i Hi].
    destruct (Hhash i leaf (Hidx _ _ Hi)) as (r & Hr & Hv). now exists i, r.
  - intros leaf Hin. apply In_orderLeaves in Hin.
    assert (Hmem : leafHash leaf ∈ map leafHash (orderLeaves leaves)).
    { apply list_elem_of_In, in_map, Hin. }
    destruct (leafIndex_lookup _ _ Hmem) as (i & Hmap & Hi).
    destruct (Hhash i leaf Hi) as (r & Hr & Hv).
    exists i, r. split; [exact Hmap |]. split; assumption.
Qed.


Lemma insertLeaf_HdRel (x y : MerkleLeaf) (l : list MerkleLeaf) :
  (issueNumber y <= issueNumber x)%N ->
  HdRel (fun a b => (issueNumber a <= issueNumber b)%N) y l ->
  HdRel (fun a b => (issueNumber a <= issueNumber b)%N) y (insertLeaf x l).
Proof.
  intros Hyx Hhd. destruct l as [|z l]; simpl.
  - now constructor.
  - destruct (issueNumber x <=? issueNumber z)%N; constructor;
      [exact Hyx | now inversion Hhd].
Qed.

(** The builder hashes the leaves in ascending order of issue number. *)
Lemma orderLeaves_ascending (leaves : list MerkleLeaf) :
  Sorted (fun a b => (issueNumber a <= issueNumber b)%N) (orderLeaves leaves).
Proof.
  unfold orderLeaves. induction leaves as [|x leaves IH]; simpl; [constructor |].
  induction IH as [|y l Hs IHs Hhd]; simpl.
  - repeat constructor.
  - destruct (issueNumber x <=? issueNumber y)%N eqn:E.
    + apply N.leb_le in E. repeat constructor; assumption.
    + apply N.leb_gt in E. constructor; [exact IHs |].
      apply insertLeaf_HdRel; [lia | exact Hhd].
Qed.


End MerkleFacts.

(** C2 on three leaves given out of order, with the readable hash: the
    proof of the leaf of issue 30, the one carried up, has one element. *)
Lemma membership_round_trip_witness :
  exists r,
    @Merkle.root (@Merkle.build Fixtures.hashing Fixtures.leaves0) = Some r
    /\ @Merkle.verifyMembership Fixtures.hashing
         (Merkle.mkLeaf "0xCC" "https://github.com/o/c/issues/1" 30)
         (@Merkle.proveMembership
            (@Merkle.build Fixtures.hashing Fixtures.leaves0) 2)
         r = true.
Proof.
  apply (proj1 (@membership_round_trip Fixtures.hashing Fixtures.leaves0) 2%nat).
  reflexivity.
Defined.


(** ** The Merkle explorer page *)

Section ExplorerFacts.
Import Explorer.
Context `{Merkle.Hashing}.

Lemma widths_loop_sum (fuel remaining w : nat) :
  (remaining <= fuel)%nat -> (1 <= w)%nat ->
  sum_list (widths_loop fuel remaining w) = remaining.
Proof.
  revert remaining w. induction fuel as [|fuel IH]; intros remaining w Hf Hw; simpl.
  - lia.
  - destruct (0 <? remaining)%nat eqn:E.
    + apply Nat.ltb_lt in E. simpl. rewrite IH by lia. lia.
    + apply Nat.ltb_ge in E. simpl. lia.
Qed.

Lemma take_add_drop {A : Type} (a b : nat) (l : list A) :
  take (a + b) l = take a l ++ take b (drop a l).
Proof.
  revert l. induction a as [|a IH]; intros l; simpl.
  - now rewrite drop_0.
  - destruct l as [|x l]; simpl; [now rewrite take_nil | now rewrite IH].
Qed.

Lemma slice_layers_concat (widths : list nat) (idx : nat) (treeValues : list string) :
  concat (slice_layers treeValues idx widths)
  = take (sum_list widths) (drop idx treeValues).
Proof.
  revert idx. induction widths as [|size widths IH]; intros idx; simpl.
  - reflexivity.
  - rewrite IH, take_add_drop, drop_drop. reflexivity.
Qed.

(** The layers of the page are the flat array of the package cut into
    consecutive pieces. *)
Lemma computeTreeLayers_concat `{StandardMerkleTree} (leaves : list LeafData) :
  concat (layers (computeTreeLayers leaves)) = flatTree (computeTreeLayers leaves).
Proof.
  unfold computeTreeLayers. destruct leaves as [|l leaves]; [reflexivity |].
  destruct (foldl _ _ _) as [names indices]. simpl.
  rewrite slice_layers_concat, widths_loop_sum by lia.
  rewrite drop_0. apply firstn_all.
Qed.

Lemma insert_positions_lookup (layer offset n idx : nat)
      (m : gmap nat (nat * nat)) :
  foldl (fun m pos => <[ (offset + pos)%nat := (layer, pos) ]> m) m (seq 0 n) !! idx
  = if (offset <=? idx)%nat && (idx <? offset + n)%nat
    then Some (layer, (idx - offset)%nat) else m !! idx.
Proof.
  induction n as [|n IH].
  - simpl. replace (_ && _) with false; [reflexivity |].
    symmetry. apply andb_false_iff.
    destruct (Nat.leb_spec offset idx); [right; apply Nat.ltb_ge; lia | now left].
  - rewrite seq_S, foldl_app. simpl.
    destruct (decide (offset + n = idx)%nat) as [<- | Hne].
    + rewrite lookup_insert_eq.
      replace (_ && _) with true
        by (symmetry; apply andb_true_intro; split;
            [apply Nat.leb_le | apply Nat.ltb_lt]; lia).
      do 2 f_equal. lia.
    + rewrite lookup_insert_ne by exact Hne. rewrite IH.
      destruct (offset <=? idx)%nat eqn:E1; simpl; [| reflexivity].
      apply Nat.leb_le in E1.
      destruct (idx <? offset + n)%nat eqn:E2.
      * apply Nat.ltb_lt in E2.
        replace (idx <? offset + S n)%nat with true
          by (symmetry; apply Nat.ltb_lt; lia).
        reflexivity.
      * apply Nat.ltb_ge in E2.
        replace (idx <? offset + S n)%nat with false
          by (symmetry; apply Nat.ltb_ge; lia).
        reflexivity.
Qed.

(** The lookup built by the two nested loops: indices below the running
    offset keep their entry, and an index inside the layers is sent to
    the layer and position that hold the element of the concatenation. *)
Lemma index_layers_lookup (treeLayers : list (list string)) :
  forall (k offset : nat) (m : gmap nat (nat * nat)) (idx : nat),
    ((idx < offset)%nat -> index_layers treeLayers k offset m !! idx = m !! idx)
    /\ ((offset <= idx)%nat -> (idx < offset + length (concat treeLayers))%nat ->
        exists j pos l x,
          index_layers treeLayers k offset m !! idx = Some ((k + j)%nat, pos)
          /\ treeLayers !! j = Some l /\ l !! pos = Some x
          /\ concat treeLayers !! (idx - offset)%nat = Some x).
Proof.
  induction treeLayers as [|l rest IH]; intros k offset m idx; simpl.
  - split; [reflexivity | lia].
  - rewrite length_app.
    destruct (IH (S k) (offset + length l)%nat
                 (foldl (fun m pos => <[ (offset + pos)%nat := (k, pos) ]> m) m
                        (seq 0 (length l))) idx) as [IHlow IHin].
    split.
    + intros Hlt. rewrite IHlow by lia. rewrite insert_positions_lookup.
      replace (offset <=? idx)%nat with false
        by (symmetry; apply Nat.leb_gt; lia).
      reflexivity.
    + intros Hge Hlt.
      destruct (Nat.lt_ge_cases idx (offset + length l)) as [Hin | Hout].
      * rewrite IHlow by exact Hin. rewrite insert_positions_lookup.
        replace (_ && _) with true
          by (symmetry; apply andb_true_intro; split;
              [apply Nat.leb_le | apply Nat.ltb_lt]; lia).
        destruct (lookup_lt_is_Some_2 l (idx - offset)%nat) as [x Hx]; [lia |].
        exists 0%nat, (idx - offset)%nat, l, x.
        rewrite Nat.add_0_r. repeat split; try assumption.
        rewrite lookup_app_l by lia. exact Hx.
      * destruct IHin as (j & pos & l' & x & Hm & Hl & Hp & Hc); [lia | lia |].
        exists (S j), pos, l', x.
        replace (k + S j)%nat with (S k + j)%nat by lia.
        repeat split; try assumption.
        rewrite lookup_app_r by lia.
        replace (idx - offset - length l)%nat
          with (idx - (offset + length l))%nat by lia.
        exact Hc.
Qed.

(** Every index of the flat array is in the lookup, and the node it is
    sent to shows the hash at that index. *)
Lemma index_layers_node (treeLayers : list (list string)) (idx : nat) (x : string)
      (r : Role) (st : nat) :
  concat treeLayers !! idx = Some x ->
  exists pos, index_layers treeLayers 0 0 ∅ !! idx = Some pos
              /\ nodeHash treeLayers (mkNode (fst pos) (snd pos) r st) = Some x.
Proof.
  intros Hx.
  destruct (index_layers_lookup treeLayers 0 0 ∅ idx) as [_ Hin].
  destruct Hin as (j & pos & l & y & Hm & Hl & Hp & Hc);
    [lia | apply lookup_lt_Some in Hx; lia |].
  rewrite Nat.sub_0_r, Hx in Hc. injection Hc as <-.
  exists (j, pos). split; [exact Hm |].
  unfold nodeHash. simpl. rewrite Hl. simpl. exact Hp.
Qed.

Lemma siblingHashes_app (treeLayers : list (list string))
      (p q : list ProofPathNode) :
  siblingHashes treeLayers (p ++ q)
  = siblingHashes treeLayers p ++ siblingHashes treeLayers q.
Proof. unfold siblingHashes. apply omap_app. Qed.

Lemma odd_length_sibling (n current : nat) :
  Nat.odd n = true -> (current < n)%nat -> (current mod 2 = 1)%nat ->
  (current + 1 < n)%nat.
Proof.
  intros Hodd Hlt Hmod. rewrite Nat.odd_spec in Hodd.
  destruct Hodd as [k ->]. pose proof (Nat.div_mod_eq current 2). lia.
Qed.

Lemma parent_of_odd (n : nat) :
  (n mod 2 = 1)%nat -> (2 * ((n - 1) / 2) + 1 = n)%nat.
Proof.
  intros Hmod. pose proof (Nat.div_mod_eq n 2) as E. rewrite Hmod in E.
  replace (n - 1)%nat with (n / 2 * 2)%nat by lia.
  rewrite Nat.div_mul by lia. lia.
Qed.

Lemma parent_of_even (n : nat) :
  (0 < n)%nat -> (n mod 2 <> 1)%nat -> (2 * ((n - 1) / 2) + 2 = n)%nat.
Proof.
  intros Hpos Hmod. pose proof (Nat.div_mod_eq n 2) as E.
  assert (Hlt : (n mod 2 < 2)%nat) by (apply Nat.mod_upper_bound; lia).
  replace (n - 1)%nat with (1 + (n / 2 - 1) * 2)%nat by lia.
  rewrite Nat.div_add by lia. change (1 / 2)%nat with 0%nat. lia.
Qed.

(** The walk of the page from a node of the flat array to its root:
    folding the hashes at the sibling nodes, in order, from the hash of
    the start node gives the hash at index 0. *)
Lemma climb_reaches_root (flatTree : list string) (treeLayers : list (list string)) :
  well_formed flatTree -> concat treeLayers = flatTree ->
  forall current st h,
    flatTree !! current = Some h ->
    exists r, flatTree !! 0%nat = Some r
              /\ fold_left Merkle.internalHash
                   (siblingHashes treeLayers
                      (climb (length flatTree) (index_layers treeLayers 0 0 ∅)
                             current st)) h = r.
Proof.
  intros [Hodd Hpair] Hcat current.
  induction current as [current IH] using (well_founded_induction lt_wf).
  intros st h Hcur. destruct current as [|c].
  - simp climb. exists h. split; [exact Hcur | reflexivity].
  - simp climb.
    pose proof (lookup_lt_Some _ _ _ Hcur) as Hlt.
    set (m := index_layers treeLayers 0 0 ∅) in *.
    set (p := ((S c - 1) / 2)%nat) in *.
    assert (Hp : (p < S c)%nat) by (subst p; apply Nat.Div0.div_lt_upper_bound; lia).
    (* the sibling *)
    assert (Hsib : exists s hs,
               flatTree !! s = Some hs
               /\ fst (sibling_node (length flatTree) m (S c) st)
                  = [mkNode (fst (default (0, 0)%nat (m !! s)))
                            (snd (default (0, 0)%nat (m !! s))) sibling st]
               /\ nodeHash treeLayers
                    (mkNode (fst (default (0, 0)%nat (m !! s)))
                            (snd (default (0, 0)%nat (m !! s))) sibling st)
                  = Some hs
               /\ flatTree !! p = Some (Merkle.internalHash h hs)).
    { unfold sibling_node.
      destruct (S c mod 2 =? 1)%nat eqn:Emod.
      - apply Nat.eqb_eq in Emod.
        pose proof (odd_length_sibling _ _ Hodd Hlt Emod) as Hs.
        destruct (lookup_lt_is_Some_2 flatTree (S c + 1)%nat Hs) as [hs Hhs].
        exists (S c + 1)%nat, hs. split; [exact Hhs |].
        replace ((0 <? S c + 1)%nat && (S c + 1 <? length flatTree)%nat) with true
          by (symmetry; apply andb_true_intro; split; apply Nat.ltb_lt; lia).
        rewrite <- Hcat in Hhs.
        destruct (index_layers_node treeLayers _ _ sibling st Hhs) as (pos & Hm & Hn).
        fold m in Hm. rewrite Hm. simpl. split; [reflexivity |].
        split; [exact Hn |].
        rewrite Hcat in Hhs. apply Hpair.
        + subst p. rewrite (parent_of_odd _ Emod). exact Hcur.
        + subst p. replace (2 * ((S c - 1) / 2) + 2)%nat with (S c + 1)%nat
            by (pose proof (parent_of_odd _ Emod); lia).
          exact Hhs.
      - apply Nat.eqb_neq in Emod.
        assert (Hs : (S c - 1 < length flatTree)%nat) by lia.
        assert (Hpos : (0 < S c - 1)%nat)
          by (destruct c; [contradiction Emod; reflexivity | lia]).
        destruct (lookup_lt_is_Some_2 flatTree (S c - 1)%nat Hs) as [hs Hhs].
        exists (S c - 1)%nat, hs. split; [exact Hhs |].
        replace ((0 <? S c - 1)%nat && (S c - 1 <? length flatTree)%nat) with true
          by (symmetry; apply andb_true_intro; split; apply Nat.ltb_lt; lia).
        rewrite <- Hcat in Hhs.
        destruct (index_layers_node treeLayers _ _ sibling st Hhs) as (pos & Hm & Hn).
        fold m in Hm. rewrite Hm. simpl. split; [reflexivity |].
        split; [exact Hn |].
        rewrite Hcat in Hhs. rewrite internalHash_comm. apply Hpair.
        + subst p. replace (2 * ((S c - 1) / 2) + 1)%nat with (S c - 1)%nat
            by (pose proof (parent_of_even (S c) ltac:(lia) Emod); lia).
          exact Hhs.
        + subst p. rewrite (parent_of_even (S c)) by (lia || exact Emod).
          exact Hcur. }
    destruct Hsib as (s & hs & Hhs & Hnode & Hhash & Hparent).
    destruct (IH p Hp (snd (parent_node m (S c)
                              (snd (sibling_node (length flatTree) m (S c) st))))
                 _ Hparent) as (r & Hr & Hfold).
    exists r. split; [exact Hr |].
    rewrite !siblingHashes_app, Hnode.
    assert (Hpar : siblingHashes treeLayers
                     (fst (parent_node m (S c)
                             (snd (sibling_node (length flatTree) m (S c) st))))
                   = []).
    { unfold parent_node.
      destruct (m !! ((S c - 1) / 2)%nat) as [pp|]; [| reflexivity].
      unfold siblingHashes. cbn [omap list_omap role fst].
      now destruct ((S c - 1) / 2 =? 0)%nat. }
    rewrite Hpar. unfold siblingHashes at 1. simpl. rewrite Hhash. simpl.
    exact Hfold.
Qed.

(** The path of the page for a leaf: the hashes at its sibling nodes
    fold, from the hash of the leaf, to the root of the flat array. *)
Lemma computeProofPath_reaches_root
      (flatTree : list string) (valueMap : list nat) (treeLayers : list (list string))
      (leafIndex treeIndex : nat) (h : string) :
  well_formed flatTree -> concat treeLayers = flatTree ->
  valueMap !! leafIndex = Some treeIndex ->
  flatTree !! treeIndex = Some h ->
  exists r, flatTree !! 0%nat = Some r
            /\ fold_left Merkle.internalHash
                 (siblingHashes treeLayers
                    (computeProofPath flatTree valueMap leafIndex treeLayers)) h
               = r.
Proof.
  intros Hwf Hcat Hleaf Hh. unfold computeProofPath.
  pose proof (lookup_lt_Some _ _ _ Hleaf) as Hlt.
  replace (length valueMap <=? leafIndex)%nat with false
    by (symmetry; apply Nat.leb_gt; lia).
  assert (Hne : (length treeLayers =? 0)%nat = false).
  { apply Nat.eqb_neq. intros E. apply length_zero_iff_nil in E. subst treeLayers.
    simpl in Hcat. subst flatTree. discriminate. }
  rewrite Hne, Hleaf. simpl.
  destruct (treeIndex =? 0)%nat eqn:E0.
  - apply Nat.eqb_eq in E0. subst treeIndex. exists h. split; [exact Hh | reflexivity].
  - pose proof Hh as Hh'. rewrite <- Hcat in Hh'.
    destruct (index_layers_node treeLayers _ _ leaf 0%nat Hh') as (pos & Hm & _).
    rewrite Hm.
    destruct (climb_reaches_root flatTree treeLayers Hwf Hcat treeIndex 1%nat h Hh)
      as (r & Hr & Hfold).
    exists r. split; [exact Hr |]. exact Hfold.
Qed.

(** The same on what [computeTreeLayers] returns, whatever the package
    answers, as long as its flat array is well formed. *)
Lemma page_path_reaches_root `{StandardMerkleTree} (leaves : list LeafData)
      (leafIndex treeIndex : nat) (h : string) :
  well_formed (flatTree (computeTreeLayers leaves)) ->
  valueMap (computeTreeLayers leaves) !! leafIndex = Some treeIndex ->
  flatTree (computeTreeLayers leaves) !! treeIndex = Some h ->
  exists r, flatTree (computeTreeLayers leaves) !! 0%nat = Some r
            /\ fold_left Merkle.internalHash
                 (siblingHashes (layers (computeTreeLayers leaves))
                    (computeProofPath (flatTree (computeTreeLayers leaves))
                       (valueMap (computeTreeLayers leaves)) leafIndex
                       (layers (computeTreeLayers leaves)))) h
               = r.
Proof.
  intros Hwf. apply computeProofPath_reaches_root; [exact Hwf |].
  apply computeTreeLayers_concat.
Qed.

(** The flat array of three leaves has five nodes; the page lays them
    out as the root, a layer of an inner node and one leaf, and a layer
    of the two other leaves. *)
Lemma three_leaf_layout (t0 t1 t2 t3 t4 : string) :
  well_formed [t0; t1; t2; t3; t4] ->
  slice_layers [t0; t1; t2; t3; t4] 0 (widths_loop 5 5 1)
  = [ [Merkle.internalHash (Merkle.internalHash t3 t4) t2];
      [Merkle.internalHash t3 t4; t2];
      [t3; t4] ].
Proof.
  intros [_ Hpair].
  pose proof (Hpair 1%nat t3 t4 eq_refl eq_refl) as E1. injection E1 as ->.
  pose proof (Hpair 0%nat _ t2 eq_refl eq_refl) as E0. injection E0 as ->.
  reflexivity.
Qed.

End ExplorerFacts.

(** The page on the three leaves of the stand-in package: the path of the
    first leaf shows its two siblings, which fold to the root. *)
Example page_path_of_first_leaf :
  Explorer.siblingHashes
    (Explorer.layers (@Explorer.computeTreeLayers Fixtures.package Fixtures.page_leaves))
    (Explorer.computeProofPath
       (Explorer.flatTree
          (@Explorer.computeTreeLayers Fixtures.package Fixtures.page_leaves))
       (Explorer.valueMap
          (@Explorer.computeTreeLayers Fixtures.package Fixtures.page_leaves))
       0
       (Explorer.layers
          (@Explorer.computeTreeLayers Fixtures.package Fixtures.page_leaves)))
  = ["L(0xbb,https://github.com/o/b/issues/1,20)";
     "L(0xcc,https://github.com/o/c/issues/1,30)"].
Proof. vm_compute. reflexivity. Qed.

(* ===================================================================== *)
(** * Part III: further properties of the code *)
(* ===================================================================== *)

(** ** The settings helpers *)

Section SettingsFacts.
Import Settings.




Lemma substring_middle (pre mid suf : string) :
  String.substring (String.length pre) (String.length mid) (pre +:+ mid +:+ suf) = mid.
Proof.
  induction pre as [|c pre IH]; simpl.
  - apply substring_append.
  - exact IH.
Qed.

Lemma slice_middle (pre mid suf : string) :
  Str.slice (pre +:+ mid +:+ suf) (Str.len pre) (Str.len (pre +:+ mid)) = Some mid.
Proof.
  unfold Str.slice, Str.len. rewrite !length_append.
  assert (E : (0 <=? Z.of_nat (String.length pre))
              && (Z.of_nat (String.length pre)
                    <=? Z.of_nat (String.length pre + String.length mid))
              && (Z.of_nat (String.length pre + String.length mid)
                    <=? Z.of_nat (String.length pre
                                  + (String.length mid + String.length suf)))
              = true).
  { repeat (apply andb_true_intro; split); apply Z.leb_le; lia. }
  rewrite E, Nat2Z.id.
  replace (Z.to_nat (Z.of_nat (String.length pre + String.length mid)
                     - Z.of_nat (String.length pre)))
    with (String.length mid) by lia.
  now rewrite substring_middle.
Qed.

Lemma Contains_comma_cons (x : ascii) (t : string) :
  Str.Contains (String x t) "," = Ascii.eqb "," x || Str.Contains t ",".
Proof. cbn [Str.Contains Str.HasPrefix]. now rewrite andb_true_r. Qed.

Lemma comma_free_snoc (mid : string) (c : ascii) :
  Str.Contains mid "," = false -> c <> ","%char ->
  Str.Contains (mid +:+ String c EmptyString) "," = false.
Proof.
  intros Hmid Hc. induction mid as [|x mid IH].
  - cbn [String.append]. rewrite Contains_comma_cons.
    destruct (Ascii.eqb_spec "," c) as [E | _]; [congruence | reflexivity].
  - cbn [String.append]. rewrite Contains_comma_cons in Hmid |- *.
    apply orb_false_elim in Hmid as [Hx Hmid].
    now rewrite Hx, (IH Hmid).
Qed.

(** The loop of [split] on a comma, from any point of its run: [pre] is
    what lies before [start], [mid] the comma-free text between [start]
    and [i], [suf] the text still to scan. *)
Lemma split_loop_comma (suf : string) :
  forall pre mid result,
    Str.Contains mid "," = false ->
    exists parts,
      split_loop (pre +:+ mid +:+ suf) "," (String.length suf)
                 (Str.len (pre +:+ mid)) (Str.len pre) result
      = Some (result ++ parts)
      /\ String.concat "," parts = mid +:+ suf
      /\ Forall (fun p => Str.Contains p "," = false) parts
      /\ parts <> [].
Proof.
  induction suf as [|c suf IH]; intros pre mid result Hmid.
  - simpl split_loop.
    replace (Str.len (pre +:+ mid +:+ EmptyString)) with (Str.len (pre +:+ mid))
      by (now rewrite append_nil_r).
    rewrite slice_middle. exists [mid]. repeat split.
    + simpl. now rewrite append_nil_r.
    + now constructor.
    + discriminate.
  - cbn [split_loop String.length].
    assert (Hlen : (Str.len (pre +:+ mid) + Str.len ","
                    <=? Str.len (pre +:+ mid +:+ String c suf)) = true).
    { apply Z.leb_le. unfold Str.len. rewrite !length_append. simpl. lia. }
    assert (Hat : Str.slice (pre +:+ mid +:+ String c suf) (Str.len (pre +:+ mid))
                            (Str.len (pre +:+ mid) + Str.len ",")
                  = Some (String c EmptyString)).
    { pose proof (slice_middle (pre +:+ mid) (String c EmptyString) suf) as E.
      rewrite !append_assoc in E. simpl in E.
      replace (Str.len (pre +:+ mid) + Str.len ",")
        with (Str.len (pre +:+ mid +:+ String c EmptyString)).
      - exact E.
      - unfold Str.len. rewrite !length_append. simpl. lia. }
    rewrite Hlen, Hat. simpl andb.
    destruct (decide (c = ","%char)) as [-> | Hc].
    + rewrite bool_decide_eq_true_2 by reflexivity.
      rewrite slice_middle.
      destruct (IH (pre +:+ mid +:+ ",") EmptyString (result ++ [mid]) eq_refl)
        as (parts & Hloop & Hcat & Hfree & Hne).
      exists (mid :: parts). repeat split.
      * replace (Str.len (pre +:+ mid) + 1)
          with (Str.len ((pre +:+ mid +:+ ",") +:+ EmptyString))
          by (unfold Str.len; rewrite !length_append; simpl; lia).
        replace (Str.len (pre +:+ mid) + Str.len ",")
          with (Str.len (pre +:+ mid +:+ ","))
          by (unfold Str.len; rewrite !length_append; simpl; lia).
        replace (pre +:+ mid +:+ String "," suf)
          with ((pre +:+ mid +:+ ",") +:+ EmptyString +:+ suf)
          by (rewrite !append_assoc; reflexivity).
        rewrite Hloop, <- app_assoc. reflexivity.
      * destruct parts as [|p parts]; [congruence |].
        change (String.concat "," (mid :: p :: parts))
          with (mid +:+ "," +:+ String.concat "," (p :: parts)).
        rewrite Hcat. reflexivity.
      * constructor; assumption.
      * discriminate.
    + rewrite bool_decide_eq_false_2 by congruence.
      destruct (IH pre (mid +:+ String c EmptyString) result
                   (comma_free_snoc _ _ Hmid Hc))
        as (parts & Hloop & Hcat & Hfree & Hne).
      exists parts. repeat split; try assumption.
      * replace (Str.len (pre +:+ mid) + 1)
          with (Str.len (pre +:+ mid +:+ String c EmptyString))
          by (unfold Str.len; rewrite !length_append; simpl; lia).
        replace (pre +:+ mid +:+ String c suf)
          with (pre +:+ (mid +:+ String c EmptyString) +:+ suf)
          by (rewrite !append_assoc; reflexivity).
        exact Hloop.
      * rewrite Hcat, append_assoc. reflexivity.
Qed.

(** X2: [split] on a comma never panics, returns at least one piece, no
    piece holds a comma, and joining the pieces with commas gives the
    text back. *)
Theorem split_comma_round_trip (s : string) :
  exists parts,
    split s "," = Some parts
    /\ parts <> []
    /\ Forall (fun p => Str.Contains p "," = false) parts
    /\ String.concat "," parts = s.
Proof.
  destruct (split_loop_comma s EmptyString EmptyString [] eq_refl)
    as (parts & Hloop & Hcat & Hfree & Hne).
  exists parts. split; [exact Hloop |]. repeat split; assumption.
Qed.

End SettingsFacts.

Section TrimFacts.
Import Settings.

Lemma chars_append (a b : string) :
  list_ascii_of_string (a +:+ b) = list_ascii_of_string a ++ list_ascii_of_string b.
Proof. induction a as [|c a IH]; simpl; [reflexivity | now rewrite IH]. Qed.

Lemma rev_app_spec (s acc : string) :
  String.rev_app s acc = String.rev s +:+ acc.
Proof.
  unfold String.rev. revert acc. induction s as [|c s IH]; intros acc; simpl.
  - reflexivity.
  - rewrite (IH (String c acc)), (IH (String c EmptyString)), append_assoc.
    reflexivity.
Qed.

Lemma rev_cons (c : ascii) (s : string) :
  String.rev (String c s) = String.rev s +:+ String c EmptyString.
Proof. unfold String.rev at 1. simpl. apply rev_app_spec. Qed.

Lemma rev_append (a b : string) :
  String.rev (a +:+ b) = String.rev b +:+ String.rev a.
Proof.
  induction a as [|c a IH]; simpl.
  - now rewrite append_nil_r.
  - now rewrite !rev_cons, IH, append_assoc.
Qed.

Lemma rev_involutive (s : string) : String.rev (String.rev s) = s.
Proof.
  induction s as [|c s IH]; [reflexivity |].
  now rewrite rev_cons, rev_append, IH.
Qed.

Lemma blank_rev (l : string) :
  forallb is_blank (list_ascii_of_string l) = true ->
  forallb is_blank (list_ascii_of_string (String.rev l)) = true.
Proof.
  induction l as [|c l IH]; [reflexivity |].
  simpl. intros E. apply andb_prop in E as [Ec El].
  rewrite rev_cons, chars_append, forallb_app, (IH El). simpl. now rewrite Ec.
Qed.

Lemma trim_left_split (s : string) :
  exists l, s = l +:+ trim_left s
            /\ forallb is_blank (list_ascii_of_string l) = true
            /\ (forall c t, trim_left s = String c t -> is_blank c = false).
Proof.
  induction s as [|c s (l & Hs & Hl & Hhead)].
  - exists EmptyString. repeat split. discriminate.
  - simpl. destruct (is_blank c) eqn:E.
    + exists (String c l). simpl. rewrite E, Hl, <- Hs. repeat split. exact Hhead.
    + exists EmptyString. repeat split. intros c' t Heq. now injection Heq as <- _.
Qed.

Lemma trim_right_split (t : string) :
  exists r, t = trim_right t +:+ r
            /\ forallb is_blank (list_ascii_of_string r) = true
            /\ (forall u c, trim_right t = u +:+ String c EmptyString ->
                            is_blank c = false).
Proof.
  unfold trim_right. destruct (trim_left_split (String.rev t)) as (l & Ht & Hl & Hhead).
  exists (String.rev l). repeat split.
  - rewrite <- rev_append, <- Ht. symmetry. apply rev_involutive.
  - now apply blank_rev.
  - intros u c Hu. apply (f_equal String.rev) in Hu.
    rewrite rev_involutive, rev_append in Hu. simpl in Hu. eapply Hhead, Hu.
Qed.

Lemma trim_left_id (t : string) :
  (forall c u, t = String c u -> is_blank c = false) -> trim_left t = t.
Proof.
  destruct t as [|c u]; [reflexivity |]. intros Hhead. simpl.
  now rewrite (Hhead c u eq_refl).
Qed.

Lemma trim_right_id (t : string) :
  (forall u c, t = u +:+ String c EmptyString -> is_blank c = false) ->
  trim_right t = t.
Proof.
  intros Hlast. unfold trim_right. rewrite trim_left_id; [apply rev_involutive |].
  intros c u Hrev. apply (f_equal String.rev) in Hrev.
  rewrite rev_involutive, rev_cons in Hrev. eapply Hlast, Hrev.
Qed.

Lemma trim_ends (s : string) :
  (exists l r,
      s = l +:+ trim s +:+ r
      /\ forallb is_blank (list_ascii_of_string l) = true
      /\ forallb is_blank (list_ascii_of_string r) = true)
  /\ (forall c t, trim s = String c t -> is_blank c = false)
  /\ (forall t c, trim s = t +:+ String c EmptyString -> is_blank c = false).
Proof.
  unfold trim.
  destruct (trim_left_split s) as (l & Hs & Hl & Hhead).
  destruct (trim_right_split (trim_left s)) as (r & Ht & Hr & Hlast).
  split; [| split].
  - exists l, r. repeat split; try assumption.
    rewrite <- Ht. exact Hs.
  - intros c t Hc. rewrite Hc in Ht. simpl in Ht. eapply Hhead, Ht.
  - exact Hlast.
Qed.

(** X3: [trim] removes blanks (spaces and tabs) from both ends and
    nothing else: the text is the result between two runs of blanks, the
    result neither starts nor ends with a blank, a text without blanks at
    its ends is returned as it is, and trimming twice is trimming once. *)
Theorem trim_strips_both_ends (s : string) :
  (exists l r,
      s = l +:+ trim s +:+ r
      /\ forallb is_blank (list_ascii_of_string l) = true
      /\ forallb is_blank (list_ascii_of_string r) = true)
  /\ (forall c t, trim s = String c t -> is_blank c = false)
  /\ (forall t c, trim s = t +:+ String c EmptyString -> is_blank c = false)
  /\ ((forall c t, s = String c t -> is_blank c = false) ->
      (forall t c, s = t +:+ String c EmptyString -> is_blank c = false) ->
      trim s = s)
  /\ trim (trim s) = trim s.
Proof.
  destruct (trim_ends s) as (Hsplit & Hfirst & Hlast).
  repeat (split; [assumption |]). split.
  - intros H1 H2. unfold trim. rewrite (trim_left_id s H1). now apply trim_right_id.
  - unfold trim at 1. rewrite (trim_left_id _ Hfirst). now apply trim_right_id.
Qed.

Lemma Contains_inside (l x r sub : string) :
  Str.Contains (l +:+ x +:+ r) sub = false -> Str.Contains x sub = false.
Proof.
  intros Hout. destruct (Str.Contains x sub) eqn:E; [| reflexivity].
  destruct (Contains_split _ _ E) as (pre & post & ->).
  rewrite (Contains_intro _ sub (l +:+ pre) (post +:+ r)) in Hout;
    [discriminate | now rewrite !append_assoc].
Qed.

(** X4: [splitAndTrim] never panics, and each pattern it returns is
    non-empty, holds no comma and neither starts nor ends with a blank. *)
Theorem splitAndTrim_patterns_clean (s : string) :
  exists patterns,
    splitAndTrim s = Some patterns
    /\ Forall (fun p => p <> EmptyString
                        /\ Str.Contains p "," = false
                        /\ (forall c t, p = String c t -> is_blank c = false)
                        /\ (forall t c, p = t +:+ String c EmptyString ->
                                        is_blank c = false))
              patterns.
Proof.
  destruct (split_loop_comma s EmptyString EmptyString [] eq_refl)
    as (parts & Hsplit & _ & Hfree & _).
  unfold splitAndTrim.
  change (split s ",") with
    (split_loop (EmptyString +:+ EmptyString +:+ s) "," (String.length s)
       (Str.len (EmptyString +:+ EmptyString)) (Str.len EmptyString) []).
  rewrite Hsplit. eexists. split; [reflexivity |].
  apply List.Forall_forall. intros p Hin.
  rewrite <- list_elem_of_In in Hin.
  apply list_elem_of_filter in Hin as [Hne Hin].
  rewrite list_elem_of_In in Hin. apply in_map_iff in Hin as (q & <- & Hq).
  rewrite List.Forall_forall in Hfree. apply Hfree in Hq.
  destruct (trim_ends q) as (Hsplit_q & Hfirst & Hlast).
  repeat split; try assumption.
  destruct Hsplit_q as (l & r & Hq' & _ & _).
  rewrite Hq' in Hq. exact (Contains_inside _ _ _ _ Hq).
Qed.

End TrimFacts.

Section AllowListFacts.
Import Settings.

(** X5: [IsRepoWhitelisted] answers from the [value] of the
    [whitelisted_repos] record alone: it is true exactly when one of the
    trimmed comma-separated patterns of that value matches the repo, false
    when the record is missing, and it reads neither the [enabled] flag
    of the record nor any other setting. *)
Theorem allow_list_reads_value_only (app : App) (repo : string) :
  (IsRepoWhitelisted app repo = true
   <-> exists record patterns pattern,
         app !! "whitelisted_repos" = Some record
         /\ splitAndTrim (value record) = Some patterns
         /\ In pattern patterns
         /\ matchPattern repo pattern = true)
  /\ (app !! "whitelisted_repos" = None -> IsRepoWhitelisted app repo = false)
  /\ (forall v e d e' d',
        IsRepoWhitelisted (<[ "whitelisted_repos" := mkSetting v e d ]> app) repo
        = IsRepoWhitelisted (<[ "whitelisted_repos" := mkSetting v e' d' ]> app) repo)
  /\ (forall k r,
        k <> "whitelisted_repos" ->
        IsRepoWhitelisted (<[ k := r ]> app) repo = IsRepoWhitelisted app repo).
Proof.
  unfold IsRepoWhitelisted, GetSettingValue, GetSetting.
  split; [| split; [| split]].
  - destruct (app !! "whitelisted_repos") as [record|] eqn:Hrec.
    + destruct (decide (value record = EmptyString)) as [Hv | Hv].
      * rewrite bool_decide_eq_true_2 by exact Hv. split; [discriminate |].
        intros (record' & patterns & pattern & Hr & Hs & Hin & _).
        injection Hr as <-. rewrite Hv in Hs. vm_compute in Hs.
        injection Hs as <-. contradiction.
      * rewrite bool_decide_eq_false_2 by exact Hv.
        destruct (splitAndTrim (value record)) as [patterns|] eqn:Hs.
        -- rewrite matchesAnyPattern_spec. split.
           ++ intros (pattern & Hin & Hm). now exists record, patterns, pattern.
           ++ intros (record' & patterns' & pattern & Hr & Hs' & Hin & Hm).
              injection Hr as <-. rewrite Hs in Hs'. injection Hs' as <-.
              now exists pattern.
        -- split; [discriminate |].
           intros (record' & patterns & pattern & Hr & Hs' & _).
           injection Hr as <-. congruence.
    + split; [discriminate |]. now intros (record & ? & ? & Hr & _).
  - now intros ->.
  - intros v e d e' d'. now rewrite !lookup_insert_eq.
  - intros k r Hk. now rewrite lookup_insert_ne.
Qed.

End AllowListFacts.

(** ** The issue URL parser *)

Section ParseFacts.
Import GitHub.

Lemma span_split (p : ascii -> bool) (s : string) :
  forall a b, span p s = (a, b) ->
    s = a +:+ b
    /\ forallb p (list_ascii_of_string a) = true
    /\ (forall c t, b = String c t -> p c = false).
Proof.
  induction s as [|c s IH]; intros a b Hspan; simpl in Hspan.
  - injection Hspan as <- <-. repeat split. discriminate.
  - destruct (p c) eqn:Hc.
    + destruct (span p s) as [a' b'] eqn:Hs. injection Hspan as <- <-.
      destruct (IH a' b' eq_refl) as (-> & Ha & Hb).
      simpl. rewrite Hc, Ha. repeat split. exact Hb.
    + injection Hspan as <- <-. repeat split.
      intros c' t Heq. now injection Heq as <- _.
Qed.

Lemma span_append (p : ascii -> bool) (a b : string) :
  forallb p (list_ascii_of_string a) = true ->
  (forall c t, b = String c t -> p c = false) ->
  span p (a +:+ b) = (a, b).
Proof.
  intros Ha Hb. induction a as [|c a IH]; simpl.
  - destruct b as [|c t]; [reflexivity |]. simpl. now rewrite (Hb c t eq_refl).
  - simpl in Ha. apply andb_prop in Ha as [Hc Ha]. now rewrite Hc, (IH Ha).
Qed.

Lemma drop_append (a b : string) : drop (String.length a) (a +:+ b) = b.
Proof. induction a as [|c a IH]; simpl; [now destruct b | exact IH]. Qed.

Lemma match_after_host_sound (s owner repo num : string) :
  match_after_host s = Some (owner, repo, num) ->
  exists rest,
    s = owner +:+ "/" +:+ repo +:+ "/issues/" +:+ num +:+ rest
    /\ owner <> EmptyString /\ repo <> EmptyString /\ num <> EmptyString
    /\ forallb not_slash (list_ascii_of_string owner) = true
    /\ forallb not_slash (list_ascii_of_string repo) = true
    /\ forallb is_digit (list_ascii_of_string num) = true
    /\ (forall c t, rest = String c t -> is_digit c = false).
Proof.
  unfold match_after_host.
  destruct (span not_slash s) as [o r1] eqn:Ho.
  destruct (span_split _ _ _ _ Ho) as (-> & Hoslash & _).
  destruct (bool_decide (o = EmptyString)) eqn:Hoe; [discriminate |].
  apply bool_decide_eq_false_1 in Hoe.
  destruct r1 as [|c r2]; [discriminate |].
  destruct (Ascii.eqb_spec c "/") as [-> |]; [| discriminate].
  destruct (span not_slash r2) as [r r3] eqn:Hr.
  destruct (span_split _ _ _ _ Hr) as (-> & Hrslash & _).
  destruct (bool_decide (r = EmptyString)) eqn:Hre; [discriminate |].
  apply bool_decide_eq_false_1 in Hre.
  destruct (Str.HasPrefix r3 "/issues/") eqn:Hp; [| discriminate].
  destruct (HasPrefix_split _ _ Hp) as [r4 ->].
  change (drop 8 ("/issues/" +:+ r4)) with r4.
  destruct (span is_digit r4) as [n rest] eqn:Hn.
  destruct (span_split _ _ _ _ Hn) as (-> & Hdigits & Hrest).
  destruct (bool_decide (n = EmptyString)) eqn:Hne; [discriminate |].
  apply bool_decide_eq_false_1 in Hne.
  intros E. injection E as <- <- <-.
  exists rest. repeat split; assumption.
Qed.

Lemma find_match_sound (url : string) (m : string * string * string) :
  find_match url = Some m ->
  exists pre s, url = pre +:+ "github.com/" +:+ s /\ match_after_host s = Some m.
Proof.
  induction url as [|c url IH]; intros Hfind.
  - simpl in Hfind. discriminate.
  - cbn [find_match] in Hfind.
    assert (Hlater : find_match url = Some m ->
                     exists pre s, String c url = pre +:+ "github.com/" +:+ s
                                   /\ match_after_host s = Some m).
    { intros H. destruct (IH H) as (pre & s & -> & Hs). now exists (String c pre), s. }
    destruct (Str.HasPrefix (String c url) "github.com/") eqn:Hp; [| auto].
    destruct (HasPrefix_split _ _ Hp) as [s Hs]. rewrite Hs in Hfind.
    change (drop 11 ("github.com/" +:+ s)) with s in Hfind.
    destruct (match_after_host s) as [m'|] eqn:Hm; [| auto].
    injection Hfind as <-. exists EmptyString, s. now rewrite Hs.
Qed.

(** X6: what [parseIssueURL] returns was read off the URL: the URL holds
    the text [github.com/<owner>/<repo>/issues/<number>], owner and repo
    are non-empty and without a slash, the number is a non-empty run of
    decimal digits and takes every digit that follows [/issues/]. *)
Theorem parseIssueURL_sound (url owner repo issueNum : string) :
  parseIssueURL url = inr (owner, repo, issueNum) ->
  exists pre rest,
    url = pre +:+ "github.com/" +:+ owner +:+ "/" +:+ repo +:+ "/issues/"
              +:+ issueNum +:+ rest
    /\ owner <> EmptyString /\ repo <> EmptyString /\ issueNum <> EmptyString
    /\ forallb not_slash (list_ascii_of_string owner) = true
    /\ forallb not_slash (list_ascii_of_string repo) = true
    /\ forallb is_digit (list_ascii_of_string issueNum) = true
    /\ (forall c t, rest = String c t -> is_digit c = false).
Proof.
  unfold parseIssueURL. destruct (find_match url) as [m|] eqn:Hfind; [| discriminate].
  intros E. injection E as ->.
  destruct (find_match_sound _ _ Hfind) as (pre & s & -> & Hs).
  destruct (match_after_host_sound _ _ _ _ Hs) as (rest & -> & H).
  now exists pre, rest.
Qed.

Lemma find_match_skip (pre t : string) :
  Str.Contains pre "g" = false -> find_match (pre +:+ t) = find_match t.
Proof.
  induction pre as [|c pre IH]; intros Hg; [reflexivity |].
  cbn [Str.Contains Str.HasPrefix] in Hg. rewrite andb_true_r in Hg.
  apply orb_false_elim in Hg as [Hc Hg].
  cbn [String.append find_match Str.HasPrefix]. rewrite Hc. simpl andb. cbv iota.
  exact (IH Hg).
Qed.

Lemma match_after_host_complete (owner repo num rest : string) :
  owner <> EmptyString -> repo <> EmptyString -> num <> EmptyString ->
  forallb not_slash (list_ascii_of_string owner) = true ->
  forallb not_slash (list_ascii_of_string repo) = true ->
  forallb is_digit (list_ascii_of_string num) = true ->
  (forall c t, rest = String c t -> is_digit c = false) ->
  match_after_host (owner +:+ "/" +:+ repo +:+ "/issues/" +:+ num +:+ rest)
  = Some (owner, repo, num).
Proof.
  intros Ho Hr Hn Hos Hrs Hnd Hrest. unfold match_after_host.
  rewrite (span_append not_slash owner) by (try assumption; intros c t E;
                                            injection E as <- _; reflexivity).
  rewrite bool_decide_eq_false_2 by exact Ho.
  change ("/" +:+ repo +:+ "/issues/" +:+ num +:+ rest)
    with (String "/" (repo +:+ "/issues/" +:+ num +:+ rest)).
  cbv iota. rewrite Ascii.eqb_refl.
  rewrite (span_append not_slash repo) by (try assumption; intros c t E;
                                           injection E as <- _; reflexivity).
  rewrite bool_decide_eq_false_2 by exact Hr.
  rewrite HasPrefix_append.
  change (drop 8 ("/issues/" +:+ num +:+ rest)) with (num +:+ rest).
  rewrite (span_append is_digit num rest Hnd Hrest).
  now rewrite bool_decide_eq_false_2 by exact Hn.
Qed.

Lemma find_match_at_host (s : string) (m : string * string * string) :
  match_after_host s = Some m -> find_match ("github.com/" +:+ s) = Some m.
Proof.
  intros Hm.
  change ("github.com/" +:+ s) with (String "g" ("ithub.com/" +:+ s)).
  cbn [find_match].
  change (String "g" ("ithub.com/" +:+ s)) with ("github.com/" +:+ s).
  rewrite HasPrefix_append.
  change (drop 11 ("github.com/" +:+ s)) with s.
  now rewrite Hm.
Qed.

(** X7: a URL written as a prefix without the letter g (a scheme such as
    [https://]), [github.com/], a non-empty owner and repo without
    slashes, [/issues/], a non-empty decimal number and a rest that does
    not go on with a digit is parsed into exactly that owner, repo and
    number. *)
Theorem parseIssueURL_round_trip (pre owner repo num rest : string) :
  Str.Contains pre "g" = false ->
  owner <> EmptyString -> repo <> EmptyString -> num <> EmptyString ->
  forallb not_slash (list_ascii_of_string owner) = true ->
  forallb not_slash (list_ascii_of_string repo) = true ->
  forallb is_digit (list_ascii_of_string num) = true ->
  (forall c t, rest = String c t -> is_digit c = false) ->
  parseIssueURL (pre +:+ "github.com/" +:+ owner +:+ "/" +:+ repo +:+ "/issues/"
                     +:+ num +:+ rest)
  = inr (owner, repo, num).
Proof.
  intros Hpre Ho Hr Hn Hos Hrs Hnd Hrest. unfold parseIssueURL.
  rewrite (find_match_skip pre _ Hpre).
  rewrite (find_match_at_host _ (owner, repo, num)); [reflexivity |].
  now apply match_after_host_complete.
Qed.

End ParseFacts.

Lemma parseIssueURL_sound_witness :
  exists pre rest,
    "see https://github.com/alice/oracle/issues/12#issuecomment-5"
    = pre +:+ "github.com/" +:+ "alice" +:+ "/" +:+ "oracle" +:+ "/issues/"
          +:+ "12" +:+ rest
    /\ "alice" <> EmptyString /\ "oracle" <> EmptyString /\ "12" <> EmptyString
    /\ forallb GitHub.not_slash (list_ascii_of_string "alice") = true
    /\ forallb GitHub.not_slash (list_ascii_of_string "oracle") = true
    /\ forallb GitHub.is_digit (list_ascii_of_string "12") = true
    /\ (forall c t, rest = String c t -> GitHub.is_digit c = false).
Proof.
  apply (parseIssueURL_sound
           "see https://github.com/alice/oracle/issues/12#issuecomment-5"
           "alice" "oracle" "12").
  reflexivity.
Defined.

Lemma parseIssueURL_round_trip_witness :
  GitHub.parseIssueURL
    ("https://" +:+ "github.com/" +:+ "alice" +:+ "/" +:+ "oracle" +:+ "/issues/"
       +:+ "1" +:+ "#issuecomment-5")
  = inr ("alice", "oracle", "1").
Proof.
  apply (parseIssueURL_round_trip "https://" "alice" "oracle" "1" "#issuecomment-5");
    try reflexivity; try discriminate.
  intros c t E. injection E as <- _. reflexivity.
Defined.

(** ** The verification code store and its routes *)

Section CodeStoreFacts.
Import GitHub.

(** X8: a stored code is accepted for its repository up to and including
    the instant ten minutes after it was stored, and is left in place by
    the check; a different code is refused without touching the entry;
    after that instant every code is refused and the check deletes the
    entry; storing touches no other repository, and a cleared code is
    refused. *)
Theorem code_store_lifecycle (now : Z) (repoKey code : string) (codes : Codes) :
  (forall now',
      now' <= now + 600000 ->
      verifyStoredCode now' repoKey code (storeVerificationCode now repoKey code codes)
      = (true, storeVerificationCode now repoKey code codes))
  /\ (forall now' other,
        now' <= now + 600000 -> other <> code ->
        verifyStoredCode now' repoKey other
          (storeVerificationCode now repoKey code codes)
        = (false, storeVerificationCode now repoKey code codes))
  /\ (forall now' any,
        now + 600000 < now' ->
        verifyStoredCode now' repoKey any
          (storeVerificationCode now repoKey code codes)
        = (false, delete repoKey codes))
  /\ (forall k, k <> repoKey ->
                storeVerificationCode now repoKey code codes !! k = codes !! k)
  /\ (forall now' any,
        verifyStoredCode now' repoKey any
          (clearVerificationCode repoKey
             (storeVerificationCode now repoKey code codes))
        = (false, delete repoKey codes)).
Proof.
  unfold verifyStoredCode, storeVerificationCode, clearVerificationCode, tenMinutes.
  repeat split.
  - intros now' Hle. rewrite lookup_insert_eq. simpl.
    replace (now + 600000 <? now') with false by (symmetry; apply Z.ltb_ge; lia).
    now rewrite bool_decide_eq_true_2.
  - intros now' other Hle Hne. rewrite lookup_insert_eq. simpl.
    replace (now + 600000 <? now') with false by (symmetry; apply Z.ltb_ge; lia).
    now rewrite bool_decide_eq_false_2 by congruence.
  - intros now' any Hlt. rewrite lookup_insert_eq. simpl.
    replace (now + 600000 <? now') with true by (symmetry; apply Z.ltb_lt; lia).
    now rewrite delete_insert_eq.
  - intros k Hk. now rewrite lookup_insert_ne.
  - intros now' any. rewrite lookup_delete_eq. now rewrite delete_insert_eq.
Qed.

End CodeStoreFacts.

Section RouteFacts.
Import GitHub.
Context `{Api} {App : Type} `{Store App}.

(** X9: the start route issues a code only for issue number 1 of a
    repository whose fetched issue carries the [birth-props] label; it then
    stores exactly the generated code under [owner/repo], replacing any
    earlier one, with an expiry ten minutes ahead, returns a message that
    holds the token [verify:<code>] the comment check looks for, and leaves
    the record store alone; every other answer leaves the whole state
    unchanged. *)
Theorem start_route_issues_for_birth_issue
        (now : Z) (code : string) (body : option string) (st : @State App) :
  (is_started (fst (start_route now code body st)) = true ->
   exists issueUrl owner repo issue,
     body = Some issueUrl
     /\ parseIssueURL issueUrl = inr (owner, repo, "1")
     /\ fetchIssue owner repo "1" = inr issue
     /\ HasBirthPropsLabel issue = true
     /\ fst (start_route now code body st)
        = Started code
            ("Post this comment on your issue:" +:+ Siwer.nl +:+ Siwer.nl
               +:+ "verify:" +:+ code)
            issueUrl (OracleName issue) "10 minutes"
     /\ Str.Contains
          ("Post this comment on your issue:" +:+ Siwer.nl +:+ Siwer.nl
             +:+ "verify:" +:+ code)
          ("verify:" +:+ code) = true
     /\ snd (start_route now code body st)
        = mkState (<[ owner +:+ "/" +:+ repo := mkStoredCode code (now + 600000) ]>
                     (verificationCodes st))
                  (app st))
  /\ (is_started (fst (start_route now code body st)) = false ->
      snd (start_route now code body st) = st).
Proof.
  unfold start_route. destruct body as [issueUrl|]; [| split; [discriminate | auto]].
  destruct (parseIssueURL issueUrl) as [err | [[owner repo] issueNum]] eqn:Hparse;
    [split; [discriminate | auto] |].
  destruct (decide (issueNum = "1")) as [-> | Hnum].
  - rewrite bool_decide_eq_true_2 by reflexivity. simpl negb. cbv iota.
    destruct (fetchIssue owner repo "1") as [err | issue] eqn:Hissue;
      [split; [discriminate | auto] |].
    destruct (HasBirthPropsLabel issue) eqn:Hlabel; simpl negb; cbv iota;
      [| split; [discriminate | auto]].
    split; [| discriminate]. intros _.
    exists issueUrl, owner, repo, issue.
    repeat (split; [first [reflexivity | assumption] |]).
    split; [| reflexivity].
    apply (Contains_intro _ _
             ("Post this comment on your issue:" +:+ Siwer.nl +:+ Siwer.nl)
             EmptyString).
    rewrite append_nil_r, !append_assoc. reflexivity.
  - rewrite bool_decide_eq_false_2 by exact Hnum. simpl.
    split; [discriminate | auto].
Qed.

(** What a verify call does to the code store: nothing, or it purges the
    expired entry of the repository, or, when it answers with a token, it
    clears the entry of the repository. *)
Lemma verify_route_codes (now : Z) (body : option VerifyBody) (st : @State App) :
  (is_accepted (fst (verify_route now body st)) = false
   /\ (verificationCodes (snd (verify_route now body st)) = verificationCodes st
       \/ exists b owner repo issueNum stored,
            body = Some b
            /\ parseIssueURL (IssueURL b) = inr (owner, repo, issueNum)
            /\ verificationCodes st !! (owner +:+ "/" +:+ repo) = Some stored
            /\ ExpiresAt stored < now
            /\ snd (verify_route now body st)
               = mkState (delete (owner +:+ "/" +:+ repo) (verificationCodes st))
                         (app st)))
  \/ (is_accepted (fst (verify_route now body st)) = true
      /\ exists b owner repo issueNum,
           body = Some b
           /\ parseIssueURL (IssueURL b) = inr (owner, repo, issueNum)
           /\ verificationCodes (snd (verify_route now body st))
              = delete (owner +:+ "/" +:+ repo) (verificationCodes st)).
Proof.
  unfold verify_route. destruct body as [b|]; [| left; auto].
  destruct (parseIssueURL (IssueURL b)) as [err | [[owner repo] issueNum]]
    eqn:Hparse; [left; auto |].
  unfold verifyStoredCode.
  destruct (verificationCodes st !! (owner +:+ "/" +:+ repo)) as [stored|] eqn:Hs;
    [| left; auto].
  destruct (ExpiresAt stored <? now) eqn:Hexp.
  - apply Z.ltb_lt in Hexp. left. split; [reflexivity |]. right.
    exists b, owner, repo, issueNum, stored. auto.
  - destruct (bool_decide (Code stored = VCode b)); simpl; [| left; auto].
    destruct (fetchIssue owner repo issueNum) as [err | issue]; [left; auto |].
    destruct (checkCommentsForCode owner repo issueNum (VCode b) (Author issue))
      as [err | []]; try (left; auto; fail).
    destruct (findOrCreateOracleByGitHub (app st) (Author issue) _ (OracleName issue))
      as [err | [[oracle created] app']]; [left; auto |].
    destruct (NewAuthToken oracle) as [err | token]; [left; auto |].
    right. split; [reflexivity |]. exists b, owner, repo, issueNum. auto.
Qed.

(** X10: a verification code is single use and survives failed attempts:
    a verify call that answers with a token clears the code of the
    repository, so the same request sent again, whenever, is answered
    "Invalid or expired code. Start again."; a call that does not answer
    with a token leaves every unexpired code in the store. *)
Theorem repo_code_single_use (now : Z) (body : option VerifyBody) (st : @State App) :
  (is_accepted (fst (verify_route now body st)) = true ->
   forall now',
     fst (verify_route now' body (snd (verify_route now body st)))
     = Rejected "Invalid or expired code. Start again." None)
  /\ (is_accepted (fst (verify_route now body st)) = false ->
      forall k stored,
        verificationCodes st !! k = Some stored ->
        now <= ExpiresAt stored ->
        verificationCodes (snd (verify_route now body st)) !! k = Some stored).
Proof.
  destruct (verify_route_codes now body st)
    as [[Hno [Hsame | (b & owner & repo & issueNum & stored & -> & Hparse & Hs
                        & Hexp & Hst)]]
       | [Hyes (b & owner & repo & issueNum & -> & Hparse & Hcodes)]].
  - split; [congruence |]. intros _ k stored Hk _. now rewrite Hsame.
  - split; [congruence |]. intros _ k stored' Hk Hlive. rewrite Hst. simpl.
    destruct (decide (k = owner +:+ "/" +:+ repo)) as [-> | Hne].
    + rewrite Hs in Hk. injection Hk as <-. lia.
    + now rewrite lookup_delete_ne.
  - split; [| congruence]. intros _ now'.
    unfold verify_route at 1. rewrite Hparse. unfold verifyStoredCode.
    rewrite Hcodes, lookup_delete_eq. reflexivity.
Qed.

End RouteFacts.

Lemma start_route_issues_for_birth_issue_witness :
  exists issueUrl owner repo issue,
    Some "https://github.com/alice/oracle/issues/1" = Some issueUrl
    /\ GitHub.parseIssueURL issueUrl = inr (owner, repo, "1")
    /\ @GitHub.fetchIssue Fixtures.github owner repo "1" = inr issue
    /\ GitHub.HasBirthPropsLabel issue = true
    /\ fst (@GitHub.start_route Fixtures.github (list GitHub.OracleRecord)
              Fixtures.now0 "deadbeef"
              (Some "https://github.com/alice/oracle/issues/1")
              (@GitHub.mkState (list GitHub.OracleRecord) ∅ []))
       = GitHub.Started "deadbeef"
           ("Post this comment on your issue:" +:+ Siwer.nl +:+ Siwer.nl
              +:+ "verify:" +:+ "deadbeef")
           issueUrl (GitHub.OracleName issue) "10 minutes"
    /\ Str.Contains
         ("Post this comment on your issue:" +:+ Siwer.nl +:+ Siwer.nl
            +:+ "verify:" +:+ "deadbeef")
         ("verify:" +:+ "deadbeef") = true
    /\ snd (@GitHub.start_route Fixtures.github (list GitHub.OracleRecord)
              Fixtures.now0 "deadbeef"
              (Some "https://github.com/alice/oracle/issues/1")
              (@GitHub.mkState (list GitHub.OracleRecord) ∅ []))
       = GitHub.mkState
           (<[ owner +:+ "/" +:+ repo
               := GitHub.mkStoredCode "deadbeef" (Fixtures.now0 + 600000) ]>
              (GitHub.verificationCodes (@GitHub.mkState (list GitHub.OracleRecord) ∅ [])))
           (GitHub.app (@GitHub.mkState (list GitHub.OracleRecord) ∅ [])).
Proof.
  apply (proj1 (@start_route_issues_for_birth_issue Fixtures.github
                  (list GitHub.OracleRecord) Fixtures.now0 "deadbeef"
                  (Some "https://github.com/alice/oracle/issues/1")
                  (@GitHub.mkState (list GitHub.OracleRecord) ∅ []))).
  vm_compute. reflexivity.
Defined.

Lemma repo_code_single_use_witness :
  fst (@GitHub.verify_route Fixtures.github _ Fixtures.store
         (Fixtures.now0 + 2000) (Some Fixtures.verify_body)
         (snd (@GitHub.verify_route Fixtures.github _ Fixtures.store
                 (Fixtures.now0 + 1000) (Some Fixtures.verify_body)
                 Fixtures.pending)))
  = GitHub.Rejected "Invalid or expired code. Start again." None.
Proof.
  apply (proj1 (@repo_code_single_use Fixtures.github _ Fixtures.store
                  (Fixtures.now0 + 1000) (Some Fixtures.verify_body)
                  Fixtures.pending)).
  vm_compute. reflexivity.
Defined.

(** ** What the record store is handed on a GitHub sign-in *)

Section RepoRecordFacts.
Import GitHub.
Context `{Api} {App : Type} `{Store App}.

(** X11: when the verify route answers with a token, the record it saved
    is marked approved and bound to the repository [owner/repo] of the
    request, whoever the author is: for a known GitHub user the first
    record found is updated ([created] is false, and a failing save is
    ignored), for an unknown one a fresh record is saved with karma 0,
    the e-mail [<author>@github.oracle] and the extracted name or, when
    that is empty, the login; the token is the one made for the answered
    record. *)
Theorem github_sign_in_record
        (now : Z) (b : VerifyBody) (st : @State App)
        (token : string) (created : bool) (record : OracleRecord) :
  fst (verify_route now (Some b) st) = Accepted token created record ->
  exists owner repo issueNum issue saved,
    parseIssueURL (IssueURL b) = inr (owner, repo, issueNum)
    /\ fetchIssue owner repo issueNum = inr issue
    /\ approved saved = true
    /\ github_repo saved = owner +:+ "/" +:+ repo
    /\ NewAuthToken record = inr token
    /\ match FindRecordsByGithubUsername (app st) (Author issue) with
       | r :: _ =>
           created = false
           /\ saved = mkOracleRecord (Id r) (name r) (email r) (github_username r)
                        (owner +:+ "/" +:+ repo) true (karma r)
           /\ match Save (app st) saved with
              | inr (r', app') =>
                  record = r' /\ app (snd (verify_route now (Some b) st)) = app'
              | inl _ =>
                  record = saved
                  /\ app (snd (verify_route now (Some b) st)) = app st
              end
       | [] =>
           created = true
           /\ saved = mkOracleRecord EmptyString
                        (if bool_decide (OracleName issue = EmptyString)
                         then Author issue else OracleName issue)
                        (Author issue +:+ "@github.oracle") (Author issue)
                        (owner +:+ "/" +:+ repo) true 0
           /\ Save (app st) saved
              = inr (record, app (snd (verify_route now (Some b) st)))
       end.
Proof.
  intros Hacc.
  assert (Hyes : is_accepted (fst (verify_route now (Some b) st)) = true)
    by now rewrite Hacc.
  destruct (verify_route_accepted _ _ _ Hyes)
    as (b' & owner & repo & issueNum & stored & issue & comments & Hb & Hparse
        & Hs & Hle & Hc & Hissue & Hcomments & Hscan).
  injection Hb as <-.
  rewrite (verify_route_passes now b st owner repo issueNum stored issue comments
             Hparse Hs Hle Hc Hissue Hcomments) in Hacc |- *.
  rewrite Hscan in Hacc |- *.
  unfold findOrCreateOracleByGitHub in Hacc |- *.
  destruct (FindRecordsByGithubUsername (app st) (Author issue)) as [|r rs]
    eqn:Hfind.
  - set (saved := mkOracleRecord EmptyString _ _ _ _ true 0) in *.
    exists owner, repo, issueNum, issue, saved. rewrite Hfind.
    destruct (Save (app st) saved) as [err | [oracle' app']]; [discriminate |].
    destruct (NewAuthToken oracle') as [err | token'] eqn:Htok; [discriminate |].
    simpl in Hacc. injection Hacc as <- <- <-. simpl.
    repeat (split; [first [reflexivity | assumption] |]). reflexivity.
  - set (saved := mkOracleRecord (Id r) _ _ _ _ true _) in *.
    exists owner, repo, issueNum, issue, saved. rewrite Hfind.
    destruct (Save (app st) saved) as [err | [oracle' app']].
    + destruct (NewAuthToken saved) as [err' | token'] eqn:Htok; [discriminate |].
      simpl in Hacc. injection Hacc as <- <- <-. simpl.
      repeat (split; [first [reflexivity | assumption] |]). auto.
    + destruct (NewAuthToken oracle') as [err' | token'] eqn:Htok; [discriminate |].
      simpl in Hacc. injection Hacc as <- <- <-. simpl.
      repeat (split; [first [reflexivity | assumption] |]). auto.
Qed.

End RepoRecordFacts.

Lemma github_sign_in_record_witness :
  exists token created record owner repo,
    fst (@GitHub.verify_route Fixtures.github _ Fixtures.store
           (Fixtures.now0 + 1000) (Some Fixtures.verify_body) Fixtures.pending)
    = GitHub.Accepted token created record
    /\ created = true
    /\ GitHub.parseIssueURL (GitHub.IssueURL Fixtures.verify_body)
       = inr (owner, repo, "1")
    /\ GitHub.approved record = true
    /\ GitHub.github_repo record = owner +:+ "/" +:+ repo.
Proof.
  eexists _, _, _, _, _.
  split; [vm_compute; reflexivity |].
  destruct (@github_sign_in_record Fixtures.github _ Fixtures.store
              (Fixtures.now0 + 1000) Fixtures.verify_body Fixtures.pending
              "token-rec0" true
              (GitHub.mkOracleRecord "rec0" "Iris" "Alice@github.oracle" "Alice"
                 "alice/oracle" true 0)
              ltac:(vm_compute; reflexivity))
    as (owner & repo & issueNum & issue & saved & Hparse & _).
  vm_compute in Hparse. injection Hparse as <- <- <-.
  repeat split.
Defined.

(** ** The wallet worker: lifetime of a challenge *)

Section ChallengeFacts.
Import Siwer.
Context `{Viem} {PB : Type} `{PocketBase PB}.

Lemma truthy_Some (a : string) : a <> EmptyString -> Str.truthy (Some a) = Some a.
Proof. destruct a; [congruence | reflexivity]. Qed.

Lemma truthy_inv (o : option string) (a : string) :
  Str.truthy o = Some a -> o = Some a /\ a <> EmptyString.
Proof.
  destruct o as [[|c s]|]; simpl; try discriminate.
  intros [= <-]. split; [reflexivity | discriminate].
Qed.

(** X12: a challenge issued at [now] lives for 300 seconds and is found
    under the address whatever the letter case the later request writes
    it in.  From the instant [now + 300000] on, [/verify] answers that no
    nonce was found and changes nothing.  Before, [/verify] hands viem
    exactly the message that [/nonce] returned: when viem throws or
    rejects the signature the answer is the 400 error and the state is
    kept, when it accepts, the challenge is removed from the store. *)
Theorem challenge_lifetime
        (now : Z) (uuid address : string) (kv : KV) (db : PB)
        (req : VerifyRequest) (address' signature : string) (now' : Z) :
  address <> EmptyString ->
  Str.truthy (r_address req) = Some address' ->
  Str.truthy (r_signature req) = Some signature ->
  Str.toLowerCase address' = Str.toLowerCase address ->
  (now + 300000 <= now' ->
   verify_handler now' req
     (mkWorld (snd (nonce_handler now uuid (Some address) kv)) db)
   = (no_nonce, mkWorld (snd (nonce_handler now uuid (Some address) kv)) db))
  /\ (now' < now + 300000 ->
      exists n message,
        fst (nonce_handler now uuid (Some address) kv)
        = mkResponse (NonceIssued n message) 200
        /\ match verifyMessage address' message signature with
           | inl msg =>
               verify_handler now' req
                 (mkWorld (snd (nonce_handler now uuid (Some address) kv)) db)
               = (json_error ("Verification failed: " +:+ msg) 400,
                  mkWorld (snd (nonce_handler now uuid (Some address) kv)) db)
           | inr false =>
               verify_handler now' req
                 (mkWorld (snd (nonce_handler now uuid (Some address) kv)) db)
               = (json_error "Invalid signature" 400,
                  mkWorld (snd (nonce_handler now uuid (Some address) kv)) db)
           | inr true =>
               NONCES (snd (verify_handler now' req
                              (mkWorld (snd (nonce_handler now uuid (Some address) kv))
                                       db)))
               = delete (Str.toLowerCase address) kv
           end).
Proof.
  intros Hne Ha Hs Hlow.
  unfold nonce_handler. rewrite (truthy_Some _ Hne). cbn [fst snd].
  split.
  - intros Hlate. unfold verify_handler. cbn [NONCES]. rewrite Ha, Hs, Hlow.
    unfold kv_get, kv_put. rewrite lookup_insert_eq. cbn [kv_expiration].
    replace (now' <? now + 300 * 1000) with false
      by (symmetry; apply Z.ltb_ge; lia).
    reflexivity.
  - intros Hearly.
    exists (Str.jsSlice0 8 uuid), (signInMessage (Str.jsSlice0 8 uuid) now).
    split; [reflexivity |].
    assert (Hget : kv_get now'
                     (kv_put now (Str.toLowerCase address)
                        (mkNonceData (Str.jsSlice0 8 uuid) now) 300 kv)
                     (Str.toLowerCase address)
                   = Some (mkNonceData (Str.jsSlice0 8 uuid) now)).
    { unfold kv_get, kv_put. rewrite lookup_insert_eq. cbn [kv_expiration kv_value].
      replace (now' <? now + 300 * 1000) with true
        by (symmetry; apply Z.ltb_lt; lia).
      reflexivity. }
    unfold verify_handler. cbn [NONCES pb]. rewrite Ha, Hs, Hlow, Hget.
    cbn [nonce timestamp].
    destruct (verifyMessage address' _ signature) as [msg | []];
      try reflexivity.
    assert (Hdel : kv_delete (Str.toLowerCase address)
                     (kv_put now (Str.toLowerCase address)
                        (mkNonceData (Str.jsSlice0 8 uuid) now) 300 kv)
                   = delete (Str.toLowerCase address) kv)
      by (unfold kv_delete, kv_put; apply delete_insert_eq).
    destruct (getFirstListItem db _) as [oracle|].
    + exact (eq_trans (proj1 (respond_status _ _ _ _ _)) Hdel).
    + destruct (create db _) as [msg | [oracle db']].
      * exact Hdel.
      * exact (eq_trans (proj1 (respond_status _ _ _ _ _)) Hdel).
Qed.

(** X13: asking for a nonce again replaces the pending challenge of the
    address, for addresses in ASCII (two that differ only in the case of
    their letters share one entry): the store is the one a single, last
    request would have left, only the last nonce is readable, and the
    entries of all other keys are as they were. *)
Theorem nonce_reissue_replaces
        (now1 now2 : Z) (uuid1 uuid2 a1 a2 : string) (kv : KV) :
  a1 <> EmptyString -> a2 <> EmptyString ->
  Str.isASCII a1 = true -> Str.isASCII a2 = true ->
  Str.toLowerCase a1 = Str.toLowerCase a2 ->
  snd (nonce_handler now2 uuid2 (Some a2)
         (snd (nonce_handler now1 uuid1 (Some a1) kv)))
  = snd (nonce_handler now2 uuid2 (Some a2) kv)
  /\ (forall now',
        kv_get now'
          (snd (nonce_handler now2 uuid2 (Some a2)
                  (snd (nonce_handler now1 uuid1 (Some a1) kv))))
          (Str.toLowerCase a1)
        = if now' <? now2 + 300000
          then Some (mkNonceData (Str.jsSlice0 8 uuid2) now2) else None)
  /\ (forall now' k,
        k <> Str.toLowerCase a1 ->
        kv_get now'
          (snd (nonce_handler now2 uuid2 (Some a2)
                  (snd (nonce_handler now1 uuid1 (Some a1) kv)))) k
        = kv_get now' kv k).
Proof.
  intros H1 H2 _ _ Hlow. unfold nonce_handler.
  rewrite (truthy_Some _ H1), (truthy_Some _ H2). cbn [snd].
  unfold kv_get, kv_put. rewrite Hlow. repeat split.
  - apply insert_insert_eq.
  - intros now'. now rewrite lookup_insert_eq.
  - intros now' k Hk. now rewrite !lookup_insert_ne by congruence.
Qed.

End ChallengeFacts.

Lemma challenge_lifetime_witness :
  @Siwer.verify_handler Fixtures.viem _ Fixtures.pocketbase
    (Fixtures.now0 + 300000)
    (Siwer.mkVerifyRequest (Some "0x52908400098527886e0f7030069857d2e4169ee7")
       (Some "0xsigned") None)
    (Siwer.mkWorld
       (snd (Siwer.nonce_handler Fixtures.now0 Fixtures.uuid0
               (Some Fixtures.address0) ∅)) [])
  = (Siwer.no_nonce,
     Siwer.mkWorld
       (snd (Siwer.nonce_handler Fixtures.now0 Fixtures.uuid0
               (Some Fixtures.address0) ∅)) []).
Proof.
  apply (proj1 (@challenge_lifetime Fixtures.viem _ Fixtures.pocketbase
                  Fixtures.now0 Fixtures.uuid0 Fixtures.address0 ∅ []
                  (Siwer.mkVerifyRequest
                     (Some "0x52908400098527886e0f7030069857d2e4169ee7")
                     (Some "0xsigned") None)
                  "0x52908400098527886e0f7030069857d2e4169ee7" "0xsigned"
                  (Fixtures.now0 + 300000)
                  ltac:(discriminate) eq_refl eq_refl
                  ltac:(vm_compute; reflexivity))).
  unfold Fixtures.now0. lia.
Defined.

Lemma nonce_reissue_replaces_witness :
  snd (Siwer.nonce_handler (Fixtures.now0 + 60000)
         "9f8e7d6c-0000-4000-8000-000000000000"
         (Some "0x52908400098527886e0f7030069857d2e4169ee7")
         (snd (Siwer.nonce_handler Fixtures.now0 Fixtures.uuid0
                 (Some Fixtures.address0) ∅)))
  = snd (Siwer.nonce_handler (Fixtures.now0 + 60000)
           "9f8e7d6c-0000-4000-8000-000000000000"
           (Some "0x52908400098527886e0f7030069857d2e4169ee7") ∅).
Proof.
  apply (proj1 (nonce_reissue_replaces Fixtures.now0 (Fixtures.now0 + 60000)
                  Fixtures.uuid0 "9f8e7d6c-0000-4000-8000-000000000000"
                  Fixtures.address0 "0x52908400098527886e0f7030069857d2e4169ee7"
                  ∅ ltac:(discriminate) ltac:(discriminate)
                  ltac:(vm_compute; reflexivity) ltac:(vm_compute; reflexivity)
                  ltac:(vm_compute; reflexivity))).
Defined.

(** ** The wallet worker: linking a wallet to a named record *)

Section LinkFacts.
Import Siwer.
Context `{Viem} {PB : Type} `{PocketBase PB} `{PocketBaseAdmin PB}.

(** What a link call can do: it changes nothing, or the signature was
    verified against the stored challenge, the challenge is deleted, and
    the database is as it was or as the wallet update left it. *)
Lemma link_handler_cases (env : Env) (now : Z) (req : LinkRequest) (w : @World PB) :
  (link_status (fst (link_handler env now req w)) = 400
   /\ is_linked (fst (link_handler env now req w)) = false
   /\ snd (link_handler env now req w) = w)
  \/ (exists address signature oracleName d,
        Str.truthy (l_address req) = Some address
        /\ Str.truthy (l_signature req) = Some signature
        /\ Str.truthy (l_oracleName req) = Some oracleName
        /\ kv_get now (NONCES w) (Str.toLowerCase address) = Some d
        /\ verifyMessage address (signInMessage (nonce d) (timestamp d)) signature
           = inr true
        /\ NONCES (snd (link_handler env now req w))
           = kv_delete (Str.toLowerCase address) (NONCES w)
        /\ match getFirstListItem (pb w)
                   ("name = " +:+ String dquote oracleName
                      +:+ String dquote EmptyString) with
           | None =>
               fst (link_handler env now req w)
               = link_error ("Oracle " +:+ String dquote oracleName
                               +:+ String dquote " not found") 404
               /\ pb (snd (link_handler env now req w)) = pb w
           | Some oracle =>
               if bool_decide (wallet_address oracle = EmptyString)
                  || bool_decide (wallet_address oracle = Str.toLowerCase address)
               then
                 (is_linked (fst (link_handler env now req w)) = false
                  /\ link_status (fst (link_handler env now req w)) = 500)
                 \/ (exists token db',
                       updateWallet (pb w) (id oracle) (Str.toLowerCase address)
                         (Str.toLowerCase address) (Str.toLowerCase address)
                       = inr db'
                       /\ authWithPassword db' (Str.toLowerCase address)
                            (Str.toLowerCase address) = inr token
                       /\ pb (snd (link_handler env now req w)) = db'
                       /\ fst (link_handler env now req w)
                          = mkLinkResponse
                              (Linked (id oracle) (name oracle)
                                 (Str.toLowerCase address) (approved oracle) token)
                              200)
               else
                 fst (link_handler env now req w)
                 = link_error "Oracle already linked to different wallet" 400
                 /\ pb (snd (link_handler env now req w)) = pb w
           end).
Proof.
  unfold link_handler.
  destruct (Str.truthy (l_address req)) as [address|]; [| left; auto].
  destruct (Str.truthy (l_signature req)) as [signature|]; [| left; auto].
  destruct (Str.truthy (l_oracleName req)) as [oracleName|]; [| left; auto].
  destruct (kv_get now (NONCES w) (Str.toLowerCase address)) as [d|] eqn:Hget;
    [| left; auto].
  destruct (verifyMessage address _ signature) as [msg | []] eqn:Hv;
    try (left; auto; fail).
  right. exists address, signature, oracleName, d.
  repeat (split; [first [reflexivity | assumption] |]).
  split.
  { destruct (getFirstListItem (pb w) _) as [oracle|]; [| reflexivity].
    destruct (_ && _); [reflexivity |].
    destruct (superusersAuthWithPassword _ _ _); [reflexivity |].
    destruct (updateWallet _ _ _ _ _); [reflexivity |].
    destruct (authWithPassword _ _ _); reflexivity. }
  destruct (getFirstListItem (pb w) _) as [oracle|]; [| auto].
  destruct (wallet_address oracle) as [|c rest] eqn:Hw.
  - simpl.
    destruct (superusersAuthWithPassword _ _ _); [left; auto |].
    destruct (updateWallet _ _ _ _ _) as [msg | db'] eqn:Hu; [left; auto |].
    destruct (authWithPassword db' _ _) as [msg | token] eqn:Hauth; [left; auto |].
    right. exists token, db'. auto.
  - cbn [Str.truthy andb orb]. rewrite bool_decide_eq_false_2 by discriminate.
    cbn [orb].
    destruct (bool_decide (String c rest = Str.toLowerCase address)); cbn [negb];
      [| auto].
    destruct (superusersAuthWithPassword _ _ _); [left; auto |].
    destruct (updateWallet _ _ _ _ _) as [msg | db'] eqn:Hu; [left; auto |].
    destruct (authWithPassword db' _ _) as [msg | token] eqn:Hauth; [left; auto |].
    right. exists token, db'. auto.
Qed.

(** X14: linking never moves a record from one wallet to another.  The
    call answers [linked] only for a record found by its name whose
    wallet is empty or already the lower-cased address of the request,
    and then the answer carries that address and the database is the one
    the wallet update returned; for a record bound to a different wallet
    the call does not link and leaves the database as it was. *)
Theorem link_never_rebinds (env : Env) (now : Z) (req : LinkRequest) (w : @World PB) :
  (is_linked (fst (link_handler env now req w)) = true ->
   exists address oracleName oracle token db',
     Str.truthy (l_address req) = Some address
     /\ Str.truthy (l_oracleName req) = Some oracleName
     /\ getFirstListItem (pb w)
          ("name = " +:+ String dquote oracleName +:+ String dquote EmptyString)
        = Some oracle
     /\ (wallet_address oracle = EmptyString
         \/ wallet_address oracle = Str.toLowerCase address)
     /\ updateWallet (pb w) (id oracle) (Str.toLowerCase address)
          (Str.toLowerCase address) (Str.toLowerCase address) = inr db'
     /\ snd (link_handler env now req w)
        = mkWorld (kv_delete (Str.toLowerCase address) (NONCES w)) db'
     /\ fst (link_handler env now req w)
        = mkLinkResponse
            (Linked (id oracle) (name oracle) (Str.toLowerCase address)
                    (approved oracle) token) 200)
  /\ (forall address oracleName oracle,
        Str.truthy (l_address req) = Some address ->
        Str.truthy (l_oracleName req) = Some oracleName ->
        getFirstListItem (pb w)
          ("name = " +:+ String dquote oracleName +:+ String dquote EmptyString)
        = Some oracle ->
        wallet_address oracle <> EmptyString ->
        wallet_address oracle <> Str.toLowerCase address ->
        is_linked (fst (link_handler env now req w)) = false
        /\ pb (snd (link_handler env now req w)) = pb w).
Proof.
  destruct (link_handler_cases env now req w)
    as [(H400 & Hno & Hsame)
       | (address & signature & oracleName & d & Ha & Hs & Hn & Hget & Hv & Hkv
          & Hrest)].
  - split; [congruence |]. intros. rewrite Hsame. auto.
  - destruct (getFirstListItem (pb w) _) as [oracle|] eqn:Hfind.
    + destruct (bool_decide (wallet_address oracle = EmptyString)
                || bool_decide (wallet_address oracle = Str.toLowerCase address))
        eqn:Hfree.
      * split.
        -- intros Hyes.
           destruct Hrest as [[Hno _] | (token & db' & Hu & Hauth & Hpb & Hresp)];
             [congruence |].
           exists address, oracleName, oracle, token, db'.
           repeat (split; [first [reflexivity | assumption] |]).
           split.
           { apply orb_prop in Hfree as [E | E]; apply bool_decide_eq_true in E; auto. }
           split; [exact Hu |]. split; [| exact Hresp].
           destruct (snd (link_handler env now req w)) as [kv' pb'].
           simpl in Hkv, Hpb. now subst.
        -- intros address' oracleName' oracle' Ha' Hn' Hfind' Hne1 Hne2.
           rewrite Ha in Ha'. injection Ha' as <-.
           rewrite Hn in Hn'. injection Hn' as <-.
           rewrite Hfind in Hfind'. injection Hfind' as <-.
           apply orb_prop in Hfree as [E | E]; apply bool_decide_eq_true in E;
             contradiction.
      * destruct Hrest as [Hresp Hpb]. split.
        -- rewrite Hresp. discriminate.
        -- intros. rewrite Hresp. auto.
    + destruct Hrest as [Hresp Hpb]. split.
      * rewrite Hresp. discriminate.
      * intros address' oracleName' oracle' Ha' Hn' Hfind'.
        rewrite Ha in Ha'. injection Ha' as <-.
        rewrite Hn in Hn'. injection Hn' as <-.
        rewrite Hfind in Hfind'. discriminate.
Qed.

(** X15: a link call whose signature was verified uses up the challenge
    of the address whatever it answers then (linked, record not found,
    bound to another wallet, update or sign-in failed): the same request
    sent again, and any [/verify] request for the address, are answered
    that no nonce was found and change nothing.  A link call changes the
    state in no other case. *)
Theorem link_consumes_challenge
        (env : Env) (now : Z) (req : LinkRequest) (w : @World PB) :
  (snd (link_handler env now req w) <> w ->
   exists address signature d,
     Str.truthy (l_address req) = Some address
     /\ Str.truthy (l_signature req) = Some signature
     /\ kv_get now (NONCES w) (Str.toLowerCase address) = Some d
     /\ verifyMessage address (signInMessage (nonce d) (timestamp d)) signature
        = inr true)
  /\ (forall address signature d,
        Str.truthy (l_address req) = Some address ->
        Str.truthy (l_signature req) = Some signature ->
        Str.truthy (l_oracleName req) <> None ->
        kv_get now (NONCES w) (Str.toLowerCase address) = Some d ->
        verifyMessage address (signInMessage (nonce d) (timestamp d)) signature
        = inr true ->
        NONCES (snd (link_handler env now req w))
        = kv_delete (Str.toLowerCase address) (NONCES w)
        /\ (forall env' now',
              link_handler env' now' req (snd (link_handler env now req w))
              = (link_error "No nonce found. Call /nonce first" 400,
                 snd (link_handler env now req w)))
        /\ (forall now' signature' name',
              Str.truthy signature' <> None ->
              verify_handler now'
                (mkVerifyRequest (l_address req) signature' name')
                (snd (link_handler env now req w))
              = (no_nonce, snd (link_handler env now req w)))).
Proof.
  destruct (link_handler_cases env now req w)
    as [(H400 & Hno & Hsame)
       | (address & signature & oracleName & d & Ha & Hs & Hn & Hget & Hv & Hkv
          & Hrest)].
  - split; [congruence |].
    intros address signature d Ha Hs Hn Hget Hv. exfalso.
    revert H400 Hno Hsame. unfold link_handler. rewrite Ha, Hs.
    destruct (Str.truthy (l_oracleName req)) as [oracleName|]; [| congruence].
    rewrite Hget, Hv. cbn zeta. intros _ _ Hsame.
    assert (Hkv : NONCES w = kv_delete (Str.toLowerCase address) (NONCES w)).
    { rewrite <- Hsame at 1.
      destruct (getFirstListItem (pb w) _) as [oracle|]; [| reflexivity].
      destruct (_ && _); [reflexivity |].
      destruct (superusersAuthWithPassword _ _ _); [reflexivity |].
      destruct (updateWallet _ _ _ _ _); [reflexivity |].
      destruct (authWithPassword _ _ _); reflexivity. }
    pose proof (kv_get_delete now (NONCES w) (Str.toLowerCase address)) as Hgone.
    rewrite <- Hkv in Hgone. congruence.
  - split; [intros _; exists address, signature, d; auto |].
    intros address' signature' d' Ha' Hs' _ _ _.
    rewrite Ha in Ha'. injection Ha' as <-.
    rewrite Hs in Hs'. injection Hs' as <-.
    set (w' := snd (link_handler env now req w)) in *.
    assert (Hgone : forall now', kv_get now' (NONCES w') (Str.toLowerCase address) = None)
      by (intros now'; rewrite Hkv; apply kv_get_delete).
    split; [exact Hkv |]. split.
    + intros env' now'. unfold link_handler. now rewrite Ha, Hs, Hn, Hgone.
    + intros now' signature' name' Hsig. unfold verify_handler. simpl.
      rewrite Ha. destruct (Str.truthy signature'); [| congruence].
      now rewrite Hgone.
Qed.

End LinkFacts.

Lemma link_never_rebinds_witness :
  exists address oracleName oracle token db',
    Str.truthy (Siwer.l_address (Fixtures.link_request "Iris")) = Some address
    /\ Str.truthy (Siwer.l_oracleName (Fixtures.link_request "Iris"))
       = Some oracleName
    /\ @Siwer.getFirstListItem _ Fixtures.pocketbase_named
         (Siwer.pb Fixtures.world_named)
         ("name = " +:+ String Siwer.dquote oracleName
            +:+ String Siwer.dquote EmptyString)
       = Some oracle
    /\ (Siwer.wallet_address oracle = EmptyString
        \/ Siwer.wallet_address oracle = Str.toLowerCase address)
    /\ @Siwer.updateWallet _ Fixtures.pocketbase_admin
         (Siwer.pb Fixtures.world_named) (Siwer.id oracle)
         (Str.toLowerCase address) (Str.toLowerCase address)
         (Str.toLowerCase address) = inr db'
    /\ snd (@Siwer.link_handler Fixtures.viem _ Fixtures.pocketbase_named
              Fixtures.pocketbase_admin Fixtures.env0 (Fixtures.now0 + 5)
              (Fixtures.link_request "Iris") Fixtures.world_named)
       = Siwer.mkWorld
           (Siwer.kv_delete (Str.toLowerCase address)
              (Siwer.NONCES Fixtures.world_named)) db'
    /\ fst (@Siwer.link_handler Fixtures.viem _ Fixtures.pocketbase_named
              Fixtures.pocketbase_admin Fixtures.env0 (Fixtures.now0 + 5)
              (Fixtures.link_request "Iris") Fixtures.world_named)
       = Siwer.mkLinkResponse
           (Siwer.Linked (Siwer.id oracle) (Siwer.name oracle)
              (Str.toLowerCase address) (Siwer.approved oracle) token) 200.
Proof.
  apply (proj1 (@link_never_rebinds Fixtures.viem _ Fixtures.pocketbase_named
                  Fixtures.pocketbase_admin Fixtures.env0 (Fixtures.now0 + 5)
                  (Fixtures.link_request "Iris") Fixtures.world_named)).
  vm_compute. reflexivity.
Defined.

(** The challenge of [address0] is used up by a link call that is refused
    because the record is bound to another wallet. *)
Lemma link_consumes_challenge_witness :
  Siwer.link_status
    (fst (@Siwer.link_handler Fixtures.viem _ Fixtures.pocketbase_named
            Fixtures.pocketbase_admin Fixtures.env0 (Fixtures.now0 + 5)
            (Fixtures.link_request "Nova") Fixtures.world_named)) = 400
  /\ forall now' signature' name',
       Str.truthy signature' <> None ->
       @Siwer.verify_handler Fixtures.viem _ Fixtures.pocketbase_named now'
         (Siwer.mkVerifyRequest
            (Siwer.l_address (Fixtures.link_request "Nova")) signature' name')
         (snd (@Siwer.link_handler Fixtures.viem _ Fixtures.pocketbase_named
                 Fixtures.pocketbase_admin Fixtures.env0 (Fixtures.now0 + 5)
                 (Fixtures.link_request "Nova") Fixtures.world_named))
       = (Siwer.no_nonce,
          snd (@Siwer.link_handler Fixtures.viem _ Fixtures.pocketbase_named
                 Fixtures.pocketbase_admin Fixtures.env0 (Fixtures.now0 + 5)
                 (Fixtures.link_request "Nova") Fixtures.world_named)).
Proof.
  split; [vm_compute; reflexivity |].
  apply (proj2 (@link_consumes_challenge Fixtures.viem _ Fixtures.pocketbase_named
                  Fixtures.pocketbase_admin Fixtures.env0 (Fixtures.now0 + 5)
                  (Fixtures.link_request "Nova") Fixtures.world_named)
           Fixtures.address0 "0xsigned"
           (Siwer.mkNonceData "3b241101" Fixtures.now0)).
  - reflexivity.
  - reflexivity.
  - discriminate.
  - vm_compute. reflexivity.
  - vm_compute. reflexivity.
Defined.

(** ** The explorer page: layers, paths and captions *)

Section LayerFacts.
Import Explorer.

Lemma widths_loop_shape (fuel : nat) :
  forall remaining w k x,
    (remaining <= fuel)%nat -> (1 <= w)%nat ->
    widths_loop fuel remaining w !! k = Some x ->
    (0 < x <= w * 2 ^ k)%nat
    /\ (is_Some (widths_loop fuel remaining w !! S k) -> x = (w * 2 ^ k)%nat).
Proof.
  induction fuel as [|fuel IH]; intros remaining w k x Hf Hw Hk;
    cbn [widths_loop] in *; [discriminate |].
  destruct (0 <? remaining)%nat eqn:E; [| discriminate].
  apply Nat.ltb_lt in E. destruct k as [|k].
  - injection Hk as <-. rewrite Nat.pow_0_r, Nat.mul_1_r. split; [lia |].
    intros [y Hy]. change (widths_loop fuel (remaining - Nat.min w remaining)
                                       (w * 2) !! 0%nat = Some y) in Hy.
    destruct fuel as [|fuel]; [discriminate |]. cbn [widths_loop] in Hy.
    destruct (0 <? remaining - Nat.min w remaining)%nat eqn:E'; [| discriminate].
    apply Nat.ltb_lt in E'. lia.
  - change (widths_loop fuel (remaining - Nat.min w remaining) (w * 2) !! k
            = Some x) in Hk.
    destruct (IH (remaining - Nat.min w remaining)%nat (w * 2)%nat k x
                 ltac:(lia) ltac:(lia) Hk) as [Hx Hfull].
    rewrite Nat.pow_succ_r'.
    replace (w * (2 * 2 ^ k))%nat with (w * 2 * 2 ^ k)%nat by lia.
    split; [exact Hx |]. intros Hnext. apply Hfull. exact Hnext.
Qed.

Lemma slice_layers_lengths (widths : list nat) :
  forall (idx : nat) (treeValues : list string),
    (idx + sum_list widths <= length treeValues)%nat ->
    map length (slice_layers treeValues idx widths) = widths.
Proof.
  induction widths as [|size widths IH]; intros idx treeValues Hfit;
    [reflexivity |].
  change (sum_list (size :: widths)) with (size + sum_list widths)%nat in Hfit.
  cbn [slice_layers map].
  f_equal.
  - rewrite length_take, length_drop. lia.
  - apply IH. lia.
Qed.

(** No layer is empty, layer [k] holds at most [2^k] nodes, and every
    layer but the last holds exactly [2^k]. *)
Lemma computeTreeLayers_widths `{StandardMerkleTree} (leaves : list LeafData) :
  forall k l,
    layers (computeTreeLayers leaves) !! k = Some l ->
    (0 < length l <= 2 ^ k)%nat
    /\ (is_Some (layers (computeTreeLayers leaves) !! S k) ->
        length l = (2 ^ k)%nat).
Proof.
  unfold computeTreeLayers. destruct leaves as [|l0 leaves]; [discriminate |].
  destruct (foldl _ _ _) as [names indices]. cbn [layers].
  set (treeValues := tree (of_dump _)).
  set (widths := widths_loop (length treeValues) (length treeValues) 1).
  assert (Hlen : map length (slice_layers treeValues 0 widths) = widths).
  { apply slice_layers_lengths. subst widths.
    rewrite widths_loop_sum by lia. lia. }
  intros k l Hk.
  assert (Hw : widths !! k = Some (length l)).
  { rewrite <- Hlen.
    change (map (@length string)) with (fmap (M := list) (@length string)).
    rewrite list_lookup_fmap, Hk. reflexivity. }
  destruct (widths_loop_shape _ _ _ _ _ (Nat.le_refl _) (Nat.le_refl 1) Hw)
    as [Hx Hfull].
  rewrite Nat.mul_1_l in Hx, Hfull. split; [exact Hx |].
  intros [l' Hl']. apply Hfull. exists (length l').
  fold widths. rewrite <- Hlen.
  change (map (@length string)) with (fmap (M := list) (@length string)).
  rewrite list_lookup_fmap, Hl'. reflexivity.
Qed.

(** X16: the layers the page draws cut the flat array of the package
    into consecutive pieces, the root first: put end to end they are the
    flat array, no layer is empty, layer [k] holds at most [2^k] nodes,
    and every layer but the last holds exactly [2^k]. *)
Theorem explorer_layers_partition `{StandardMerkleTree} (leaves : list LeafData) :
  concat (layers (computeTreeLayers leaves)) = flatTree (computeTreeLayers leaves)
  /\ forall k l,
       layers (computeTreeLayers leaves) !! k = Some l ->
       (0 < length l <= 2 ^ k)%nat
       /\ (is_Some (layers (computeTreeLayers leaves) !! S k) ->
           length l = (2 ^ k)%nat).
Proof.
  split; [apply computeTreeLayers_concat | apply computeTreeLayers_widths].
Qed.

Lemma sibling_node_steps (flatLen : nat) (m : gmap nat (nat * nat))
      (current st : nat) :
  map step (fst (sibling_node flatLen m current st))
  = seq st (length (fst (sibling_node flatLen m current st)))
  /\ snd (sibling_node flatLen m current st)
     = (st + length (fst (sibling_node flatLen m current st)))%nat
  /\ Forall (fun n => role n = sibling) (fst (sibling_node flatLen m current st)).
Proof.
  unfold sibling_node.
  destruct (_ && _); [| simpl; repeat split; [lia | constructor]].
  destruct (m !! _) as [pos|]; simpl; repeat split; try lia.
  - repeat constructor.
  - constructor.
Qed.

Lemma parent_node_steps (m : gmap nat (nat * nat)) (current st : nat) :
  map step (fst (parent_node m current st))
  = seq st (length (fst (parent_node m current st)))
  /\ snd (parent_node m current st)
     = (st + length (fst (parent_node m current st)))%nat.
Proof.
  unfold parent_node.
  destruct (m !! _) as [pos|]; simpl; repeat split; lia.
Qed.

Lemma climb_steps (flatLen : nat) (m : gmap nat (nat * nat)) :
  forall current st,
    map step (climb flatLen m current st)
    = seq st (length (climb flatLen m current st)).
Proof.
  intros current.
  induction current as [current IH] using (well_founded_induction lt_wf).
  intros st. destruct current as [|c]; simp climb; [reflexivity |].
  destruct (sibling_node_steps flatLen m (S c) st) as (Hs1 & Hs2 & _).
  destruct (parent_node_steps m (S c) (snd (sibling_node flatLen m (S c) st)))
    as (Hp1 & Hp2).
  assert (Hp : ((S c - 1) / 2 < S c)%nat)
    by (apply Nat.Div0.div_lt_upper_bound; lia).
  rewrite !map_app, !length_app, !seq_app, Hs1, Hp1, (IH _ Hp).
  rewrite Hp2, Hs2. reflexivity.
Qed.

Lemma computeProofPath_steps (flatTree : list string) (valueMap : list nat)
      (leafIndex : nat) (treeLayers : list (list string)) :
  map step (computeProofPath flatTree valueMap leafIndex treeLayers)
  = seq 0 (length (computeProofPath flatTree valueMap leafIndex treeLayers)).
Proof.
  unfold computeProofPath.
  destruct (_ || _); [reflexivity |].
  destruct (valueMap !! leafIndex) as [treeIndex|]; [| reflexivity].
  destruct (treeIndex =? 0)%nat; [reflexivity |].
  destruct (index_layers treeLayers 0 0 ∅ !! treeIndex) as [leafPos|];
    [| reflexivity].
  cbn [map length seq step]. now rewrite climb_steps.
Qed.

(** X17: the nodes of a proof path carry the step numbers 0, 1, 2, ...
    in path order, without gap or repetition, whatever the arguments;
    a leaf index outside the value map, or a tree without layers, gives
    the empty path. *)
Theorem explorer_path_steps (flatTree : list string) (valueMap : list nat)
        (leafIndex : nat) (treeLayers : list (list string)) :
  map step (computeProofPath flatTree valueMap leafIndex treeLayers)
  = seq 0 (length (computeProofPath flatTree valueMap leafIndex treeLayers))
  /\ ((length valueMap <= leafIndex)%nat ->
      computeProofPath flatTree valueMap leafIndex treeLayers = [])
  /\ computeProofPath flatTree valueMap leafIndex [] = [].
Proof.
  split; [apply computeProofPath_steps |]. split.
  - intros Hout. unfold computeProofPath.
    replace (length valueMap <=? leafIndex)%nat with true
      by (symmetry; apply Nat.leb_le; exact Hout).
    reflexivity.
  - unfold computeProofPath. cbn [length Nat.eqb]. now rewrite orb_true_r.
Qed.

Lemma find_by_step (l : list ProofPathNode) :
  forall s k,
    map step l = seq s (length l) ->
    List.find (fun n => (step n =? s + k)%nat) l = l !! k.
Proof.
  induction l as [|a l IH]; intros s k Hl; [reflexivity |].
  cbn [map length seq] in Hl. injection Hl as Ha Hl. cbn [List.find].
  destruct k as [|k].
  - rewrite Nat.add_0_r, Ha, Nat.eqb_refl. reflexivity.
  - replace (step a =? s + S k)%nat with false
      by (symmetry; apply Nat.eqb_neq; lia).
    replace (s + S k)%nat with (S s + k)%nat by lia.
    now apply IH.
Qed.

(** X18: the caption of animation step [k] of a computed proof path is
    the caption of the role of its [k]-th node, and the empty text from
    the length of the path on: [getStepDescription] looks a node up by
    its step number, and the step numbers are the positions. *)
Theorem step_caption_of_position (flatTree : list string) (valueMap : list nat)
        (leafIndex : nat) (treeLayers : list (list string)) (k : nat) :
  getStepDescription (computeProofPath flatTree valueMap leafIndex treeLayers) k
  = match computeProofPath flatTree valueMap leafIndex treeLayers !! k with
    | Some node => describe (role node)
    | None => EmptyString
    end.
Proof.
  unfold getStepDescription.
  now rewrite (find_by_step _ 0 k (computeProofPath_steps _ _ _ _)).
Qed.

(** X19: [shortHash] returns a text of less than twelve characters as it
    is, and cuts a longer one to thirteen characters: its first six, three
    dots, its last four. *)
Theorem shortHash_shape (hash : string) :
  ((String.length hash < 12)%nat -> shortHash hash = hash)
  /\ ((12 <= String.length hash)%nat ->
      exists a mid b,
        hash = a +:+ mid +:+ b
        /\ String.length a = 6%nat /\ String.length b = 4%nat
        /\ shortHash hash = a +:+ "..." +:+ b
        /\ String.length (shortHash hash) = 13%nat).
Proof.
  unfold shortHash. split.
  - intros Hlt. now replace (String.length hash <? 12)%nat with true
      by (symmetry; apply Nat.ltb_lt; exact Hlt).
  - intros Hge. replace (String.length hash <? 12)%nat with false
      by (symmetry; apply Nat.ltb_ge; exact Hge).
    destruct hash as [|c0 hash]; [simpl in Hge; lia |].
    destruct hash as [|c1 hash]; [simpl in Hge; lia |].
    destruct hash as [|c2 hash]; [simpl in Hge; lia |].
    destruct hash as [|c3 hash]; [simpl in Hge; lia |].
    destruct hash as [|c4 hash]; [simpl in Hge; lia |].
    destruct hash as [|c5 hash]; [simpl in Hge; lia |].
    cbn [String.substring String.append].
    set (a := String c0 (String c1 (String c2 (String c3 (String c4
              (String c5 EmptyString)))))).
    assert (Hrest : (6 <= String.length hash)%nat) by (simpl in Hge; lia).
    clear Hge.
    assert (Hcut : exists mid b,
               hash = mid +:+ b /\ String.length b = 4%nat
               /\ String.substring (String.length hash - 4) 4 hash = b).
    { assert (Hgen : forall n s, String.length s = (n + 4)%nat ->
                 exists mid b, s = mid +:+ b /\ String.length b = 4%nat
                               /\ String.substring n 4 s = b).
      { induction n as [|n IHn]; intros s Hs.
        - exists EmptyString, s. repeat split; [exact Hs |].
          do 4 (destruct s as [|? s]; [discriminate |]).
          destruct s; [reflexivity | discriminate].
        - destruct s as [|c s]; [discriminate |].
          destruct (IHn s ltac:(simpl in Hs; lia)) as (mid & b & -> & Hb & Hsub).
          exists (String c mid), b. repeat split; assumption. }
      destruct (Hgen (String.length hash - 4)%nat hash ltac:(lia))
        as (mid & b & E & Hb & Hsub).
      exists mid, b. auto. }
    destruct Hcut as (mid & b & Hhash & Hb & Hsub).
    exists a, mid, b.
    replace (String.length (String c0 (String c1 (String c2 (String c3 (String c4
              (String c5 hash)))))) - 4)%nat
      with (6 + (String.length hash - 4))%nat by (simpl; lia).
    cbn [String.substring Nat.add].
    rewrite Hsub. subst a.
    assert (H00 : String.substring 0 0 hash = EmptyString)
      by (destruct hash; reflexivity).
    rewrite H00. cbn [String.append String.length].
    repeat split; try assumption.
    + now rewrite <- Hhash.
    + rewrite Hb. reflexivity.
Qed.

End LayerFacts.

Lemma shortHash_shape_witness :
  exists a mid b,
    "0x52908400098527886E0F7030069857D2E4169EE7" = a +:+ mid +:+ b
    /\ String.length a = 6%nat /\ String.length b = 4%nat
    /\ Explorer.shortHash "0x52908400098527886E0F7030069857D2E4169EE7"
       = a +:+ "..." +:+ b
    /\ String.length
         (Explorer.shortHash "0x52908400098527886E0F7030069857D2E4169EE7")
       = 13%nat.
Proof.
  apply (proj2 (shortHash_shape "0x52908400098527886E0F7030069857D2E4169EE7")).
  simpl. lia.
Defined.

Lemma explorer_path_steps_witness :
  Explorer.computeProofPath ["r"; "a"; "b"] [1%nat; 2%nat] 2 [["r"]; ["a"; "b"]] = [].
Proof.
  apply (proj1 (proj2 (explorer_path_steps ["r"; "a"; "b"] [1%nat; 2%nat] 2
                         [["r"]; ["a"; "b"]]))).
  simpl. lia.
Defined.

Lemma explorer_layers_partition_witness :
  (0 < length ["n1"; "c"] <= 2 ^ 1)%nat.
Proof.
  apply (proj2 (@explorer_layers_partition
                  {| Explorer.of_dump _ :=
                       Explorer.mkDump ["r"; "n1"; "c"; "b"; "a"] [] |}
                  [Explorer.mkLeafData "0xAA" "u" 1 "A"]) 1%nat ["n1"; "c"]).
  vm_compute. reflexivity.
Defined.

Section PathFacts.
Import Explorer.
Context `{StandardMerkleTree}.

Lemma layers_first (leaves : list LeafData) (x : string) :
  flatTree (computeTreeLayers leaves) !! 0%nat = Some x ->
  layers (computeTreeLayers leaves) !! 0%nat = Some [x].
Proof.
  intros Hx.
  pose proof (computeTreeLayers_concat leaves) as Hcat.
  pose proof (computeTreeLayers_widths leaves) as Hshape.
  destruct (layers (computeTreeLayers leaves)) as [|l0 rest] eqn:El.
  - simpl in Hcat. rewrite <- Hcat in Hx. discriminate.
  - destruct (Hshape 0%nat l0 eq_refl) as [Hlen _].
    destruct l0 as [|y [|z l0]]; simpl in Hlen; try lia.
    rewrite <- Hcat in Hx. simpl in Hx. now injection Hx as ->.
Qed.

(** The walk from a node other than the root ends with the one node that
    has the role [root], which shows the hash at index 0. *)
Lemma climb_ends_at_root (flatTree : list string) (treeLayers : list (list string)) :
  concat treeLayers = flatTree ->
  forall current st,
    (0 < current < length flatTree)%nat ->
    exists pre n,
      climb (length flatTree) (index_layers treeLayers 0 0 ∅) current st
      = pre ++ [n]
      /\ role n = root
      /\ nodeHash treeLayers n = flatTree !! 0%nat
      /\ Forall (fun x => role x <> root) pre.
Proof.
  intros Hcat current.
  induction current as [current IH] using (well_founded_induction lt_wf).
  intros st [Hpos Hlt]. destruct current as [|c]; [lia |]. simp climb.
  set (m := index_layers treeLayers 0 0 ∅) in *.
  set (p := ((S c - 1) / 2)%nat) in *.
  assert (Hp : (p < S c)%nat) by (subst p; apply Nat.Div0.div_lt_upper_bound; lia).
  destruct (sibling_node_steps (length flatTree) m (S c) st) as (_ & _ & Hsib).
  set (sib := sibling_node (length flatTree) m (S c) st) in *.
  assert (Hsib' : Forall (fun x => role x <> root) (fst sib)).
  { eapply Forall_impl; [exact Hsib |]. intros x Hx. simpl in Hx.
    rewrite Hx. discriminate. }
  destruct (lookup_lt_is_Some_2 flatTree p ltac:(lia)) as [hp Hhp].
  pose proof Hhp as Hhp'. rewrite <- Hcat in Hhp'.
  unfold parent_node. fold p.
  destruct (p =? 0)%nat eqn:E0.
  - apply Nat.eqb_eq in E0.
    destruct (index_layers_node treeLayers p hp root (snd sib) Hhp')
      as (pos & Hm & Hn).
    fold m in Hm. rewrite Hm. cbn [fst snd]. rewrite E0. simp climb.
    exists (fst sib), (mkNode (fst pos) (snd pos) root (snd sib)).
    rewrite E0 in Hhp.
    split; [now rewrite app_nil_r |]. split; [reflexivity |].
    split; [now rewrite Hn, Hhp | exact Hsib'].
  - apply Nat.eqb_neq in E0.
    destruct (index_layers_node treeLayers p hp computed (snd sib) Hhp')
      as (pos & Hm & Hn).
    fold m in Hm. rewrite Hm. cbn [fst snd].
    destruct (IH p Hp (S (snd sib)) ltac:(lia)) as (pre & n & Hclimb & Hrole & Hhash & Hpre).
    rewrite Hclimb.
    exists (fst sib ++ [mkNode (fst pos) (snd pos) computed (snd sib)] ++ pre), n.
    split; [now rewrite <- !app_assoc |].
    split; [exact Hrole |]. split; [exact Hhash |].
    apply Forall_app. split; [exact Hsib' |].
    apply Forall_app. split; [| exact Hpre].
    repeat constructor. discriminate.
Qed.

(** X20: the proof path of a leaf that the value map sends into the flat
    array is never empty and ends with its only [root] node, which shows
    the root hash of the flat array; for a tree of more than one node it
    starts with the [leaf] node, which shows the hash of the leaf. *)
Theorem explorer_path_ends_at_root (leaves : list LeafData)
        (leafIndex treeIndex : nat) (h : string) :
  valueMap (computeTreeLayers leaves) !! leafIndex = Some treeIndex ->
  flatTree (computeTreeLayers leaves) !! treeIndex = Some h ->
  exists pre n,
    computeProofPath (flatTree (computeTreeLayers leaves))
      (valueMap (computeTreeLayers leaves)) leafIndex
      (layers (computeTreeLayers leaves))
    = pre ++ [n]
    /\ role n = root
    /\ nodeHash (layers (computeTreeLayers leaves)) n
       = flatTree (computeTreeLayers leaves) !! 0%nat
    /\ Forall (fun x => role x <> root) pre
    /\ (treeIndex <> 0%nat ->
        exists n0 rest,
          pre = n0 :: rest /\ role n0 = leaf
          /\ nodeHash (layers (computeTreeLayers leaves)) n0 = Some h).
Proof.
  intros Hleaf Hh.
  pose proof (computeTreeLayers_concat leaves) as Hcat.
  set (r := computeTreeLayers leaves) in *.
  unfold computeProofPath.
  pose proof (lookup_lt_Some _ _ _ Hleaf) as Hlt.
  pose proof (lookup_lt_Some _ _ _ Hh) as Hlt'.
  replace (length (valueMap r) <=? leafIndex)%nat with false
    by (symmetry; apply Nat.leb_gt; lia).
  assert (Hne : (length (layers r) =? 0)%nat = false).
  { apply Nat.eqb_neq. intros E. apply length_zero_iff_nil in E.
    rewrite E in Hcat. simpl in Hcat. rewrite <- Hcat in Hh. discriminate. }
  rewrite Hne, Hleaf. cbn [orb].
  destruct (treeIndex =? 0)%nat eqn:E0.
  - apply Nat.eqb_eq in E0. subst treeIndex.
    exists [], (mkNode 0 0 root 0).
    split; [reflexivity |]. split; [reflexivity |].
    split; [| split; [constructor | congruence]].
    unfold nodeHash. cbn [layer position].
    unfold r in *. rewrite (layers_first leaves h Hh). simpl. now rewrite Hh.
  - apply Nat.eqb_neq in E0.
    pose proof Hh as Hh'. rewrite <- Hcat in Hh'.
    destruct (index_layers_node (layers r) _ _ leaf 0%nat Hh') as (pos & Hm & Hn).
    rewrite Hm.
    destruct (climb_ends_at_root (flatTree r) (layers r) Hcat treeIndex 1%nat
                ltac:(lia)) as (pre & n & Hclimb & Hrole & Hhash & Hpre).
    rewrite Hclimb.
    exists (mkNode (fst pos) (snd pos) leaf 0 :: pre), n.
    split; [reflexivity |]. split; [exact Hrole |]. split; [exact Hhash |].
    split.
    + constructor; [discriminate | exact Hpre].
    + intros _. exists (mkNode (fst pos) (snd pos) leaf 0), pre. auto.
Qed.

Section Fold.
Variable combine : string -> string -> string.
Hypothesis combine_comm : forall a b, combine a b = combine b a.

Lemma climb_folds (flatTree : list string) (treeLayers : list (list string)) :
  hashed_pairs combine flatTree -> concat treeLayers = flatTree ->
  forall current st h,
    flatTree !! current = Some h ->
    exists r, flatTree !! 0%nat = Some r
              /\ fold_left combine
                   (siblingHashes treeLayers
                      (climb (length flatTree) (index_layers treeLayers 0 0 ∅)
                             current st)) h = r.
Proof.
  intros [Hodd Hpair] Hcat current.
  induction current as [current IH] using (well_founded_induction lt_wf).
  intros st h Hcur. destruct current as [|c].
  - simp climb. exists h. split; [exact Hcur | reflexivity].
  - simp climb.
    pose proof (lookup_lt_Some _ _ _ Hcur) as Hlt.
    set (m := index_layers treeLayers 0 0 ∅) in *.
    set (p := ((S c - 1) / 2)%nat) in *.
    assert (Hp : (p < S c)%nat) by (subst p; apply Nat.Div0.div_lt_upper_bound; lia).
    assert (Hsib : exists s hs,
               flatTree !! s = Some hs
               /\ fst (sibling_node (length flatTree) m (S c) st)
                  = [mkNode (fst (default (0, 0)%nat (m !! s)))
                            (snd (default (0, 0)%nat (m !! s))) sibling st]
               /\ nodeHash treeLayers
                    (mkNode (fst (default (0, 0)%nat (m !! s)))
                            (snd (default (0, 0)%nat (m !! s))) sibling st)
                  = Some hs
               /\ flatTree !! p = Some (combine h hs)).
    { unfold sibling_node.
      destruct (S c mod 2 =? 1)%nat eqn:Emod.
      - apply Nat.eqb_eq in Emod.
        pose proof (odd_length_sibling _ _ Hodd Hlt Emod) as Hs.
        destruct (lookup_lt_is_Some_2 flatTree (S c + 1)%nat Hs) as [hs Hhs].
        exists (S c + 1)%nat, hs. split; [exact Hhs |].
        replace ((0 <? S c + 1)%nat && (S c + 1 <? length flatTree)%nat) with true
          by (symmetry; apply andb_true_intro; split; apply Nat.ltb_lt; lia).
        rewrite <- Hcat in Hhs.
        destruct (index_layers_node treeLayers _ _ sibling st Hhs) as (pos & Hm & Hn).
        fold m in Hm. rewrite Hm. simpl. split; [reflexivity |].
        split; [exact Hn |].
        rewrite Hcat in Hhs. apply Hpair.
        + subst p. rewrite (parent_of_odd _ Emod). exact Hcur.
        + subst p. replace (2 * ((S c - 1) / 2) + 2)%nat with (S c + 1)%nat
            by (pose proof (parent_of_odd _ Emod); lia).
          exact Hhs.
      - apply Nat.eqb_neq in Emod.
        assert (Hs : (S c - 1 < length flatTree)%nat) by lia.
        assert (Hpos : (0 < S c - 1)%nat)
          by (destruct c; [contradiction Emod; reflexivity | lia]).
        destruct (lookup_lt_is_Some_2 flatTree (S c - 1)%nat Hs) as [hs Hhs].
        exists (S c - 1)%nat, hs. split; [exact Hhs |].
        replace ((0 <? S c - 1)%nat && (S c - 1 <? length flatTree)%nat) with true
          by (symmetry; apply andb_true_intro; split; apply Nat.ltb_lt; lia).
        rewrite <- Hcat in Hhs.
        destruct (index_layers_node treeLayers _ _ sibling st Hhs) as (pos & Hm & Hn).
        fold m in Hm. rewrite Hm. simpl. split; [reflexivity |].
        split; [exact Hn |].
        rewrite Hcat in Hhs. rewrite combine_comm. apply Hpair.
        + subst p. replace (2 * ((S c - 1) / 2) + 1)%nat with (S c - 1)%nat
            by (pose proof (parent_of_even (S c) ltac:(lia) Emod); lia).
          exact Hhs.
        + subst p. rewrite (parent_of_even (S c)) by (lia || exact Emod).
          exact Hcur. }
    destruct Hsib as (s & hs & Hhs & Hnode & Hhash & Hparent).
    destruct (IH p Hp (snd (parent_node m (S c)
                              (snd (sibling_node (length flatTree) m (S c) st))))
                 _ Hparent) as (r & Hr & Hfold).
    exists r. split; [exact Hr |].
    rewrite !siblingHashes_app, Hnode.
    assert (Hpar : siblingHashes treeLayers
                     (fst (parent_node m (S c)
                             (snd (sibling_node (length flatTree) m (S c) st))))
                   = []).
    { unfold parent_node.
      destruct (m !! ((S c - 1) / 2)%nat) as [pp|]; [| reflexivity].
      unfold siblingHashes. cbn [omap list_omap role fst].
      now destruct ((S c - 1) / 2 =? 0)%nat. }
    rewrite Hpar. unfold siblingHashes at 1. simpl. rewrite Hhash. simpl.
    exact Hfold.
Qed.

(** X21: the sibling nodes that the page highlights along a proof path
    are a Merkle proof of the leaf.  For any order-insensitive pair hash
    [combine] such that every node of the package's flat array with two
    children is [combine] of them, combining the hash of the leaf with
    the hashes shown at the sibling nodes, in path order, gives the hash
    at index 0, the root. *)
Theorem explorer_path_is_merkle_proof (leaves : list LeafData)
        (leafIndex treeIndex : nat) (h : string) :
  hashed_pairs combine (flatTree (computeTreeLayers leaves)) ->
  valueMap (computeTreeLayers leaves) !! leafIndex = Some treeIndex ->
  flatTree (computeTreeLayers leaves) !! treeIndex = Some h ->
  flatTree (computeTreeLayers leaves) !! 0%nat
  = Some (fold_left combine
            (siblingHashes (layers (computeTreeLayers leaves))
               (computeProofPath (flatTree (computeTreeLayers leaves))
                  (valueMap (computeTreeLayers leaves)) leafIndex
                  (layers (computeTreeLayers leaves)))) h).
Proof.
  intros Hwf Hleaf Hh.
  pose proof (computeTreeLayers_concat leaves) as Hcat.
  set (r := computeTreeLayers leaves) in *.
  unfold computeProofPath.
  pose proof (lookup_lt_Some _ _ _ Hleaf) as Hlt.
  replace (length (valueMap r) <=? leafIndex)%nat with false
    by (symmetry; apply Nat.leb_gt; lia).
  assert (Hne : (length (layers r) =? 0)%nat = false).
  { apply Nat.eqb_neq. intros E. apply length_zero_iff_nil in E.
    rewrite E in Hcat. simpl in Hcat. rewrite <- Hcat in Hh. discriminate. }
  rewrite Hne, Hleaf. cbn [orb].
  destruct (treeIndex =? 0)%nat eqn:E0.
  - apply Nat.eqb_eq in E0. subst treeIndex. exact Hh.
  - pose proof Hh as Hh'. rewrite <- Hcat in Hh'.
    destruct (index_layers_node (layers r) _ _ leaf 0%nat Hh') as (pos & Hm & _).
    rewrite Hm.
    destruct (climb_folds (flatTree r) (layers r) Hwf Hcat treeIndex 1%nat h Hh)
      as (x & Hx & Hfold).
    rewrite Hx. f_equal. symmetry. exact Hfold.
Qed.

End Fold.

End PathFacts.

Section LeafNameFacts.
Import Explorer.
Context `{StandardMerkleTree}.

Lemma findIndex_Some {A : Type} (p : A -> bool) (l : list A) :
  forall i, findIndex p l = Some i -> exists x, l !! i = Some x /\ p x = true.
Proof.
  induction l as [|a l IH]; intros i Hi; cbn [findIndex] in Hi; [discriminate |].
  destruct (p a) eqn:Ea.
  - injection Hi as <-. exists a. auto.
  - destruct (findIndex p l) as [j|]; [| discriminate].
    injection Hi as <-. destruct (IH j eq_refl) as (x & Hx & Hp).
    exists x. auto.
Qed.

Lemma foldl_invariant {A B : Type} (P : A -> Prop) (Q : B -> Prop)
      (f : A -> B -> A) (l : list B) :
  (forall a b, P a -> Q b -> P (f a b)) ->
  (forall b, In b l -> Q b) ->
  forall a, P a -> P (foldl f a l).
Proof.
  intros Hstep. induction l as [|b l IH]; intros HQ a Ha; [exact Ha |].
  cbn [foldl]. apply IH.
  - intros b' Hb'. apply HQ. now right.
  - apply Hstep; [exact Ha | apply HQ; now left].
Qed.

(** X22: the two maps the page keeps for the leaf hashes agree.  They
    have the same keys; a key is a non-empty hash that the flat array
    holds at the tree index of an entry of the package, and the index
    stored for it is the position of a registered leaf with the wallet
    (up to letter case) and issue number of that entry, whose name, or
    [#<issue number>] when it has none, is the name stored for the key. *)
Theorem explorer_leaf_names (leaves : list LeafData) (h : string) :
  (leafNames (computeTreeLayers leaves) !! h = None
   <-> leafIndexMap (computeTreeLayers leaves) !! h = None)
  /\ forall i,
       leafIndexMap (computeTreeLayers leaves) !! h = Some i ->
       h <> EmptyString
       /\ exists l v,
            leaves !! i = Some l
            /\ In v (values
                       (of_dump
                          (map (fun l => (Str.toLowerCase (bot_wallet l),
                                          birth_issue l, issue_number l))
                               leaves)))
            /\ flatTree (computeTreeLayers leaves) !! treeIndex v = Some h
            /\ Str.toLowerCase (bot_wallet l)
               = Str.toLowerCase (fst (fst (value v)))
            /\ issue_number l = snd (value v)
            /\ leafNames (computeTreeLayers leaves) !! h
               = Some (if bool_decide (oracle_name l = EmptyString)
                       then "#" +:+ Str.show_Z (issue_number l)
                       else oracle_name l).
Proof.
  unfold computeTreeLayers. destruct leaves as [|l0 leaves'].
  { cbn [leafNames leafIndexMap emptyTree]. rewrite !lookup_empty.
    split; [tauto | discriminate]. }
  set (leaves := l0 :: leaves').
  set (dump := of_dump (map _ leaves)).
  pose (P := fun acc : gmap string string * gmap string nat =>
       (forall h, fst acc !! h = None <-> snd acc !! h = None)
       /\ forall h i,
            snd acc !! h = Some i ->
            h <> EmptyString
            /\ exists l v,
                 leaves !! i = Some l
                 /\ In v (values dump)
                 /\ tree dump !! treeIndex v = Some h
                 /\ Str.toLowerCase (bot_wallet l)
                    = Str.toLowerCase (fst (fst (value v)))
                 /\ issue_number l = snd (value v)
                 /\ fst acc !! h
                    = Some (if bool_decide (oracle_name l = EmptyString)
                            then "#" +:+ Str.show_Z (issue_number l)
                            else oracle_name l)).
  assert (Hinv : P (foldl (record_leaf leaves (tree dump)) (∅, ∅) (values dump))).
  { apply (foldl_invariant P (fun v => In v (values dump))).
    - intros acc v [Hdom Hent] Hv. unfold record_leaf.
      destruct (Str.truthy (tree dump !! treeIndex v)) as [hash|] eqn:Et;
        [| split; assumption].
      apply truthy_inv in Et as [Eh Hne].
      destruct (findIndex _ leaves) as [idx|] eqn:Ef; [| split; assumption].
      apply findIndex_Some in Ef as (l & Hl & Hp). rewrite Hl.
      apply andb_prop in Hp as [Hp1 Hp2].
      apply bool_decide_eq_true in Hp1. apply bool_decide_eq_true in Hp2.
      split; cbn [fst snd].
      + intros h0. destruct (decide (h0 = hash)) as [-> | Hneq].
        * rewrite !lookup_insert_eq. split; discriminate.
        * rewrite !lookup_insert_ne by congruence. apply Hdom.
      + intros h0 i0. destruct (decide (h0 = hash)) as [-> | Hneq].
        * rewrite !lookup_insert_eq. intros [= <-]. split; [exact Hne |].
          exists l, v. repeat (split; [assumption |]).
          destruct (oracle_name l); reflexivity.
        * rewrite !lookup_insert_ne by congruence. intros Hi.
          exact (Hent _ _ Hi).
    - auto.
    - split; cbn [fst snd].
      + intros h0. rewrite !lookup_empty. tauto.
      + intros h0 i0. rewrite lookup_empty. discriminate. }
  unfold P in Hinv. clear P.
  destruct (foldl (record_leaf leaves (tree dump)) (∅, ∅) (values dump))
    as [names indices].
  cbn [leafNames leafIndexMap flatTree fst snd] in *.
  destruct Hinv as [Hdom Hent]. split; [apply Hdom | apply Hent].
Qed.

End LeafNameFacts.

Lemma explorer_path_ends_at_root_witness :
  exists pre n,
    Explorer.computeProofPath
      (Explorer.flatTree
         (@Explorer.computeTreeLayers Fixtures.package Fixtures.page_leaves))
      (Explorer.valueMap
         (@Explorer.computeTreeLayers Fixtures.package Fixtures.page_leaves)) 0
      (Explorer.layers
         (@Explorer.computeTreeLayers Fixtures.package Fixtures.page_leaves))
    = pre ++ [n]
    /\ Explorer.role n = Explorer.root
    /\ Explorer.nodeHash
         (Explorer.layers
            (@Explorer.computeTreeLayers Fixtures.package Fixtures.page_leaves)) n
       = Explorer.flatTree
           (@Explorer.computeTreeLayers Fixtures.package Fixtures.page_leaves)
         !! 0%nat
    /\ Forall (fun x => Explorer.role x <> Explorer.root) pre
    /\ (4%nat <> 0%nat ->
        exists n0 rest,
          pre = n0 :: rest /\ Explorer.role n0 = Explorer.leaf
          /\ Explorer.nodeHash
               (Explorer.layers
                  (@Explorer.computeTreeLayers Fixtures.package
                     Fixtures.page_leaves)) n0
             = Some "L(0xaa,https://github.com/o/a/issues/1,10)").
Proof.
  apply (@explorer_path_ends_at_root Fixtures.package Fixtures.page_leaves
           0%nat 4%nat "L(0xaa,https://github.com/o/a/issues/1,10)").
  - vm_compute. reflexivity.
  - vm_compute. reflexivity.
Defined.

Lemma package_hashed_pairs :
  Explorer.hashed_pairs (@Merkle.internalHash Fixtures.hashing)
    (Explorer.flatTree
       (@Explorer.computeTreeLayers Fixtures.package Fixtures.page_leaves)).
Proof.
  assert (Hlen : length (Explorer.flatTree
                           (@Explorer.computeTreeLayers Fixtures.package
                              Fixtures.page_leaves)) = 5%nat)
    by (vm_compute; reflexivity).
  split; [vm_compute; reflexivity |].
  intros i a b Ha Hb. destruct i as [|[|i]].
  - vm_compute in Ha, Hb. injection Ha as <-. injection Hb as <-.
    vm_compute. reflexivity.
  - vm_compute in Ha, Hb. injection Ha as <-. injection Hb as <-.
    vm_compute. reflexivity.
  - apply lookup_lt_Some in Ha. rewrite Hlen in Ha. lia.
Qed.

Lemma explorer_path_is_merkle_proof_witness :
  Explorer.flatTree
    (@Explorer.computeTreeLayers Fixtures.package Fixtures.page_leaves) !! 0%nat
  = Some (fold_left (@Merkle.internalHash Fixtures.hashing)
            (Explorer.siblingHashes
               (Explorer.layers
                  (@Explorer.computeTreeLayers Fixtures.package
                     Fixtures.page_leaves))
               (Explorer.computeProofPath
                  (Explorer.flatTree
                     (@Explorer.computeTreeLayers Fixtures.package
                        Fixtures.page_leaves))
                  (Explorer.valueMap
                     (@Explorer.computeTreeLayers Fixtures.package
                        Fixtures.page_leaves)) 0
                  (Explorer.layers
                     (@Explorer.computeTreeLayers Fixtures.package
                        Fixtures.page_leaves))))
            "L(0xaa,https://github.com/o/a/issues/1,10)").
Proof.
  apply (@explorer_path_is_merkle_proof Fixtures.package
           (@Merkle.internalHash Fixtures.hashing)
           (@internalHash_comm Fixtures.hashing)
           Fixtures.page_leaves 0%nat 4%nat).
  - exact package_hashed_pairs.
  - vm_compute. reflexivity.
  - vm_compute. reflexivity.
Defined.

Lemma explorer_leaf_names_witness :
  "L(0xbb,https://github.com/o/b/issues/1,20)" <> EmptyString
  /\ exists l v,
       Fixtures.page_leaves !! 1%nat = Some l
       /\ In v (Explorer.values
                  (@Explorer.of_dump Fixtures.package
                     (map (fun l => (Str.toLowerCase (Explorer.bot_wallet l),
                                     Explorer.birth_issue l,
                                     Explorer.issue_number l))
                          Fixtures.page_leaves)))
       /\ Explorer.flatTree
            (@Explorer.computeTreeLayers Fixtures.package Fixtures.page_leaves)
          !! Explorer.treeIndex v
          = Some "L(0xbb,https://github.com/o/b/issues/1,20)"
       /\ Str.toLowerCase (Explorer.bot_wallet l)
          = Str.toLowerCase (fst (fst (Explorer.value v)))
       /\ Explorer.issue_number l = snd (Explorer.value v)
       /\ Explorer.leafNames
            (@Explorer.computeTreeLayers Fixtures.package Fixtures.page_leaves)
          !! "L(0xbb,https://github.com/o/b/issues/1,20)"
          = Some (if bool_decide (Explorer.oracle_name l = EmptyString)
                  then "#" +:+ Str.show_Z (Explorer.issue_number l)
                  else Explorer.oracle_name l).
Proof.
  apply (proj2 (@explorer_leaf_names Fixtures.package Fixtures.page_leaves
                  "L(0xbb,https://github.com/o/b/issues/1,20)") 1%nat).
  vm_compute. reflexivity.
Defined.

(** ** The allow-list: from the stored text to the patterns *)

Section PatternListFacts.
Import Settings.

Lemma Contains_comma_append (a b : string) :
  Str.Contains (a +:+ b) "," = Str.Contains a "," || Str.Contains b ",".
Proof.
  induction a as [|x a IH].
  - cbn [String.append]. destruct (Str.Contains b ","); reflexivity.
  - cbn [String.append]. rewrite !Contains_comma_cons, IH. apply orb_assoc.
Qed.

Lemma blank_comma_free (l : string) :
  forallb is_blank (list_ascii_of_string l) = true -> Str.Contains l "," = false.
Proof.
  induction l as [|c l IH]; [reflexivity |].
  cbn [list_ascii_of_string forallb]. intros E. apply andb_prop in E as [Ec El].
  rewrite Contains_comma_cons, (IH El), orb_false_r.
  destruct (Ascii.eqb_spec "," c) as [<- | _]; [discriminate Ec | reflexivity].
Qed.

(** A comma-free text followed by the end or by a comma is determined by
    the whole. *)
Lemma comma_free_head_unique (a : string) :
  forall b r1 r2,
    Str.Contains a "," = false -> Str.Contains b "," = false ->
    (r1 = EmptyString \/ exists t, r1 = String "," t) ->
    (r2 = EmptyString \/ exists t, r2 = String "," t) ->
    a +:+ r1 = b +:+ r2 -> a = b /\ r1 = r2.
Proof.
  induction a as [|x a IH]; intros b r1 r2 Ha Hb H1 H2 E.
  - destruct b as [|y b]; [auto |]. exfalso.
    rewrite Contains_comma_cons in Hb. apply orb_false_elim in Hb as [Hy _].
    cbn [String.append] in E. destruct H1 as [-> | [t ->]]; [discriminate |].
    injection E as <- _. now rewrite Ascii.eqb_refl in Hy.
  - rewrite Contains_comma_cons in Ha. apply orb_false_elim in Ha as [Hx Ha].
    destruct b as [|y b].
    + exfalso. cbn [String.append] in E.
      destruct H2 as [-> | [t ->]]; [discriminate |].
      injection E as -> _. now rewrite Ascii.eqb_refl in Hx.
    + rewrite Contains_comma_cons in Hb. apply orb_false_elim in Hb as [_ Hb].
      cbn [String.append] in E. injection E as -> E.
      destruct (IH b r1 r2 Ha Hb H1 H2 E) as [-> ->]. auto.
Qed.

Lemma concat_comma_cons (p : string) (ps : list string) :
  String.concat "," (p :: ps)
  = p +:+ match ps with
          | [] => EmptyString
          | _ :: _ => String "," (String.concat "," ps)
          end.
Proof. destruct ps; [symmetry; apply append_nil_r | reflexivity]. Qed.

Lemma concat_comma_inj (ps : list string) :
  forall qs,
    ps <> [] -> qs <> [] ->
    Forall (fun p => Str.Contains p "," = false) ps ->
    Forall (fun p => Str.Contains p "," = false) qs ->
    String.concat "," ps = String.concat "," qs -> ps = qs.
Proof.
  induction ps as [|p ps IH]; intros qs Hps Hqs Fp Fq E; [congruence |].
  destruct qs as [|q qs]; [congruence |].
  rewrite !concat_comma_cons in E.
  apply Forall_cons in Fp as [Hp Fp]. apply Forall_cons in Fq as [Hq Fq].
  assert (H1 : match ps with
               | [] => EmptyString
               | _ :: _ => String "," (String.concat "," ps)
               end = EmptyString
               \/ exists t, match ps with
                            | [] => EmptyString
                            | _ :: _ => String "," (String.concat "," ps)
                            end = String "," t)
    by (destruct ps; [now left | right; eauto]).
  assert (H2 : match qs with
               | [] => EmptyString
               | _ :: _ => String "," (String.concat "," qs)
               end = EmptyString
               \/ exists t, match qs with
                            | [] => EmptyString
                            | _ :: _ => String "," (String.concat "," qs)
                            end = String "," t)
    by (destruct qs; [now left | right; eauto]).
  destruct (comma_free_head_unique p q _ _ Hp Hq H1 H2 E) as [-> Er].
  clear H1 H2 E.
  destruct ps as [|p' ps], qs as [|q' qs]; try discriminate; [reflexivity |].
  injection Er as Er. f_equal. apply IH; try assumption; discriminate.
Qed.

Lemma split_of_concat (parts : list string) :
  parts <> [] ->
  Forall (fun p => Str.Contains p "," = false) parts ->
  split (String.concat "," parts) "," = Some parts.
Proof.
  intros Hne Hfree.
  destruct (split_loop_comma (String.concat "," parts) EmptyString EmptyString []
              eq_refl) as (parts' & Hloop & Hcat & Hfree' & Hne').
  change (split (String.concat "," parts) "," = Some parts).
  replace parts with parts' at 2
    by (apply concat_comma_inj; assumption).
  exact Hloop.
Qed.

Lemma trim_left_blank (l x : string) :
  forallb is_blank (list_ascii_of_string l) = true ->
  trim_left (l +:+ x) = trim_left x.
Proof.
  induction l as [|c l IH]; [reflexivity |].
  cbn [list_ascii_of_string forallb String.append trim_left].
  intros E. apply andb_prop in E as [Ec El]. now rewrite Ec, IH.
Qed.

Lemma trim_padded (l p r : string) :
  forallb is_blank (list_ascii_of_string l) = true ->
  forallb is_blank (list_ascii_of_string r) = true ->
  p <> EmptyString ->
  (forall c t, p = String c t -> is_blank c = false) ->
  (forall t c, p = t +:+ String c EmptyString -> is_blank c = false) ->
  trim (l +:+ p +:+ r) = p.
Proof.
  intros Hl Hr Hne Hfirst Hlast. unfold trim.
  rewrite (trim_left_blank l _ Hl).
  destruct p as [|c t]; [congruence |].
  cbn [String.append trim_left]. rewrite (Hfirst c t eq_refl).
  change (String c (t +:+ r)) with (String c t +:+ r).
  unfold trim_right. rewrite rev_append.
  rewrite (trim_left_blank _ _ (blank_rev _ Hr)).
  destruct (String.rev (String c t)) as [|c' u] eqn:Erev.
  - apply (f_equal String.rev) in Erev. rewrite rev_involutive in Erev.
    discriminate.
  - assert (Ep : String c t = String.rev u +:+ String c' EmptyString).
    { rewrite <- rev_cons, <- Erev. symmetry. apply rev_involutive. }
    cbn [trim_left]. rewrite (Hlast _ _ Ep). rewrite <- Erev.
    apply rev_involutive.
Qed.

(** X23: a list of patterns written out with commas between them, each
    with any blanks around it, is read back as exactly that list, in
    order, provided the patterns are what an allow-list holds: not
    empty, without a comma, without a blank at either end.  With such a
    text stored, [IsRepoWhitelisted] is [matchesAnyPattern] on the
    list. *)
Theorem allow_list_round_trip
        (padded : list (string * string * string))
        (app : App) (e : bool) (d repo : string) :
  padded <> [] ->
  Forall (fun x =>
            forallb is_blank (list_ascii_of_string (fst (fst x))) = true
            /\ forallb is_blank (list_ascii_of_string (snd x)) = true
            /\ snd (fst x) <> EmptyString
            /\ Str.Contains (snd (fst x)) "," = false
            /\ (forall c t, snd (fst x) = String c t -> is_blank c = false)
            /\ (forall t c, snd (fst x) = t +:+ String c EmptyString ->
                            is_blank c = false))
         padded ->
  splitAndTrim
    (String.concat ","
       (map (fun x => fst (fst x) +:+ snd (fst x) +:+ snd x) padded))
  = Some (map (fun x => snd (fst x)) padded)
  /\ IsRepoWhitelisted
       (<[ "whitelisted_repos" :=
             mkSetting
               (String.concat ","
                  (map (fun x => fst (fst x) +:+ snd (fst x) +:+ snd x) padded))
               e d ]> app) repo
     = matchesAnyPattern repo (map (fun x => snd (fst x)) padded).
Proof.
  intros Hne Hclean.
  assert (Hsplit : splitAndTrim
                     (String.concat ","
                        (map (fun x => fst (fst x) +:+ snd (fst x) +:+ snd x)
                             padded))
                   = Some (map (fun x => snd (fst x)) padded)).
  { unfold splitAndTrim. rewrite split_of_concat.
    - f_equal. clear Hne. induction padded as [|x padded IH]; [reflexivity |].
      apply Forall_cons in Hclean as [(Hl & Hr & Hp & _ & Hfirst & Hlast) Hrest].
      cbn [map]. rewrite (trim_padded _ _ _ Hl Hr Hp Hfirst Hlast).
      rewrite filter_cons_True by exact Hp. now rewrite (IH Hrest).
    - destruct padded; [congruence | discriminate].
    - apply List.Forall_forall. intros s Hin.
      apply in_map_iff in Hin as (x & <- & Hx).
      rewrite List.Forall_forall in Hclean.
      destruct (Hclean x Hx) as (Hl & Hr & _ & Hp & _).
      rewrite !Contains_comma_append, Hp.
      now rewrite (blank_comma_free _ Hl), (blank_comma_free _ Hr). }
  split; [exact Hsplit |].
  unfold IsRepoWhitelisted, GetSettingValue, GetSetting.
  rewrite lookup_insert_eq. cbn [value].
  destruct (decide (String.concat ","
                      (map (fun x => fst (fst x) +:+ snd (fst x) +:+ snd x) padded)
                    = EmptyString)) as [E | E].
  - rewrite E in Hsplit. vm_compute in Hsplit.
    destruct padded; [congruence | discriminate].
  - rewrite bool_decide_eq_false_2 by exact E. now rewrite Hsplit.
Qed.

End PatternListFacts.

Lemma allow_list_round_trip_witness :
  Settings.splitAndTrim
    (String.concat ","
       (map (fun x => fst (fst x) +:+ snd (fst x) +:+ snd x)
            [(EmptyString, "Soul-Brews-Studio/*", EmptyString);
             (" ", "alice/oracle", " ")]))
  = Some (map (fun x => snd (fst x))
              [(EmptyString, "Soul-Brews-Studio/*", EmptyString);
               (" ", "alice/oracle", " ")])
  /\ Settings.IsRepoWhitelisted
       (<[ "whitelisted_repos" :=
             Settings.mkSetting
               (String.concat ","
                  (map (fun x => fst (fst x) +:+ snd (fst x) +:+ snd x)
                       [(EmptyString, "Soul-Brews-Studio/*", EmptyString);
                        (" ", "alice/oracle", " ")]))
               true EmptyString ]> Fixtures.seeded) "alice/oracle"
     = Settings.matchesAnyPattern "alice/oracle"
         (map (fun x => snd (fst x))
              [(EmptyString, "Soul-Brews-Studio/*", EmptyString);
               (" ", "alice/oracle", " ")]).
Proof.
  apply allow_list_round_trip; [discriminate |].
  repeat constructor; try discriminate.
  - intros c t [= <- _]. reflexivity.
  - intros t c E. apply (f_equal String.rev) in E.
    rewrite rev_append in E. vm_compute in E. injection E as <- _. reflexivity.
  - intros c t [= <- _]. reflexivity.
  - intros t c E. apply (f_equal String.rev) in E.
    rewrite rev_append in E. vm_compute in E. injection E as <- _. reflexivity.
Defined.

(** ** The wallet worker: the token of a sign-in *)

Section TokenFacts.
Import Siwer.
Context `{Viem} {PB : Type} `{PocketBase PB}.

Lemma respond_token address created oracle kv (db : PB) created' oracle' token :
  body (fst (respond address created oracle kv db)) = Verified created' oracle' token ->
  authWithPassword (pb (snd (respond address created oracle kv db)))
    (wallet_address oracle) (Str.toLowerCase address) = inr token
  /\ (pb (snd (respond address created oracle kv db)) = db
      \/ update db (id oracle) (Str.toLowerCase address) (Str.toLowerCase address)
         = inr (pb (snd (respond address created oracle kv db)))).
Proof.
  unfold respond, auth_token.
  destruct (authWithPassword db (wallet_address oracle) (Str.toLowerCase address))
    as [msg | tok] eqn:Hauth.
  - destruct (update db (id oracle) _ _) as [msg' | db'] eqn:Hupd;
      [discriminate |].
    destruct (authWithPassword db' _ _) as [msg' | tok] eqn:Hauth';
      [discriminate |].
    cbn [fst snd body pb]. intros [= _ _ <-]. auto.
  - cbn [fst snd body pb]. intros [= _ _ <-]. auto.
Qed.

(** X24: the token of a successful [/verify] is the one PocketBase gave
    for the wallet of the answered record with the lower-cased address as
    password, on the database as the call leaves it.  A record that was
    found ([created] false) is the record of the lookup, and the database
    is untouched or differs by the password reset that the first failed
    sign-in triggers; a record that was created got the name of the
    request or, without one, [Oracle-] and the first six characters of
    the address as written, and karma 0. *)
Theorem wallet_verify_token
        (now : Z) (req : VerifyRequest) (w : @World PB)
        (created : bool) (oracle : Oracle) (token : string) :
  body (fst (verify_handler now req w)) = Verified created oracle token ->
  exists address,
    Str.truthy (r_address req) = Some address
    /\ authWithPassword (pb (snd (verify_handler now req w)))
         (wallet_address oracle) (Str.toLowerCase address) = inr token
    /\ (created = false ->
        getFirstListItem (pb w)
          ("wallet_address = " +:+ String dquote (Str.toLowerCase address)
             +:+ String dquote EmptyString) = Some oracle
        /\ (pb (snd (verify_handler now req w)) = pb w
            \/ update (pb w) (id oracle) (Str.toLowerCase address)
                 (Str.toLowerCase address)
               = inr (pb (snd (verify_handler now req w)))))
    /\ (created = true ->
        exists db',
          create (pb w)
            (mkOracleCreate
               match Str.truthy (r_name req) with
               | Some n => n
               | None => "Oracle-" +:+ Str.jsSlice0 6 address
               end
               (Str.toLowerCase address) (Str.toLowerCase address)
               (Str.toLowerCase address) true 0)
          = inr (oracle, db')).
Proof.
  intros Hbody. unfold verify_handler in Hbody |- *.
  destruct (Str.truthy (r_address req)) as [address|]; [| discriminate].
  destruct (Str.truthy (r_signature req)) as [signature|]; [| discriminate].
  destruct (kv_get now (NONCES w) (Str.toLowerCase address)) as [d|];
    [| discriminate].
  destruct (verifyMessage address _ signature) as [msg | []];
    try discriminate.
  exists address. split; [reflexivity |].
  destruct (getFirstListItem (pb w) _) as [found|] eqn:Hfind.
  - pose proof (respond_created _ _ _ _ _ _ _ _ Hbody) as [-> ->].
    destruct (respond_token _ _ _ _ _ _ _ _ Hbody) as [Htok Hdb].
    split; [exact Htok |]. split; [auto | discriminate].
  - destruct (create (pb w) _) as [msg | [o db']] eqn:Hcreate; [discriminate |].
    pose proof (respond_created _ _ _ _ _ _ _ _ Hbody) as [-> ->].
    destruct (respond_token _ _ _ _ _ _ _ _ Hbody) as [Htok Hdb].
    split; [exact Htok |]. split; [discriminate |].
    intros _. now exists db'.
Qed.

End TokenFacts.

Lemma wallet_verify_token_witness :
  exists address,
    Str.truthy (Siwer.r_address Fixtures.request0) = Some address
    /\ @Siwer.authWithPassword _ Fixtures.pocketbase
         (Siwer.pb (snd (@Siwer.verify_handler Fixtures.viem _ Fixtures.pocketbase
                           (Fixtures.now0 + 1000) Fixtures.request0
                           Fixtures.world0)))
         "0x52908400098527886e0f7030069857d2e4169ee7" (Str.toLowerCase address)
       = inr "token-rec0".
Proof.
  destruct (@wallet_verify_token Fixtures.viem _ Fixtures.pocketbase
              (Fixtures.now0 + 1000) Fixtures.request0 Fixtures.world0
              true
              (Siwer.mkOracle "rec0" "Oracle-0x5290"
                 "0x52908400098527886e0f7030069857d2e4169ee7" true 0)
              "token-rec0" ltac:(vm_compute; reflexivity))
    as (address & Ha & Htok & _).
  exists address. split; [exact Ha | exact Htok].
Defined.

(** ** The wallet worker: the message binds the nonce *)

Section MessageFacts.
Import Siwer.

Lemma Contains_nl_cons (x : ascii) (t : string) :
  Str.Contains (String x t) nl = Ascii.eqb "010" x || Str.Contains t nl.
Proof. unfold nl. cbn [Str.Contains Str.HasPrefix]. now rewrite andb_true_r. Qed.

(** A text without a line feed, followed by a line feed, is determined
    by the whole. *)
Lemma line_unique (a : string) :
  forall b r1 r2,
    Str.Contains a nl = false -> Str.Contains b nl = false ->
    a +:+ String "010" r1 = b +:+ String "010" r2 -> a = b.
Proof.
  induction a as [|x a IH]; intros b r1 r2 Ha Hb E.
  - destruct b as [|y b]; [reflexivity |]. exfalso.
    rewrite Contains_nl_cons in Hb. apply orb_false_elim in Hb as [Hy _].
    cbn [String.append] in E. injection E as <- _.
    now rewrite Ascii.eqb_refl in Hy.
  - rewrite Contains_nl_cons in Ha. apply orb_false_elim in Ha as [Hx Ha].
    destruct b as [|y b].
    + exfalso. cbn [String.append] in E. injection E as -> _.
      now rewrite Ascii.eqb_refl in Hx.
    + rewrite Contains_nl_cons in Hb. apply orb_false_elim in Hb as [_ Hb].
      cbn [String.append] in E. injection E as -> E.
      now rewrite (IH b r1 r2 Ha Hb E).
Qed.

(** X25: the message to sign determines the nonce: two challenges whose
    nonces differ (nonces, cut from a UUID, hold no line feed) have
    different messages, whatever their timestamps, so a signature over
    one challenge is not a signature over the message of another. *)
Theorem sign_in_message_binds_nonce (n1 n2 : string) (t1 t2 : Z) :
  Str.Contains n1 nl = false -> Str.Contains n2 nl = false ->
  n1 <> n2 ->
  signInMessage n1 t1 <> signInMessage n2 t2.
Proof.
  intros H1 H2 Hne E. apply Hne. unfold signInMessage in E.
  assert (Hcut : forall p a b : string, p +:+ a = p +:+ b -> a = b).
  { induction p as [|c p IH]; intros a b Hab; [exact Hab |].
    cbn [String.append] in Hab. injection Hab as Hab. now apply IH. }
  do 4 apply Hcut in E.
  exact (line_unique n1 n2 _ _ H1 H2 E).
Qed.

End MessageFacts.

Lemma sign_in_message_binds_nonce_witness :
  Siwer.signInMessage "3b241101" Fixtures.now0
  <> Siwer.signInMessage "9f8e7d6c" Fixtures.now0.
Proof.
  apply sign_in_message_binds_nonce.
  - vm_compute. reflexivity.
  - vm_compute. reflexivity.
  - discriminate.
Defined.
